(** * sculptGrid: the domain composition and coordinate transformation engine

    A shallow embedding of [localShapeDeformation.js], of the adaptive grid
    module built on it (domain registry, blended forward transform, inverse
    transform, effective grid size, derived caches), of [cacheModule.js] and
    of [createSnappingModule.js].

    Numbers.  A JavaScript number is modelled as a real number or [NaN]:
    arithmetic is exact, and the infinities and the signed zero are outside
    the model.  [NaN] is kept because the source produces it without any
    division: an argument that is left out of a call is [undefined], and
    [undefined] in arithmetic is [NaN]. *)

From Stdlib Require Import Reals Zfloor Lra Lia ZArith List String Bool.
Import ListNotations.

Set Implicit Arguments.

(** ** JavaScript numbers *)

Module Num.

Local Open Scope R_scope.

Inductive num : Type :=
| Fin (r : R)
| NaN.

Definition lift1 (f : R -> R) (a : num) : num :=
  match a with
  | Fin x => Fin (f x)
  | NaN => NaN
  end.

Definition lift2 (f : R -> R -> R) (a b : num) : num :=
  match a, b with
  | Fin x, Fin y => Fin (f x y)
  | _, _ => NaN
  end.

Definition add : num -> num -> num := lift2 Rplus.
Definition sub : num -> num -> num := lift2 Rminus.
Definition mul : num -> num -> num := lift2 Rmult.

(** [a / b].  JavaScript gives [NaN] for [0 / 0] and an infinity for any
    other division by zero; the model has no infinity and gives [NaN] for
    both. *)
Definition div (a b : num) : num :=
  match a, b with
  | Fin x, Fin y => if Req_dec_T y 0 then NaN else Fin (x / y)
  | _, _ => NaN
  end.

(** Comparisons: any comparison with [NaN] is false. *)
Definition ltb (a b : num) : bool :=
  match a, b with
  | Fin x, Fin y => if Rlt_dec x y then true else false
  | _, _ => false
  end.

Definition leb (a b : num) : bool :=
  match a, b with
  | Fin x, Fin y => if Rle_dec x y then true else false
  | _, _ => false
  end.

Definition gtb (a b : num) : bool := ltb b a.
Definition geb (a b : num) : bool := leb b a.

(** [a === b] on numbers. *)
Definition eqb (a b : num) : bool :=
  match a, b with
  | Fin x, Fin y => if Req_dec_T x y then true else false
  | _, _ => false
  end.

(** [v || dflt] for a number: [0] and [NaN] are falsy. *)
Definition truthy (a : num) : bool :=
  match a with
  | Fin x => if Req_dec_T x 0 then false else true
  | NaN => false
  end.

(** [o || dflt] where a missing property reads as [undefined]. *)
Definition or_default (o : option num) (dflt : num) : num :=
  match o with
  | Some v => if truthy v then v else dflt
  | None => dflt
  end.

(** An argument left out of a call is [undefined]; in arithmetic it is
    [NaN]. *)
Definition of_arg (o : option num) : num :=
  match o with
  | Some v => v
  | None => NaN
  end.

(** [Math.floor(x) & m]: the conversion to a 32-bit integer sends [NaN]
    to [0]; [m] is [255] in the source, so the wrap-around at 32 bits does
    not show. *)
Definition floor_and (x : num) (m : Z) : Z :=
  match x with
  | Fin r => Z.land (Zfloor r) m
  | NaN => 0%Z
  end.

Definition is_fin (a : num) : Prop :=
  match a with
  | Fin _ => True
  | NaN => False
  end.

End Num.

Import Num.

(** The [Math] functions the engine uses. *)

Module Math.

Local Open Scope R_scope.

Definition max : num -> num -> num := lift2 Rmax.
Definition min : num -> num -> num := lift2 Rmin.
Definition abs : num -> num := lift1 Rabs.
Definition cos : num -> num := lift1 Rtrigo_def.cos.
Definition sin : num -> num := lift1 Rtrigo_def.sin.
Definition exp : num -> num := lift1 Rtrigo_def.exp.
Definition hypot : num -> num -> num :=
  lift2 (fun x y => sqrt (x * x + y * y)).
Definition floor : num -> num := lift1 (fun x => IZR (Zfloor x)).

(** [Math.round]: the nearest integer, a tie going up. *)
Definition round : num -> num := lift1 (fun x => IZR (Zfloor (x + / 2))).

(** [Math.atan2 y x] on reals. *)
Definition atan2R (y x : R) : R :=
  if Rlt_dec 0 x then atan (y / x)
  else if Rlt_dec x 0 then
         if Rle_dec 0 y then atan (y / x) + PI else atan (y / x) - PI
       else if Rlt_dec 0 y then PI / 2
            else if Rlt_dec y 0 then - (PI / 2) else 0.

Definition atan2 : num -> num -> num := lift2 atan2R.

(** [Math.sqrt]: [NaN] below zero. *)
Definition sqrt (a : num) : num :=
  match a with
  | Fin r => if Rlt_dec r 0 then NaN else Fin (R_sqrt.sqrt r)
  | NaN => NaN
  end.

(** [Math.pow(a, 2)]. *)
Definition pow2 (a : num) : num := lift1 (fun r => r * r) a.

End Math.

Declare Scope num_scope.
Delimit Scope num_scope with num.
Bind Scope num_scope with num.
Infix "+" := add : num_scope.
Infix "-" := sub : num_scope.
Infix "*" := mul : num_scope.
Infix "/" := div : num_scope.
Infix "<?" := ltb : num_scope.
Infix "<=?" := leb : num_scope.
Infix ">?" := gtb : num_scope.
Infix ">=?" := geb : num_scope.
Infix "===" := eqb (at level 70) : num_scope.

Coercion Fin : R >-> num.

(** ** Points *)

Record Point : Type := mkPoint { x : num; y : num }.

(** ** localShapeDeformation.js *)

Module Deformation.

Local Open Scope string_scope.
Local Open Scope num_scope.

(** *** Section 1: core constants *)

Definition EPSILON : num := Fin (/ 10000000000).
Definition MAX_CURVATURE : num := Fin (95 / 100).

(** *** Section 2: mathematical tools *)

Record Complex : Type := mkComplex { re : num; im : num }.

Module complex.

Definition add (z1 z2 : Complex) : Complex :=
  {| re := re z1 + re z2; im := im z1 + im z2 |}.

Definition subtract (z1 z2 : Complex) : Complex :=
  {| re := re z1 - re z2; im := im z1 - im z2 |}.

Definition multiply (z1 z2 : Complex) : Complex :=
  {| re := re z1 * re z2 - im z1 * im z2;
     im := re z1 * im z2 + im z1 * re z2 |}.

Definition divide (z1 z2 : Complex) : Complex :=
  let denominator := re z2 * re z2 + im z2 * im z2 in
  {| re := (re z1 * re z2 + im z1 * im z2) / denominator;
     im := (im z1 * re z2 - re z1 * im z2) / denominator |}.

Definition fromPoint (p : Point) : Complex := {| re := x p; im := y p |}.
Definition toPoint (z : Complex) : Point := {| x := re z; y := im z |}.
Definition abs (z : Complex) : num := Math.hypot (re z) (im z).
Definition arg (z : Complex) : num := Math.atan2 (im z) (re z).
Definition conj (z : Complex) : Complex :=
  {| re := re z; im := Fin 0 - im z |}.

End complex.

Record MobiusParams : Type := mkMobius {
  ma : Complex; mb : Complex; mc : Complex; md : Complex;
  regularizationFactor : option num }.

Module geometry.

Definition mobiusTransform (z : Complex) (params : MobiusParams) : Complex :=
  let reg := match regularizationFactor params with
             | Some r => r
             | None => EPSILON
             end in
  let numerator := complex.add (complex.multiply (ma params) z) (mb params) in
  let denominator := complex.add (complex.multiply (mc params) z) (md params) in
  let denomAbs := complex.abs denominator in
  if denomAbs <? reg then
    let direction := complex.arg numerator in
    {| re := Math.cos direction * Fin 1000000;
       im := Math.sin direction * Fin 1000000 |}
  else complex.divide numerator denominator.

(** [p_z] is the [z] property of the point: a point of the plane has none,
    and the backward branch then computes with [undefined]. *)
Definition stereographicProjection (p : Point) (p_z : option num)
    (center : Point) (radius direction : num) : Point * option num :=
  let z := complex.fromPoint {| x := (x p - x center) / radius;
                                y := (y p - y center) / radius |} in
  let r := complex.abs z in
  if direction >? Fin 0 then
    let factor := Fin 2 / (Fin 1 + r * r) in
    ({| x := factor * re z * radius + x center;
        y := factor * im z * radius + y center |},
     Some ((r * r - Fin 1) / (r * r + Fin 1) * radius))
  else
    if Math.abs (of_arg p_z - radius) <? EPSILON then
      ({| x := x center; y := y center |}, None)
    else
      let factor := radius / (radius - of_arg p_z) in
      ({| x := x p * factor + x center; y := y p * factor + y center |}, None).

(** The forward branch also returns [theta] as a third property, which no
    caller reads. *)
Definition cylindricalMapping (p center : Point) (radius direction : num)
  : Point :=
  let dx := x p - x center in
  let dy := y p - y center in
  if direction >? Fin 0 then
    let theta := Math.atan2 dy dx in
    let r := Math.hypot dx dy in
    {| x := radius * theta; y := r - radius |}
  else
    let theta := x p / radius in
    let r := y p + radius in
    {| x := x center + r * Math.cos theta; y := y center + r * Math.sin theta |}.

Definition conicMapping (p center : Point) (radius eccentricity direction : num)
  : Point :=
  let z := complex.fromPoint {| x := (x p - x center) / radius;
                                y := (y p - y center) / radius |} in
  if direction >? Fin 0 then
    let params := {| ma := mkComplex (Fin 1) (Fin 0);
                     mb := mkComplex (Fin 0) (Fin 0);
                     mc := mkComplex eccentricity (Fin 0);
                     md := mkComplex (Fin 1) (Fin 0);
                     regularizationFactor := None |} in
    complex.toPoint (mobiusTransform z params)
  else
    let params := {| ma := mkComplex (Fin 1) (Fin 0);
                     mb := mkComplex (Fin 0) (Fin 0);
                     mc := mkComplex (Fin 0 - eccentricity) (Fin 0);
                     md := mkComplex (Fin 1) (Fin 0);
                     regularizationFactor := None |} in
    complex.toPoint (mobiusTransform z params).

End geometry.

(** *** Section 5 (used by section 3): blending functions *)

(** The keys of the table.  A blend mode outside the table makes
    [weightAt] throw; the engine never sets one, and the type leaves such
    strings out. *)
Inductive BlendMode : Type := sharp | linear | smooth.

Definition blendingFunctions (mode : BlendMode) (distance radius : num) : num :=
  match mode with
  | sharp => if distance <=? radius then Fin 1 else Fin 0
  | linear => Math.max (Fin 0) (Fin 1 - distance / radius)
  | smooth =>
      let t := Math.min (Fin 1) (distance / radius) in
      Fin (5 / 10) * (Fin 1 + Math.cos (Fin PI * t))
  end.

(** *** Section 3: domain framework *)

(** What a call can end with: a value, or a thrown error. *)
Inductive result (A : Type) : Type :=
| Return (a : A)
| Throw (message : string).
Arguments Throw {A} message.

Record Options : Type := mkOptions { eccentricity : option num }.

(** A configuration object.  A property that the object does not have reads
    as [undefined], here [None]. *)
Record Config : Type := mkConfig {
  cfg_type : option string;
  cfg_center : option Point;
  cfg_radius : option num;
  cfg_amplitude : option num;
  cfg_blendMode : option BlendMode;
  cfg_options : option Options;
  cfg_scale : option num;
  cfg_octaves : option num;
  cfg_persistence : option num;
  cfg_freqX : option num;
  cfg_freqY : option num;
  cfg_phase : option num;
  cfg_spread : option num }.

(** The value a constructor finds in its [config] parameter: an object, or
    a string.  None of the properties read below exists on a string, so
    each read of a string gives [undefined]. *)
Inductive Arg : Type :=
| ArgObject (c : Config)
| ArgString (s : string).

Definition prop {A : Type} (f : Config -> option A) (a : Arg) : option A :=
  match a with
  | ArgObject c => f c
  | ArgString _ => None
  end.

(** The class of a domain object, with the fields the class adds.
    [permutation] is the private table of [NoiseDomain], 512 whole numbers
    from 0 to 255 drawn from [Math.random] when the object is built. *)
Inductive ClassData : Type :=
| PlainDomain
| SphericalDomain
| CylindricalDomain
| ConicDomain
| NoiseDomain (scale octaves persistence : num) (permutation : nat -> Z)
| HarmonicDomain (freqX freqY phase : num)
| GaussianCurvatureDomain (spread : num).

Record Domain : Type := mkDomain {
  cls : ClassData;
  type : string;
  center : Point;
  radius : num;
  amplitude : num;
  blendMode : BlendMode;
  options : Options;
  id : option Z;
  created : option Z }.

(** [constructor(type, config = {})] of the base class. *)
Definition Domain_new (c : ClassData) (type : string) (config : Arg) : Domain :=
  {| cls := c;
     type := type;
     center := match prop cfg_center config with
               | Some p => p
               | None => {| x := Fin 0; y := Fin 0 |}
               end;
     radius := or_default (prop cfg_radius config) (Fin 100);
     amplitude := or_default (prop cfg_amplitude config) (Fin 0);
     blendMode := match prop cfg_blendMode config with
                  | Some m => m
                  | None => smooth
                  end;
     options := match prop cfg_options config with
                | Some o => o
                | None => {| eccentricity := None |}
                end;
     id := None;
     created := None |}.

(** The three conformal classes inherit the constructor of the base. *)
Definition SphericalDomain_new (type : string) (config : Arg) : Domain :=
  Domain_new SphericalDomain type config.
Definition CylindricalDomain_new (type : string) (config : Arg) : Domain :=
  Domain_new CylindricalDomain type config.
Definition ConicDomain_new (type : string) (config : Arg) : Domain :=
  Domain_new ConicDomain type config.

(** The other three declare [constructor(config)], with one parameter. *)
Definition NoiseDomain_new (config : Arg) (permutation : nat -> Z) : Domain :=
  Domain_new
    (NoiseDomain (or_default (prop cfg_scale config) (Fin (1 / 10)))
                 (or_default (prop cfg_octaves config) (Fin 3))
                 (or_default (prop cfg_persistence config) (Fin (5 / 10)))
                 permutation)
    "noise" config.

Definition HarmonicDomain_new (config : Arg) : Domain :=
  Domain_new
    (HarmonicDomain (or_default (prop cfg_freqX config) (Fin 3))
                    (or_default (prop cfg_freqY config) (Fin 2))
                    (or_default (prop cfg_phase config) (Fin 0)))
    "harmonic" config.

Definition GaussianCurvatureDomain_new (config : Arg) : Domain :=
  Domain_new
    (GaussianCurvatureDomain (or_default (prop cfg_spread config) (Fin 4)))
    "gaussian-curvature" config.

Definition weightAt (d : Domain) (point : Point) : num :=
  let distance := Math.hypot (x point - x (center d)) (y point - y (center d)) in
  blendingFunctions (blendMode d) distance (radius d).

(** **** NoiseDomain: the value-noise field *)

Definition fade (t : num) : num :=
  t * t * t * (t * (t * Fin 6 - Fin 15) + Fin 10).

(** [#lerp(a, b, t)]; the source calls it with two arguments as well as
    with three, and [t] is then [undefined]. *)
Definition lerp (a b : num) (t : option num) : num :=
  a + of_arg t * (b - a).

Definition grad (hash : Z) (x y : num) : num :=
  let h := Z.land hash 15 in
  let u := if (h <? 8)%Z then x else y in
  let v := if (h <? 4)%Z then y
           else if ((h =? 12) || (h =? 14))%Z then x else Fin 0 in
  (if (Z.land h 1 =? 0)%Z then u else Fin 0 - u)
  + (if (Z.land h 2 =? 0)%Z then v else Fin 0 - v).

Definition singleOctaveNoise (p : nat -> Z) (x y : num) : num :=
  let X := floor_and x 255 in
  let Y := floor_and y 255 in
  let xf := x - Math.floor x in
  let yf := y - Math.floor y in
  let u := fade xf in
  let v := fade yf in
  let A := (p (Z.to_nat X) + Y)%Z in
  let B := (p (Z.to_nat (X + 1)) + Y)%Z in
  lerp v
       (lerp u (grad (p (Z.to_nat A)) xf yf)
             (Some (lerp u (grad (p (Z.to_nat B)) (xf - Fin 1) yf) None)))
       None.

(** How often [for (let i = 0; i < bound; i++)] runs its body. *)
Definition iterations (bound : num) : nat :=
  match bound with
  | Fin r => Z.to_nat (Zceil r)
  | NaN => O
  end.

(** The loop of [#noise]; the state is [total], [frequency], [amplitude]
    and [maxValue]. *)
Fixpoint noise_loop (p : nat -> Z) (persistence x y : num) (n : nat)
    (total frequency amplitude maxValue : num) : num * num :=
  match n with
  | O => (total, maxValue)
  | S n' =>
      noise_loop p persistence x y n'
        (total + singleOctaveNoise p (x * frequency) (y * frequency) * amplitude)
        (frequency * Fin 2)
        (amplitude * persistence)
        (maxValue + amplitude)
  end.

Definition noise (p : nat -> Z) (octaves persistence x y : num) : num :=
  let '(total, maxValue) :=
    noise_loop p persistence x y (iterations octaves)
               (Fin 0) (Fin 1) (Fin 1) (Fin 0) in
  total / maxValue.

(** **** GaussianCurvatureDomain: the four bumps *)

Definition bumps : list (num * num * num) :=
  [ (Fin (5 / 10), Fin (5 / 10), Fin 1);
    (Fin (- (5 / 10)), Fin (- (5 / 10)), Fin 1);
    (Fin (5 / 10), Fin (- (5 / 10)), Fin (- 1));
    (Fin (- (5 / 10)), Fin (5 / 10), Fin (- 1)) ].

Definition gaussian_deformation (spread u v : num) : num :=
  fold_left
    (fun deformation bump =>
       let '(bx, by_, sign) := bump in
       let dx := u - bx in
       let dy := v - by_ in
       let distSq := dx * dx + dy * dy in
       deformation + sign * Math.exp ((Fin 0 - distSq) * spread))
    bumps (Fin 0).

(** **** transform, by class *)

Definition transform (d : Domain) (point : Point) (direction : num) : Point :=
  match cls d with
  | PlainDomain => point
  | SphericalDomain =>
      fst (geometry.stereographicProjection point None (center d) (radius d)
                                            direction)
  | CylindricalDomain =>
      geometry.cylindricalMapping point (center d) (radius d) direction
  | ConicDomain =>
      geometry.conicMapping point (center d) (radius d)
        (or_default (eccentricity (options d)) (Fin (5 / 10))) direction
  | NoiseDomain scale octaves persistence p =>
      let noiseVal :=
        noise p octaves persistence
              ((x point - x (center d)) * scale)
              ((y point - y (center d)) * scale)
        * amplitude d in
      {| x := x point + noiseVal; y := y point + noiseVal |}
  | HarmonicDomain freqX freqY phase =>
      let dx := x point - x (center d) in
      let dy := y point - y (center d) in
      {| x := x point + Math.sin (dx * freqX + phase) * amplitude d;
         y := y point + Math.cos (dy * freqY + phase) * amplitude d |}
  | GaussianCurvatureDomain spread =>
      let u := (x point - x (center d)) / radius d in
      let v := (y point - y (center d)) / radius d in
      let deformation := gaussian_deformation spread u v in
      {| x := x point + deformation * amplitude d;
         y := y point + deformation * amplitude d |}
  end.

(** **** inverse: the damped fixed-point iteration *)

(** The body of the [for] loop of [_iterativeInverse]: the next guess, or
    [None] for [break]. *)
Definition inverse_step (d : Domain) (target : Point) (tolerance : num)
    (guess : Point) : option Point :=
  let forward := transform d guess (Fin 1) in
  let dx := x target - x forward in
  let dy := y target - y forward in
  if Math.hypot dx dy <? tolerance then None
  else Some {| x := x guess + dx * Fin (5 / 10);
               y := y guess + dy * Fin (5 / 10) |}.

Fixpoint inverse_loop (d : Domain) (target : Point) (tolerance : num)
    (n : nat) (guess : Point) : Point :=
  match n with
  | O => guess
  | S n' =>
      match inverse_step d target tolerance guess with
      | None => guess
      | Some guess' => inverse_loop d target tolerance n' guess'
      end
  end.

Definition _iterativeInverse (d : Domain) (target : Point)
    (tolerance : num) (maxIterations : nat) : Point :=
  inverse_loop d target tolerance maxIterations target.

Definition inverse (d : Domain) (transformedPoint : Point) : Point :=
  _iterativeInverse d transformedPoint (Fin (1 / 10)) 50.

Definition curvatureFactor (d : Domain) (point : Point) : num :=
  let distance := Math.hypot (x point - x (center d)) (y point - y (center d)) in
  if String.eqb (type d) "spherical" then
    Fin 1 - Math.min (Fin (5 / 10))
                (Fin 1 - (distance / radius d) * (distance / radius d))
  else if String.eqb (type d) "cylindrical" then Fin (7 / 10)
  else if String.eqb (type d) "conic" then
    Fin 1 - or_default (eccentricity (options d)) (Fin (5 / 10)) * Fin (4 / 10)
  else Fin 1.

End Deformation.

Import Deformation.

(** *** Section 5, continued: the factory *)

Module DomainFactory.

Local Open Scope string_scope.

Inductive Constructor : Type :=
| CSpherical | CCylindrical | CConic | CNoise | CHarmonic | CGaussianCurvature.

(** The own properties of [constructorMap].  The object also inherits the
    names of [Object.prototype].  With any of them but ['constructor']
    the factory of the source ends in an error as well (a [TypeError]: the
    value found cannot be called with [new]), so [None] stands for them
    too.  With ['constructor'] the source calls [new Object(type, config)],
    which returns a String object; the model has no such domain, and that
    one type name is outside it. *)
Definition constructorMap (type : string) : option Constructor :=
  if String.eqb type "spherical" then Some CSpherical
  else if String.eqb type "cylindrical" then Some CCylindrical
  else if String.eqb type "conic" then Some CConic
  else if String.eqb type "noise" then Some CNoise
  else if String.eqb type "harmonic" then Some CHarmonic
  else if String.eqb type "gaussian-curvature" then Some CGaussianCurvature
  else None.

(** [new DomainConstructor(type, config)].  The arguments are bound in
    order to the parameters the constructor declares: the three conformal
    classes declare [(type, config)]; the other three declare [(config)],
    so their [config] is the string [type] and the second argument is
    dropped.  [permutation] is the table a [NoiseDomain] draws. *)
Definition new (C : Constructor) (type : string) (config : Config)
    (permutation : nat -> Z) : Domain :=
  match C with
  | CSpherical => SphericalDomain_new type (ArgObject config)
  | CCylindrical => CylindricalDomain_new type (ArgObject config)
  | CConic => ConicDomain_new type (ArgObject config)
  | CNoise => NoiseDomain_new (ArgString type) permutation
  | CHarmonic => HarmonicDomain_new (ArgString type)
  | CGaussianCurvature => GaussianCurvatureDomain_new (ArgString type)
  end.

(** The message of the error is shortened. *)
Definition create (type : string) (config : Config) (permutation : nat -> Z)
  : result Domain :=
  match constructorMap type with
  | Some C => Return (new C type config permutation)
  | None => Throw ("DomainFactory: " ++ type ++ " is not a valid domain type.")
  end.

End DomainFactory.

Definition createDomain (type : string) (config : Config)
    (permutation : nat -> Z) : result Domain :=
  DomainFactory.create type config permutation.

(** *** Section 4: the deformation manager *)

Module DeformationManager.

Local Open Scope num_scope.

Record t : Type := mk {
  domains : list Domain;
  blendMode : option BlendMode }.

(** [new DeformationManager()] *)
Definition new : t := {| domains := []; blendMode := Some smooth |}.

(** [domainConfig.type] of an object without that property is
    [undefined], which is not a key of the factory's table. *)
Definition addDomain (m : t) (domainConfig : Config) (permutation : nat -> Z)
  : result (Domain * t) :=
  match cfg_type domainConfig with
  | Some type =>
      match DomainFactory.create type domainConfig permutation with
      | Return domain =>
          Return (domain, {| domains := domains m ++ [domain];
                             blendMode := blendMode m |})
      | Throw e => Throw e
      end
  | None => Throw "DomainFactory: undefined is not a valid domain type."
  end.

(** [index] is a whole number; [splice(index, 1)] takes one element out. *)
Definition removeDomain (m : t) (index : Z) : t :=
  if ((0 <=? index) && (index <? Z.of_nat (List.length (domains m))))%Z then
    {| domains := firstn (Z.to_nat index) (domains m)
                  ++ skipn (S (Z.to_nat index)) (domains m);
       blendMode := blendMode m |}
  else m.

Definition clearDomains (m : t) : t :=
  {| domains := []; blendMode := blendMode m |}.

(** The loop of [transformPoint]; the state is [totalX], [totalY] and
    [totalWeight]. *)
Definition accumulate (point : Point) (acc : num * num * num) (domain : Domain)
  : num * num * num :=
  let '(totalX, totalY, totalWeight) := acc in
  let weight := weightAt domain point in
  if weight >? Fin 0 then
    let transformed := transform domain point (Fin 1) in
    (totalX + x transformed * weight,
     totalY + y transformed * weight,
     totalWeight + weight)
  else acc.

Definition transformPoint (m : t) (point : Point) : Point :=
  match domains m with
  | [] => point
  | _ =>
      let '(totalX, totalY, totalWeight) :=
        fold_left (accumulate point) (domains m) (Fin 0, Fin 0, Fin 0) in
      if totalWeight >? Fin 0 then
        {| x := totalX / totalWeight; y := totalY / totalWeight |}
      else point
  end.

(** [this.domains.reduceRight((result, domain) => domain.inverse(result),
    point)] *)
Definition inverseTransform (m : t) (point : Point) : Point :=
  fold_right (fun domain result => inverse domain result) point (domains m).

Definition adjust (point : Point) (sizeAdjustment : num) (domain : Domain)
  : num :=
  let weight := weightAt domain point in
  if weight >? Fin 0 then
    sizeAdjustment
    * (curvatureFactor domain point * (Fin 1 - weight)
       + (Fin 1 - weight * Fin (5 / 10)) * weight)
  else sizeAdjustment.

Definition calculateGridSize (m : t) (point : Point) (baseSize : num) : num :=
  let sizeAdjustment := fold_left (adjust point) (domains m) (Fin 1) in
  Math.max (baseSize * Fin (2 / 10)) (baseSize * sizeAdjustment).

End DeformationManager.

(** *** Section 6: the legacy API *)

Module legacyAPI.

(** [domains.forEach(config => manager.addDomain(config))]: [rand i] is
    the table drawn if the [i]-th object built is a [NoiseDomain]. *)
Fixpoint addDomains (manager : DeformationManager.t) (domains : list Config)
    (rand : nat -> nat -> Z) (i : nat) : result DeformationManager.t :=
  match domains with
  | [] => Return manager
  | config :: rest =>
      match DeformationManager.addDomain manager config (rand i) with
      | Return (_, manager') => addDomains manager' rest rand (S i)
      | Throw e => Throw e
      end
  end.

Definition with_manager {A : Type} (blendMode : option BlendMode)
    (domains : list Config) (rand : nat -> nat -> Z)
    (k : DeformationManager.t -> A) : result A :=
  let manager := {| DeformationManager.domains := [];
                    DeformationManager.blendMode := blendMode |} in
  match addDomains manager domains rand O with
  | Return manager' => Return (k manager')
  | Throw e => Throw e
  end.

Definition applyDomainTransformation (point : Point) (domainConfig : Config)
    (direction : option num) (permutation : nat -> Z) : result Point :=
  match cfg_type domainConfig with
  | Some type =>
      match DomainFactory.create type domainConfig permutation with
      | Return domain =>
          Return (transform domain point
                            (match direction with
                             | Some dir => dir
                             | None => Fin 1
                             end))
      | Throw e => Throw e
      end
  | None => Throw "DomainFactory: undefined is not a valid domain type."
  end.

Definition transformPointWithDomains (point : Point) (domains : list Config)
    (blendMode : option BlendMode) (rand : nat -> nat -> Z) : result Point :=
  with_manager (match blendMode with Some m => Some m | None => Some smooth end)
               domains rand
               (fun manager => DeformationManager.transformPoint manager point).

Definition inverseTransformPointWithDomains (point : Point)
    (domains : list Config) (blendMode : option BlendMode)
    (rand : nat -> nat -> Z) : result Point :=
  with_manager blendMode domains rand
               (fun manager => DeformationManager.inverseTransform manager point).

Definition calculateEffectiveGridSize (point : Point) (domains : list Config)
    (baseSize : num) (rand : nat -> nat -> Z) : result num :=
  with_manager (Some smooth) domains rand
               (fun manager =>
                  DeformationManager.calculateGridSize manager point baseSize).

End legacyAPI.

(** *** Section 7: the public API

    [createDomain] is above.  A name that [builtInPresets] inherits from
    [Object.prototype] (as ["toString"]) is no preset either; the error it
    ends in is a [TypeError], and such names are left out. *)

Definition empty_config : Config :=
  {| cfg_type := None; cfg_center := None; cfg_radius := None;
     cfg_amplitude := None; cfg_blendMode := None; cfg_options := None;
     cfg_scale := None; cfg_octaves := None; cfg_persistence := None;
     cfg_freqX := None; cfg_freqY := None; cfg_phase := None;
     cfg_spread := None |}.

Definition basicSphere : list Config :=
  [ {| cfg_type := Some "spherical"%string; cfg_center := None;
       cfg_radius := Some (Fin 100);
       cfg_amplitude := None; cfg_blendMode := None; cfg_options := None;
       cfg_scale := None; cfg_octaves := None; cfg_persistence := None;
       cfg_freqX := None; cfg_freqY := None; cfg_phase := None;
       cfg_spread := None |} ].

Definition organicTerrain : list Config :=
  [ {| cfg_type := Some "spherical"%string; cfg_center := None;
       cfg_radius := Some (Fin 150);
       cfg_amplitude := Some (Fin 20); cfg_blendMode := None;
       cfg_options := None;
       cfg_scale := None; cfg_octaves := None; cfg_persistence := None;
       cfg_freqX := None; cfg_freqY := None; cfg_phase := None;
       cfg_spread := None |};
    {| cfg_type := Some "noise"%string; cfg_center := None;
       cfg_radius := None;
       cfg_amplitude := Some (Fin 15); cfg_blendMode := None;
       cfg_options := None;
       cfg_scale := Some (Fin (5 / 100)); cfg_octaves := Some (Fin 4);
       cfg_persistence := None;
       cfg_freqX := None; cfg_freqY := None; cfg_phase := None;
       cfg_spread := None |};
    {| cfg_type := Some "harmonic"%string; cfg_center := None;
       cfg_radius := None;
       cfg_amplitude := Some (Fin 10); cfg_blendMode := None;
       cfg_options := None;
       cfg_scale := None; cfg_octaves := None; cfg_persistence := None;
       cfg_freqX := Some (Fin 5); cfg_freqY := Some (Fin 3); cfg_phase := None;
       cfg_spread := None |} ].

Definition mechanicalSurface : list Config :=
  [ {| cfg_type := Some "cylindrical"%string; cfg_center := None;
       cfg_radius := Some (Fin 80);
       cfg_amplitude := Some (Fin 30); cfg_blendMode := None;
       cfg_options := None;
       cfg_scale := None; cfg_octaves := None; cfg_persistence := None;
       cfg_freqX := None; cfg_freqY := None; cfg_phase := None;
       cfg_spread := None |};
    {| cfg_type := Some "gaussian-curvature"%string; cfg_center := None;
       cfg_radius := None;
       cfg_amplitude := Some (Fin 15); cfg_blendMode := None;
       cfg_options := None;
       cfg_scale := None; cfg_octaves := None; cfg_persistence := None;
       cfg_freqX := None; cfg_freqY := None; cfg_phase := None;
       cfg_spread := Some (Fin 6) |} ].

(** The own properties of [DeformationManager.builtInPresets], each with
    its [domains]. *)
Definition builtInPresets (presetName : string) : option (list Config) :=
  if String.eqb presetName "basicSphere" then Some basicSphere
  else if String.eqb presetName "organicTerrain" then Some organicTerrain
  else if String.eqb presetName "mechanicalSurface" then Some mechanicalSurface
  else None.

Definition createPreset (presetName : string) (rand : nat -> nat -> Z)
  : result DeformationManager.t :=
  match builtInPresets presetName with
  | None => Throw ("Unknown preset: " ++ presetName)
  | Some domains =>
      legacyAPI.addDomains DeformationManager.new domains rand O
  end.

Definition distanceBetween (p1 p2 : Point) : num :=
  Math.hypot (x p2 - x p1)%num (y p2 - y p1)%num.

Definition isPointInDomain (point : Point) (domain : Domain) : bool :=
  let distance := Math.hypot (x point - x (center domain))%num
                             (y point - y (center domain))%num in
  (distance <=? radius domain)%num.

(** ** cacheModule.js

    A named cache is a [Map]; the engine keys it by a string it builds from
    numbers, and two such strings are equal exactly when the numbers are.
    The optional encoding of object keys is never asked for by the engine
    and is left out. *)

Module Cache.

Section Named.

Variables K V : Type.
Variable K_eq_dec : forall a b : K, {a = b} + {a <> b}.

(** The newest binding of a key comes first. *)
Definition t : Type := list (K * V).

Definition empty : t := [].

Fixpoint get (c : t) (key : K) : option V :=
  match c with
  | [] => None
  | (k, v) :: rest => if K_eq_dec k key then Some v else get rest key
  end.

Definition has (c : t) (key : K) : bool :=
  match get c key with
  | Some _ => true
  | None => false
  end.

Definition set (c : t) (key : K) (value : V) : t := (key, value) :: c.

Definition clear (c : t) : t := [].

End Named.

Arguments empty {K V}.
Arguments clear {K V} c.

End Cache.

(** The module as a whole.  A [Map] keeps one entry per key, in the order
    in which the keys came in. *)

Module JSMap.

Section Map.

Variables K V : Type.
Variable K_eq_dec : forall a b : K, {a = b} + {a <> b}.

Definition t : Type := list (K * V).

Definition empty : t := [].

Fixpoint get (m : t) (key : K) : option V :=
  match m with
  | [] => None
  | (k, v) :: rest => if K_eq_dec k key then Some v else get rest key
  end.

Fixpoint has (m : t) (key : K) : bool :=
  match m with
  | [] => false
  | (k, _) :: rest => if K_eq_dec k key then true else has rest key
  end.

(** The value of a key that is there is replaced where it stands; a new
    key goes to the end. *)
Fixpoint set (m : t) (key : K) (value : V) : t :=
  match m with
  | [] => [(key, value)]
  | (k, v) :: rest =>
      if K_eq_dec k key then (k, value) :: rest
      else (k, v) :: set rest key value
  end.

(** [delete]: whether the key was there, and what is left. *)
Fixpoint delete (m : t) (key : K) : bool * t :=
  match m with
  | [] => (false, [])
  | (k, v) :: rest =>
      if K_eq_dec k key then (true, rest)
      else let '(found, rest') := delete rest key in (found, (k, v) :: rest')
  end.

Definition clear (m : t) : t := [].

Definition keys (m : t) : list K := map fst m.

Definition size (m : t) : nat := List.length m.

End Map.

Arguments empty {K V}.
Arguments clear {K V} m.
Arguments keys {K V} m.
Arguments size {K V} m.

End JSMap.

(** [createCacheModule()]: the named caches.  A key goes in as it is given
    ([useEncoding] is [false] unless the caller asks); the encoders, which
    only serve object keys and the similarity search, are left out. *)

Module CacheModule.

Section Caches.

Variables K V : Type.
Variable K_eq_dec : forall a b : K, {a = b} + {a <> b}.

(** [caches]: from the name of a cache to its [Map]. *)
Definition t : Type := JSMap.t string (JSMap.t K V).

Definition empty : t := JSMap.empty.

(** A cache that is not there yet is made, empty, by the first call that
    names it. *)
Definition getCache (caches : t) (cacheName : string) : JSMap.t K V * t :=
  match JSMap.get string_dec caches cacheName with
  | Some cache => (cache, caches)
  | None => (JSMap.empty, JSMap.set string_dec caches cacheName JSMap.empty)
  end.

(** The [Map] of a cache is changed in place. *)
Definition put (caches : t) (cacheName : string) (cache : JSMap.t K V) : t :=
  JSMap.set string_dec caches cacheName cache.

Definition set (caches : t) (cacheName : string) (key : K) (value : V)
  : V * t :=
  let '(cache, caches1) := getCache caches cacheName in
  (value, put caches1 cacheName (JSMap.set K_eq_dec cache key value)).

Definition get (caches : t) (cacheName : string) (key : K) : option V * t :=
  let '(cache, caches1) := getCache caches cacheName in
  (JSMap.get K_eq_dec cache key, caches1).

Definition has (caches : t) (cacheName : string) (key : K) : bool * t :=
  let '(cache, caches1) := getCache caches cacheName in
  (JSMap.has K_eq_dec cache key, caches1).

Definition clear (caches : t) (cacheName : string) : t :=
  let '(cache, caches1) := getCache caches cacheName in
  put caches1 cacheName (JSMap.clear cache).

Definition clearAll (caches : t) : t :=
  map (fun entry => (fst entry, JSMap.clear (snd entry))) caches.

Definition remove (caches : t) (cacheName : string) (key : K) : bool * t :=
  let '(cache, caches1) := getCache caches cacheName in
  let '(found, cache') := JSMap.delete K_eq_dec cache key in
  (found, put caches1 cacheName cache').

Definition keys (caches : t) (cacheName : string) : list K * t :=
  let '(cache, caches1) := getCache caches cacheName in
  (JSMap.keys cache, caches1).

Definition size (caches : t) (cacheName : string) : nat * t :=
  let '(cache, caches1) := getCache caches cacheName in
  (JSMap.size cache, caches1).

End Caches.

Arguments empty {K V}.
Arguments clearAll {K V} caches.
Arguments keys {K V} caches cacheName.
Arguments size {K V} caches cacheName.
Arguments clear {K V} caches cacheName.

End CacheModule.

(** ** A state and error monad for callbacks that read and write the
    state of their module and may throw *)

Module Eff.

Definition M (S A : Type) : Type := S -> result A * S.

Definition ret {S A : Type} (a : A) : M S A := fun s => (Return a, s).

Definition bind {S A B : Type} (m : M S A) (k : A -> M S B) : M S B :=
  fun s =>
    match m s with
    | (Return a, s') => k a s'
    | (Throw e, s') => (Throw e, s')
    end.

End Eff.

Notation "x <- m ;; k" := (Eff.bind m (fun x => k))
  (at level 61, m at next level, right associativity).

(** ** createSnappingModule.js

    The drawing of the snap indicators is left out. *)

Module Snapping.

Local Open Scope num_scope.

Inductive SnapMode : Type := GRID | INTERSECTION | NONE.

Record Settings : Type := mkSettings {
  enabled : bool;
  mode : SnapMode;
  tolerance : num;
  visualFeedback : bool;
  snapStrength : num }.

Definition defaultSettings : Settings :=
  {| enabled := true;
     mode := GRID;
     tolerance := Fin 10;
     visualFeedback := true;
     snapStrength := Fin 1 |}.

Definition is_none (m : SnapMode) : bool :=
  match m with
  | NONE => true
  | _ => false
  end.

Definition snapToGridPoint (settings : Settings) (point : Point)
    (gridSize : num) : Point :=
  if negb (enabled settings) || is_none (mode settings) then point
  else {| x := Math.round (x point / gridSize) * gridSize;
          y := Math.round (y point / gridSize) * gridSize |}.

(** A [strength] left out is [settings.snapStrength]. *)
Definition snapWithAttraction (settings : Settings) (point gridPoint : Point)
    (strength : option num) : Point :=
  let strength := match strength with
                  | Some s => s
                  | None => snapStrength settings
                  end in
  if strength >=? Fin 1 then gridPoint
  else {| x := x point + (x gridPoint - x point) * strength;
          y := y point + (y gridPoint - y point) * strength |}.

(** [distance < minDistance], where [minDistance] starts as [Infinity]
    ([None]): every number but [NaN] is below it. *)
Definition below (distance : num) (minDistance : option num) : bool :=
  match minDistance with
  | Some m => distance <? m
  | None => match distance with
            | Fin _ => true
            | NaN => false
            end
  end.

(** The body of the loop of [findNearestGridPoint]; the state is
    [nearestPoint] ([None] for [null]) and [minDistance]. *)
Definition nearer (point : Point) (tolerance : num)
    (acc : option Point * option num) (gridPoint : Point)
  : option Point * option num :=
  let '(nearestPoint, minDistance) := acc in
  let distance :=
    Math.sqrt (Math.pow2 (x gridPoint - x point)
               + Math.pow2 (y gridPoint - y point)) in
  if below distance minDistance && (distance <=? tolerance)
  then (Some gridPoint, Some distance)
  else acc.

(** A [tolerance] left out is [settings.tolerance]. *)
Definition findNearestGridPoint (settings : Settings) (point : Point)
    (gridPoints : list Point) (tolerance : option num) : option Point :=
  let tolerance := match tolerance with
                   | Some t => t
                   | None => Snapping.tolerance settings
                   end in
  fst (fold_left (nearer point tolerance) gridPoints (None, None)).

(** The three callbacks belong to the caller and act on its state [S]. *)
Definition snapTransformedPoint {S : Type} (settings : Settings)
    (point : Point)
    (transformFn inverseFn : Point -> Eff.M S Point)
    (effectiveGridSizeFn : Point -> Eff.M S num) : Eff.M S Point :=
  if negb (enabled settings) || is_none (mode settings) then Eff.ret point
  else
    originalPoint <- inverseFn point ;;
    gridSize <- effectiveGridSizeFn originalPoint ;;
    let snappedOriginal := snapToGridPoint settings originalPoint gridSize in
    transformFn snappedOriginal.

Definition snapToGridIntersection (settings : Settings) (point : Point)
    (gridPoints : list Point) : Point :=
  if negb (enabled settings) || is_none (mode settings) then point
  else
    match findNearestGridPoint settings point gridPoints None with
    | None => point
    | Some nearestPoint => snapWithAttraction settings point nearestPoint None
    end.

Record Indicators : Type := mkIndicators {
  ind_original : Point;
  ind_snapped : Point;
  ind_distance : num }.

(** [None] is [null]. *)
Definition calculateSnapIndicators (settings : Settings)
    (point snappedPoint : Point) : option Indicators :=
  if negb (visualFeedback settings) || negb (enabled settings)
     || ((x point === x snappedPoint) && (y point === y snappedPoint))
  then None
  else Some {| ind_original := point;
               ind_snapped := snappedPoint;
               ind_distance :=
                 Math.sqrt (Math.pow2 (x snappedPoint - x point)
                            + Math.pow2 (y snappedPoint - y point)) |}.

(** *** Configuration *)

Definition getSettings (settings : Settings) : Settings := settings.

(** What [updateSettings] is given: the properties that the object has,
    each with a value of its kind. *)
Record Patch : Type := mkPatch {
  new_enabled : option bool;
  new_mode : option SnapMode;
  new_tolerance : option num;
  new_visualFeedback : option bool;
  new_snapStrength : option num }.

Definition over {A : Type} (o : option A) (a : A) : A :=
  match o with
  | Some a' => a'
  | None => a
  end.

(** The new settings, which are also what the call returns a copy of. *)
Definition updateSettings (settings : Settings) (newSettings : Patch)
  : Settings :=
  {| enabled := over (new_enabled newSettings) (enabled settings);
     mode := over (new_mode newSettings) (mode settings);
     tolerance := over (new_tolerance newSettings) (tolerance settings);
     visualFeedback :=
       over (new_visualFeedback newSettings) (visualFeedback settings);
     snapStrength :=
       over (new_snapStrength newSettings) (snapStrength settings) |}.

Definition set_enabled (settings : Settings) (b : bool) : Settings :=
  {| enabled := b;
     mode := mode settings;
     tolerance := tolerance settings;
     visualFeedback := visualFeedback settings;
     snapStrength := snapStrength settings |}.

Definition enable (settings : Settings) : bool * Settings :=
  (true, set_enabled settings true).

Definition disable (settings : Settings) : bool * Settings :=
  (false, set_enabled settings false).

(** [Object.values(SNAP_MODES)], by their strings. *)
Definition mode_of (mode : string) : option SnapMode :=
  if String.eqb mode "grid" then Some GRID
  else if String.eqb mode "intersection" then Some INTERSECTION
  else if String.eqb mode "none" then Some NONE
  else None.

Definition setMode (settings : Settings) (mode : string) : bool * Settings :=
  match mode_of mode with
  | Some m =>
      (true, {| enabled := enabled settings;
                mode := m;
                tolerance := tolerance settings;
                visualFeedback := visualFeedback settings;
                snapStrength := snapStrength settings |})
  | None => (false, settings)
  end.

End Snapping.

(** ** The adaptive grid module: registry, caches and engine *)

Module AdaptiveGrid.

Local Open Scope string_scope.
Local Open Scope num_scope.

Definition num_eq_dec : forall a b : num, {a = b} + {a <> b}.
Proof. decide equality. apply Req_dec_T. Defined.

Definition Point_eq_dec : forall p q : Point, {p = q} + {p <> q}.
Proof. decide equality; apply num_eq_dec. Defined.

(** The key of the grid-cell cache:
    [`${width}-${height}-${baseGridSize}-${domains.length}`]. *)
Definition CellKey : Type := (num * num * num * nat)%type.

Definition CellKey_eq_dec : forall a b : CellKey, {a = b} + {a <> b}.
Proof. repeat decide equality; apply Req_dec_T. Defined.

Record GridParams : Type := mkGrid {
  size : num;
  showGrid : bool;
  grid_snapToGrid : bool }.

Record TransformationParams : Type := mkTransformations {
  tr_blendMode : BlendMode;
  defaultRadius : num;
  maxActiveDomains : num;
  tr_regularizationFactor : num }.

(** The parameters that only matter to drawing (colours, opacity) are left
    out. *)
Record Params : Type := mkParams {
  grid : GridParams;
  transformations : TransformationParams }.

Definition defaultParams : Params :=
  {| grid := {| size := Fin 20; showGrid := true; grid_snapToGrid := true |};
     transformations := {| tr_blendMode := smooth;
                           defaultRadius := Fin 150;
                           maxActiveDomains := Fin 5;
                           tr_regularizationFactor := Fin (1 / 1000) |} |}.

Record BlendingWeights : Type := mkWeights {
  transformWeights : list (Domain * num);
  flatWeight : num }.

Record Cell : Type := mkCell {
  original : list Point;
  transformed : list Point }.

(** The state of one module instance: [state], [mergedParams], the three
    named caches of its cache instance that it uses, and the settings of
    its snapping instance. *)
Record State : Type := mkState {
  viewportDimensions : num * num;
  zoomLevel : num;
  panOffset : Point;
  transformationDomains : list Domain;
  mergedParams : Params;
  transformationCache : Cache.t Point Point;
  blendingCache : Cache.t Point BlendingWeights;
  gridCellCache : Cache.t CellKey (list Cell);
  snapSettings : Snapping.Settings }.

Definition initial (width height : num) (params : Params) : State :=
  {| viewportDimensions := (width, height);
     zoomLevel := Fin 1;
     panOffset := {| x := Fin 0; y := Fin 0 |};
     transformationDomains := [];
     mergedParams := params;
     transformationCache := Cache.empty;
     blendingCache := Cache.empty;
     gridCellCache := Cache.empty;
     snapSettings := Snapping.defaultSettings |}.

Definition set_domains (st : State) (ds : list Domain) : State :=
  {| viewportDimensions := viewportDimensions st;
     zoomLevel := zoomLevel st;
     panOffset := panOffset st;
     transformationDomains := ds;
     mergedParams := mergedParams st;
     transformationCache := transformationCache st;
     blendingCache := blendingCache st;
     gridCellCache := gridCellCache st;
     snapSettings := snapSettings st |}.

Definition set_transformationCache (st : State) (c : Cache.t Point Point)
  : State :=
  {| viewportDimensions := viewportDimensions st;
     zoomLevel := zoomLevel st;
     panOffset := panOffset st;
     transformationDomains := transformationDomains st;
     mergedParams := mergedParams st;
     transformationCache := c;
     blendingCache := blendingCache st;
     gridCellCache := gridCellCache st;
     snapSettings := snapSettings st |}.

Definition set_blendingCache (st : State)
    (c : Cache.t Point BlendingWeights) : State :=
  {| viewportDimensions := viewportDimensions st;
     zoomLevel := zoomLevel st;
     panOffset := panOffset st;
     transformationDomains := transformationDomains st;
     mergedParams := mergedParams st;
     transformationCache := transformationCache st;
     blendingCache := c;
     gridCellCache := gridCellCache st;
     snapSettings := snapSettings st |}.

Definition set_gridCellCache (st : State)
    (c : Cache.t CellKey (list Cell)) : State :=
  {| viewportDimensions := viewportDimensions st;
     zoomLevel := zoomLevel st;
     panOffset := panOffset st;
     transformationDomains := transformationDomains st;
     mergedParams := mergedParams st;
     transformationCache := transformationCache st;
     blendingCache := blendingCache st;
     gridCellCache := c;
     snapSettings := snapSettings st |}.

(** *** Transformation domain management *)

Definition set_id (d : Domain) (id created : Z) : Domain :=
  {| cls := cls d; type := type d; center := center d; radius := radius d;
     amplitude := amplitude d; blendMode := blendMode d;
     options := options d; id := Some id; created := Some created |}.

(** The object literal [{ center, radius, options }] handed to the
    factory. *)
Definition domain_config (center : Point) (radius : num) (options : Options)
  : Config :=
  {| cfg_type := None;
     cfg_center := Some center;
     cfg_radius := Some radius;
     cfg_amplitude := None;
     cfg_blendMode := None;
     cfg_options := Some options;
     cfg_scale := None; cfg_octaves := None; cfg_persistence := None;
     cfg_freqX := None; cfg_freqY := None; cfg_phase := None;
     cfg_spread := None |}.

(** [now_id] and [now_created] are the two readings of [Date.now()];
    a [type] left out is ['spherical'].  When the factory throws, the
    eviction has already happened and the caches are as they were. *)
Definition createTransformationDomain (st : State) (center : Point)
    (radius : num) (type : option string) (options : Options)
    (permutation : nat -> Z) (now_id now_created : Z)
  : result Domain * State :=
  let type := match type with Some t => t | None => "spherical" end in
  let st1 :=
    if Fin (INR (List.length (transformationDomains st)))
         >=? maxActiveDomains (transformations (mergedParams st))
    then set_domains st (tl (transformationDomains st))
    else st in
  match createDomain type (domain_config center radius options) permutation with
  | Throw e => (Throw e, st1)
  | Return domain =>
      let domain := set_id domain now_id now_created in
      let st2 := set_domains st1 (transformationDomains st1 ++ [domain]) in
      let st3 := set_transformationCache st2 (Cache.clear (transformationCache st2)) in
      let st4 := set_blendingCache st3 (Cache.clear (blendingCache st3)) in
      (Return domain, st4)
  end.

Definition id_differs (domainId : Z) (domain : Domain) : bool :=
  match id domain with
  | Some i => negb (i =? domainId)%Z
  | None => true
  end.

Definition removeTransformationDomain (st : State) (domainId : Z)
  : bool * State :=
  let initialLength := List.length (transformationDomains st) in
  let st1 := set_domains st (filter (id_differs domainId)
                                    (transformationDomains st)) in
  if negb (initialLength =? List.length (transformationDomains st1))%nat then
    let st2 := set_transformationCache st1 (Cache.clear (transformationCache st1)) in
    let st3 := set_blendingCache st2 (Cache.clear (blendingCache st2)) in
    (true, st3)
  else (false, st1).

Definition clearTransformationDomains (st : State) : State :=
  let st1 := set_domains st [] in
  let st2 := set_transformationCache st1 (Cache.clear (transformationCache st1)) in
  set_blendingCache st2 (Cache.clear (blendingCache st2)).

(** *** Grid transformation logic *)

(** [transformWeights.reduce((sum, { weight }) => sum + weight, 0)] *)
Definition totalWeight (transformWeights : list (Domain * num)) : num :=
  fold_left (fun sum dw => sum + snd dw) transformWeights (Fin 0).

Definition calculateBlendingWeights (st : State) (point : Point)
  : BlendingWeights * State :=
  let cacheKey := point in
  match Cache.get Point_eq_dec (blendingCache st) cacheKey with
  | Some cached => (cached, st)
  | None =>
      let transformWeights :=
        map (fun domain => (domain, weightAt domain point))
            (transformationDomains st) in
      let flatWeight := Math.max (Fin 0) (Fin 1 - totalWeight transformWeights) in
      let result := {| transformWeights := transformWeights;
                       flatWeight := flatWeight |} in
      (result, set_blendingCache st (Cache.set (blendingCache st) cacheKey result))
  end.

(** The [forEach] of [transformPoint]; the state is [resultX], [resultY]. *)
Definition contribute (point : Point) (acc : num * num) (dw : Domain * num)
  : num * num :=
  let '(resultX, resultY) := acc in
  let '(domain, weight) := dw in
  if weight >? Fin 0 then
    let transformed := transform domain point (Fin 1) in
    (resultX + weight * x transformed, resultY + weight * y transformed)
  else acc.

Definition transformPoint (st : State) (point : Point) : Point * State :=
  let cacheKey := point in
  match Cache.get Point_eq_dec (transformationCache st) cacheKey with
  | Some cached => (cached, st)
  | None =>
      let '(weights, st1) := calculateBlendingWeights st point in
      if flatWeight weights === Fin 1 then
        let flatPoint := point in
        (flatPoint,
         set_transformationCache st1
           (Cache.set (transformationCache st1) cacheKey flatPoint))
      else
        let '(resultX, resultY) :=
          fold_left (contribute point) (transformWeights weights)
                    (flatWeight weights * x point, flatWeight weights * y point) in
        let result := {| x := resultX; y := resultY |} in
        (result,
         set_transformationCache st1
           (Cache.set (transformationCache st1) cacheKey result))
  end.

(** A registered domain object, read as a configuration object by the
    legacy API. *)
Definition as_config (d : Domain) : Config :=
  {| cfg_type := Some (type d);
     cfg_center := Some (center d);
     cfg_radius := Some (radius d);
     cfg_amplitude := Some (amplitude d);
     cfg_blendMode := Some (blendMode d);
     cfg_options := Some (options d);
     cfg_scale := match cls d with NoiseDomain s _ _ _ => Some s | _ => None end;
     cfg_octaves := match cls d with NoiseDomain _ o _ _ => Some o | _ => None end;
     cfg_persistence :=
       match cls d with NoiseDomain _ _ p _ => Some p | _ => None end;
     cfg_freqX := match cls d with HarmonicDomain f _ _ => Some f | _ => None end;
     cfg_freqY := match cls d with HarmonicDomain _ f _ => Some f | _ => None end;
     cfg_phase := match cls d with HarmonicDomain _ _ p => Some p | _ => None end;
     cfg_spread :=
       match cls d with GaussianCurvatureDomain s => Some s | _ => None end |}.

Definition inverseTransformPoint (st : State) (transformedPoint : Point)
    (rand : nat -> nat -> Z) : result Point :=
  legacyAPI.inverseTransformPointWithDomains
    transformedPoint
    (map as_config (transformationDomains st))
    (Some (tr_blendMode (transformations (mergedParams st))))
    rand.

(** *** Grid generation *)

(** The fourth argument of the call, the blend mode, has no parameter to
    go to. *)
Definition calculateEffectiveGridSize (st : State) (point : Point)
    (rand : nat -> nat -> Z) : result num :=
  legacyAPI.calculateEffectiveGridSize
    point
    (map as_config (transformationDomains st))
    (size (grid (mergedParams st)))
    rand.

(** [for (let v = start; v < stop; v += step)]: the values of [v] at which
    the body runs, the loop being cut after [fuel] tests.  The sums are
    exact, as all arithmetic of the model is; those of the source are exact
    when [start] and [step] are whole numbers of a magnitude below 2^53,
    and may fall to the other side of [stop] when they are not. *)
Fixpoint for_loop (fuel : nat) (v stop step : num) : list num :=
  match fuel with
  | O => []
  | S fuel' =>
      if v <? stop then v :: for_loop fuel' (v + step) stop step else []
  end.

(** [None] when the loop never ends: it is entered and the step does not
    move [v] forward.  Otherwise the fuel given is enough (see
    [for_loop_fuel]). *)
Definition for_range (start stop step : num) : option (list num) :=
  if (start <? stop) && (step <=? Fin 0) then None
  else Some (for_loop (S (iterations ((stop - start) / step))) start stop step).

(** [corners.map(p => transformPoint(p))], each call going through the
    caches. *)
Fixpoint transformPoints (st : State) (ps : list Point)
  : list Point * State :=
  match ps with
  | [] => ([], st)
  | p :: rest =>
      let '(q, st1) := transformPoint st p in
      let '(qs, st2) := transformPoints st1 rest in
      (q :: qs, st2)
  end.

(** The body of the inner loop: one quad and its transformed corners. *)
Definition cell_at (st : State) (baseGridSize gx gy : num) : Cell * State :=
  let corners := [ mkPoint gx gy;
                   mkPoint (gx + baseGridSize) gy;
                   mkPoint (gx + baseGridSize) (gy + baseGridSize);
                   mkPoint gx (gy + baseGridSize) ] in
  let '(transformedCorners, st1) := transformPoints st corners in
  ({| original := corners; transformed := transformedCorners |}, st1).

Fixpoint cells_inner (st : State) (baseGridSize gx : num) (ys : list num)
  : list Cell * State :=
  match ys with
  | [] => ([], st)
  | gy :: rest =>
      let '(c, st1) := cell_at st baseGridSize gx gy in
      let '(cs, st2) := cells_inner st1 baseGridSize gx rest in
      (c :: cs, st2)
  end.

Fixpoint cells_outer (st : State) (baseGridSize : num) (xs ys : list num)
  : list Cell * State :=
  match xs with
  | [] => ([], st)
  | gx :: rest =>
      let '(cs, st1) := cells_inner st baseGridSize gx ys in
      let '(cs', st2) := cells_outer st1 baseGridSize rest ys in
      ((cs ++ cs')%list, st2)
  end.

(** [None] when a loop never ends. *)
Definition generateGridCells (st : State) : option (list Cell * State) :=
  let '(width, height) := viewportDimensions st in
  let baseGridSize := size (grid (mergedParams st)) in
  let cacheKey :=
    (width, height, baseGridSize, List.length (transformationDomains st)) in
  match Cache.get CellKey_eq_dec (gridCellCache st) cacheKey with
  | Some cached => Some (cached, st)
  | None =>
      let startX := Fin 0 - baseGridSize in
      let startY := Fin 0 - baseGridSize in
      let endX := width + baseGridSize in
      let endY := height + baseGridSize in
      match for_range startX endX baseGridSize with
      | None => None
      | Some [] =>
          Some ([], set_gridCellCache st (Cache.set (gridCellCache st) cacheKey []))
      | Some xs =>
          match for_range startY endY baseGridSize with
          | None => None
          | Some ys =>
              let '(gridCells, st1) := cells_outer st baseGridSize xs ys in
              Some (gridCells,
                    set_gridCellCache st1
                      (Cache.set (gridCellCache st1) cacheKey gridCells))
          end
      end
  end.

(** [for (let v = start; v <= stop; v += step)], as [for_loop], with the same
    exact sums. *)
Fixpoint for_loop_le (fuel : nat) (v stop step : num) : list num :=
  match fuel with
  | O => []
  | S fuel' =>
      if v <=? stop then v :: for_loop_le fuel' (v + step) stop step else []
  end.

Definition for_range_le (start stop step : num) : option (list num) :=
  if (start <=? stop) && (step <=? Fin 0) then None
  else Some (for_loop_le (S (S (iterations ((stop - start) / step))))
                         start stop step).

Record GridPoint : Type := mkGridPoint {
  point_original : Point;
  point_transformed : Point }.

Fixpoint points_inner (st : State) (gx : num) (ys : list num)
  : list GridPoint * State :=
  match ys with
  | [] => ([], st)
  | gy :: rest =>
      let '(q, st1) := transformPoint st (mkPoint gx gy) in
      let '(ps, st2) := points_inner st1 gx rest in
      ({| point_original := mkPoint gx gy; point_transformed := q |} :: ps, st2)
  end.

Fixpoint points_outer (st : State) (xs ys : list num)
  : list GridPoint * State :=
  match xs with
  | [] => ([], st)
  | gx :: rest =>
      let '(ps, st1) := points_inner st gx ys in
      let '(ps', st2) := points_outer st1 rest ys in
      ((ps ++ ps')%list, st2)
  end.

(** [None] when a loop never ends. *)
Definition generateGridPoints (st : State) : option (list GridPoint * State) :=
  let '(width, height) := viewportDimensions st in
  let baseGridSize := size (grid (mergedParams st)) in
  let startX := Fin 0 - baseGridSize in
  let startY := Fin 0 - baseGridSize in
  let endX := width + baseGridSize in
  let endY := height + baseGridSize in
  match for_range_le startX endX baseGridSize with
  | None => None
  | Some [] => Some ([], st)
  | Some xs =>
      match for_range_le startY endY baseGridSize with
      | None => None
      | Some ys => Some (points_outer st xs ys)
      end
  end.

(** *** Coordinate snapping *)

(** [rand_inverse] and [rand_size] are the tables drawn by the two
    managers that the legacy API builds on the way. *)
Definition snapToGrid (st : State) (point : Point)
    (rand_inverse rand_size : nat -> nat -> Z) : result Point * State :=
  if negb (grid_snapToGrid (grid (mergedParams st))) then (Return point, st)
  else
    Snapping.snapTransformedPoint
      (snapSettings st) point
      (fun p s => let '(q, s') := transformPoint s p in (Return q, s'))
      (fun p s => (inverseTransformPoint s p rand_inverse, s))
      (fun p s => (calculateEffectiveGridSize s p rand_size, s))
      st.

(** *** Viewport and parameters *)

Definition setZoomLevel (st : State) (newZoomLevel : num) : num * State :=
  let constrainedZoom := Math.max (Fin (1 / 10)) (Math.min (Fin 10) newZoomLevel) in
  if zoomLevel st === constrainedZoom then (zoomLevel st, st)
  else
    let st1 := {| viewportDimensions := viewportDimensions st;
                  zoomLevel := constrainedZoom;
                  panOffset := panOffset st;
                  transformationDomains := transformationDomains st;
                  mergedParams := mergedParams st;
                  transformationCache := transformationCache st;
                  blendingCache := blendingCache st;
                  gridCellCache := Cache.clear (gridCellCache st);
                  snapSettings := snapSettings st |} in
    (constrainedZoom, st1).

Definition setPanOffset (st : State) (px py : num) : Point * State :=
  let st1 := {| viewportDimensions := viewportDimensions st;
                zoomLevel := zoomLevel st;
                panOffset := mkPoint px py;
                transformationDomains := transformationDomains st;
                mergedParams := mergedParams st;
                transformationCache := transformationCache st;
                blendingCache := blendingCache st;
                gridCellCache := Cache.clear (gridCellCache st);
                snapSettings := snapSettings st |} in
  (mkPoint px py, st1).

Definition updateViewportDimensions (st : State) (width height : num)
  : (num * num) * State :=
  let st1 := {| viewportDimensions := (width, height);
                zoomLevel := zoomLevel st;
                panOffset := panOffset st;
                transformationDomains := transformationDomains st;
                mergedParams := mergedParams st;
                transformationCache := transformationCache st;
                blendingCache := blendingCache st;
                gridCellCache := Cache.clear (gridCellCache st);
                snapSettings := snapSettings st |} in
  ((width, height), st1).

(** [newParams] after the merge: the caller gives the merged groups. *)
Definition updateParameters (st : State) (merged : Params) : State :=
  {| viewportDimensions := viewportDimensions st;
     zoomLevel := zoomLevel st;
     panOffset := panOffset st;
     transformationDomains := transformationDomains st;
     mergedParams := merged;
     transformationCache := transformationCache st;
     blendingCache := blendingCache st;
     gridCellCache := Cache.clear (gridCellCache st);
     snapSettings := snapSettings st |}.

End AdaptiveGrid.

(** * Properties *)

(** ** Numbers *)

Module NumFacts.

Local Open Scope R_scope.

Lemma ltb_Fin (a b : R) : (Fin a <? Fin b)%num = true <-> a < b.
Proof. unfold ltb. destruct (Rlt_dec a b); split; intros; auto; discriminate. Qed.

Lemma ltb_Fin_false (a b : R) : (Fin a <? Fin b)%num = false <-> b <= a.
Proof.
  unfold ltb. destruct (Rlt_dec a b); split; intros; auto; try discriminate; lra.
Qed.

Lemma leb_Fin (a b : R) : (Fin a <=? Fin b)%num = true <-> a <= b.
Proof. unfold leb. destruct (Rle_dec a b); split; intros; auto; discriminate. Qed.

Lemma leb_Fin_false (a b : R) : (Fin a <=? Fin b)%num = false <-> b < a.
Proof.
  unfold leb. destruct (Rle_dec a b); split; intros; auto; try discriminate; lra.
Qed.

Lemma gtb_Fin (a b : R) : (Fin a >? Fin b)%num = true <-> b < a.
Proof. unfold gtb. apply ltb_Fin. Qed.

Lemma gtb_Fin_false (a b : R) : (Fin a >? Fin b)%num = false <-> a <= b.
Proof. unfold gtb. apply ltb_Fin_false. Qed.

Lemma geb_Fin (a b : R) : (Fin a >=? Fin b)%num = true <-> b <= a.
Proof. unfold geb. apply leb_Fin. Qed.

Lemma geb_Fin_false (a b : R) : (Fin a >=? Fin b)%num = false <-> a < b.
Proof. unfold geb. apply leb_Fin_false. Qed.

Lemma eqb_Fin (a b : R) : (Fin a === Fin b)%num = true <-> a = b.
Proof. unfold eqb. destruct (Req_dec_T a b); split; intros; auto; discriminate. Qed.

Lemma eqb_Fin_false (a b : R) : (Fin a === Fin b)%num = false <-> a <> b.
Proof.
  unfold eqb. destruct (Req_dec_T a b); split; intros; auto;
    try discriminate; contradiction.
Qed.

Lemma div_Fin (a b : R) : b <> 0 -> (Fin a / Fin b)%num = Fin (a / b).
Proof. intros Hb. unfold div. destruct (Req_dec_T b 0); [contradiction | reflexivity]. Qed.

Lemma hypot_Fin (a b : R) : Math.hypot (Fin a) (Fin b) = Fin (sqrt (a * a + b * b)).
Proof. reflexivity. Qed.

Lemma hypot_nonneg (a b : num) (h : R) : Math.hypot a b = Fin h -> 0 <= h.
Proof.
  destruct a, b; simpl; try discriminate.
  intros H. injection H as <-. apply sqrt_pos.
Qed.

Lemma add_assoc (a b c : num) : (a + (b + c))%num = (a + b + c)%num.
Proof. destruct a, b, c; simpl; auto. f_equal. ring. Qed.

Lemma add_0_l (a : num) : (Fin 0 + a)%num = a.
Proof. destruct a; simpl; auto. f_equal. ring. Qed.

Lemma add_0_r (a : num) : (a + Fin 0)%num = a.
Proof. destruct a; simpl; auto. f_equal. ring. Qed.

Lemma mul_NaN_l (a : num) : (NaN * a)%num = NaN.
Proof. reflexivity. Qed.

Lemma add_NaN_r (a : num) : (a + NaN)%num = NaN.
Proof. destruct a; reflexivity. Qed.

Lemma sub_NaN_r (a : num) : (a - NaN)%num = NaN.
Proof. destruct a; reflexivity. Qed.

End NumFacts.

Import NumFacts.

(** ** Blending weights of one domain *)

Module WeightFacts.

Local Open Scope R_scope.

(** The distance [weightAt] and [curvatureFactor] compute first. *)
Definition distance (d : Domain) (point : Point) : num :=
  Math.hypot (x point - x (center d)) (y point - y (center d)).

(** The three profiles as the specification writes them, on reals. *)
Definition profile (mode : BlendMode) (dist r : R) : R :=
  match mode with
  | sharp => if Rle_dec dist r then 1 else 0
  | linear => Rmax 0 (1 - dist / r)
  | smooth => (5 / 10) * (1 + cos (PI * Rmin 1 (dist / r)))
  end.

Lemma weightAt_distance (d : Domain) (p : Point) :
  weightAt d p = blendingFunctions (blendMode d) (distance d p) (radius d).
Proof. reflexivity. Qed.

Lemma blendingFunctions_profile (mode : BlendMode) (dist r : R) :
  r <> 0 ->
  blendingFunctions mode (Fin dist) (Fin r) = Fin (profile mode dist r).
Proof.
  intros Hr. destruct mode; unfold blendingFunctions, profile.
  - unfold leb. destruct (Rle_dec dist r); reflexivity.
  - rewrite div_Fin by assumption. reflexivity.
  - rewrite div_Fin by assumption. reflexivity.
Qed.

Lemma distance_center (d : Domain) :
  is_fin (x (center d)) -> is_fin (y (center d)) ->
  distance d (center d) = Fin 0.
Proof.
  unfold distance. destruct (x (center d)), (y (center d)); simpl; try tauto.
  intros _ _. f_equal.
  replace ((r - r) * (r - r) + (r0 - r0) * (r0 - r0)) with 0 by ring.
  apply sqrt_0.
Qed.

Lemma profile_center (mode : BlendMode) (r : R) : 0 < r -> profile mode 0 r = 1.
Proof.
  intros Hr. destruct mode; simpl.
  - destruct (Rle_dec 0 r); lra.
  - unfold Rdiv. rewrite Rmult_0_l, Rminus_0_r. apply Rmax_right. lra.
  - unfold Rdiv. rewrite Rmult_0_l. rewrite Rmin_right by lra.
    rewrite Rmult_0_r, cos_0. lra.
Qed.

Lemma profile_boundary (mode : BlendMode) (r : R) :
  0 < r ->
  profile mode r r = match mode with sharp => 1 | _ => 0 end.
Proof.
  intros Hr. assert (Hq : r / r = 1) by (field; lra).
  destruct mode; simpl.
  - destruct (Rle_dec r r); lra.
  - rewrite Hq. replace (1 - 1) with 0 by ring. apply Rmax_left. lra.
  - rewrite Hq. rewrite Rmin_left by lra. rewrite Rmult_1_r, cos_PI. lra.
Qed.

Lemma profile_linear_decr (r d1 d2 : R) :
  0 < r -> d1 <= d2 -> profile linear d2 r <= profile linear d1 r.
Proof.
  intros Hr Hd. simpl.
  assert (d1 / r <= d2 / r).
  { unfold Rdiv. apply Rmult_le_compat_r; [ | assumption].
    left. now apply Rinv_0_lt_compat. }
  apply Rle_max_compat_l. lra.
Qed.

Lemma profile_smooth_decr (r d1 d2 : R) :
  0 < r -> 0 <= d1 -> d1 <= d2 -> profile smooth d2 r <= profile smooth d1 r.
Proof.
  intros Hr H0 Hd. simpl.
  assert (Hi : 0 < / r) by now apply Rinv_0_lt_compat.
  assert (H1 : 0 <= d1 / r) by (unfold Rdiv; apply Rmult_le_pos; lra).
  assert (H2 : d1 / r <= d2 / r)
    by (unfold Rdiv; apply Rmult_le_compat_r; lra).
  assert (Hm : Rmin 1 (d1 / r) <= Rmin 1 (d2 / r)).
  { apply Rmin_glb; [apply Rmin_l | ].
    eapply Rle_trans; [apply Rmin_r | exact H2]. }
  assert (Hm0 : 0 <= Rmin 1 (d1 / r)) by (apply Rmin_glb; lra).
  assert (Hm1 : Rmin 1 (d2 / r) <= 1) by apply Rmin_l.
  assert (Hpi := PI_RGT_0).
  assert (cos (PI * Rmin 1 (d2 / r)) <= cos (PI * Rmin 1 (d1 / r))).
  { apply cos_decr_1; nra. }
  lra.
Qed.

(** C2 (as amended): for a domain of positive radius and a centre with
    finite coordinates, [weightAt] at the centre is 1 in every blend mode;
    [weightAt] follows the three profiles (sharp: 1 up to and including the
    radius, else 0; linear: max(0, 1 - distance/radius); smooth:
    0.5*(1 + cos(pi * min(1, distance/radius)))); at a distance equal to the
    radius it is 1 for sharp and 0 for linear and smooth; and for linear and
    smooth it does not increase with the distance. *)
Theorem C2_weightAt_profiles (d : Domain) (r : R) :
  radius d = Fin r -> 0 < r ->
  is_fin (x (center d)) -> is_fin (y (center d)) ->
  weightAt d (center d) = Fin 1
  /\ (forall p dist, distance d p = Fin dist ->
        weightAt d p = Fin (profile (blendMode d) dist r))
  /\ (forall p, distance d p = Fin r ->
        weightAt d p = match blendMode d with sharp => Fin 1 | _ => Fin 0 end)
  /\ (blendMode d <> sharp ->
      forall p q dp dq,
        distance d p = Fin dp -> distance d q = Fin dq -> dp <= dq ->
        exists wp wq,
          weightAt d p = Fin wp /\ weightAt d q = Fin wq /\ wq <= wp).
Proof.
  intros Hrad Hr Hx Hy.
  assert (Hne : r <> 0) by lra.
  assert (Hprof : forall p dist, distance d p = Fin dist ->
                    weightAt d p = Fin (profile (blendMode d) dist r)).
  { intros p dist Hd. rewrite weightAt_distance, Hd, Hrad.
    now apply blendingFunctions_profile. }
  repeat split.
  - rewrite (Hprof _ 0 (distance_center d Hx Hy)).
    f_equal. now apply profile_center.
  - exact Hprof.
  - intros p Hd. rewrite (Hprof _ _ Hd), profile_boundary by assumption.
    now destruct (blendMode d).
  - intros Hmode p q dp dq Hp Hq Hle.
    exists (profile (blendMode d) dp r), (profile (blendMode d) dq r).
    repeat split; auto.
    assert (0 <= dp) by (eapply hypot_nonneg; exact Hp).
    destruct (blendMode d).
    + contradiction.
    + now apply profile_linear_decr.
    + now apply profile_smooth_decr.
Qed.

(** The disc of radius 100 around the origin with the sharp profile, as
    [createDomain('spherical', { center, radius, blendMode })] builds it. *)
Definition sharp_disc : Domain :=
  SphericalDomain_new "spherical"
    (ArgObject {| cfg_type := None;
                  cfg_center := Some (mkPoint (Fin 0) (Fin 0));
                  cfg_radius := Some (Fin 100);
                  cfg_amplitude := None;
                  cfg_blendMode := Some sharp;
                  cfg_options := None;
                  cfg_scale := None; cfg_octaves := None;
                  cfg_persistence := None;
                  cfg_freqX := None; cfg_freqY := None; cfg_phase := None;
                  cfg_spread := None |}).

Lemma sharp_disc_radius : radius sharp_disc = Fin 100.
Proof.
  unfold sharp_disc, SphericalDomain_new, Domain_new. simpl.
  unfold truthy. destruct (Req_dec_T 100 0); [lra | reflexivity].
Qed.

Lemma sharp_disc_distance :
  distance sharp_disc (mkPoint (Fin 100) (Fin 0)) = Fin 100.
Proof.
  unfold distance. simpl. f_equal.
  replace ((100 - 0) * (100 - 0) + (0 - 0) * (0 - 0)) with (100 * 100) by ring.
  apply sqrt_square. lra.
Qed.

Lemma C2_weightAt_profiles_witness :
  weightAt sharp_disc (center sharp_disc) = Fin 1
  /\ weightAt sharp_disc (mkPoint (Fin 100) (Fin 0)) = Fin 1.
Proof.
  destruct (@C2_weightAt_profiles sharp_disc 100) as (Hc & _ & Hb & _).
  - exact sharp_disc_radius.
  - lra.
  - exact I.
  - exact I.
  - split; [exact Hc | ].
    apply (Hb (mkPoint (Fin 100) (Fin 0))). exact sharp_disc_distance.
Defined.

(** C2 (as stated) fails for the sharp profile: the point (100, 0) is at
    distance 100 from the centre of a sharp domain of radius 100, and its
    weight is 1, not 0. *)
Lemma C2_sharp_boundary_counterexample :
  distance sharp_disc (mkPoint (Fin 100) (Fin 0)) = radius sharp_disc
  /\ weightAt sharp_disc (mkPoint (Fin 100) (Fin 0)) <> Fin 0.
Proof.
  rewrite sharp_disc_radius. split; [exact sharp_disc_distance | ].
  rewrite weightAt_distance, sharp_disc_distance, sharp_disc_radius.
  unfold sharp_disc, SphericalDomain_new, Domain_new. simpl.
  unfold leb. destruct (Rle_dec 100 100); [ | lra].
  intros H. injection H as H. lra.
Qed.

End WeightFacts.

(** ** The factory and the one-parameter constructors *)

Module FactoryFacts.

Local Open Scope string_scope.
Local Open Scope R_scope.

Definition origin : Point := mkPoint (Fin 0) (Fin 0).

(** The class data the three one-parameter constructors fall back to. *)
Definition default_class (type : string) (permutation : nat -> Z) : ClassData :=
  if String.eqb type "noise" then
    NoiseDomain (Fin (1 / 10)) (Fin 3) (Fin (5 / 10)) permutation
  else if String.eqb type "harmonic" then HarmonicDomain (Fin 3) (Fin 2) (Fin 0)
  else GaussianCurvatureDomain (Fin 4).

(** The domain object that has nothing of a configuration in it. *)
Definition default_domain (type : string) (permutation : nat -> Z) : Domain :=
  {| cls := default_class type permutation;
     type := type;
     center := origin;
     radius := Fin 100;
     amplitude := Fin 0;
     blendMode := smooth;
     options := {| eccentricity := None |};
     id := None;
     created := None |}.

Definition one_parameter_types : list string :=
  ["noise"; "harmonic"; "gaussian-curvature"].

Lemma one_parameter_cases (type : string) :
  In type one_parameter_types ->
  type = "noise" \/ type = "harmonic" \/ type = "gaussian-curvature".
Proof. simpl. intuition. Qed.

Lemma create_default (type : string) (config : Config) (perm : nat -> Z) :
  In type one_parameter_types ->
  DomainFactory.create type config perm = Return (default_domain type perm).
Proof.
  intros H. apply one_parameter_cases in H.
  destruct H as [-> | [-> | ->]]; reflexivity.
Qed.

(** *** The noise field *)

Lemma singleOctaveNoise_NaN (p : nat -> Z) (a b : num) :
  singleOctaveNoise p a b = NaN.
Proof.
  unfold singleOctaveNoise, lerp. simpl of_arg.
  rewrite mul_NaN_l. apply add_NaN_r.
Qed.

Lemma noise_loop_NaN (p : nat -> Z) (persistence a b : num) (n : nat) :
  forall frequency amplitude maxValue,
    fst (noise_loop p persistence a b n NaN frequency amplitude maxValue) = NaN.
Proof.
  induction n as [ | n IH]; intros; simpl; [reflexivity | apply IH].
Qed.

(** [#noise] returns [NaN] whatever the table, the octaves and the point:
    a loop that runs poisons [total] at once, and a loop that does not run
    leaves [0 / 0]. *)
Lemma noise_NaN (p : nat -> Z) (octaves persistence a b : num) :
  noise p octaves persistence a b = NaN.
Proof.
  unfold noise. destruct (iterations octaves) as [ | n].
  - simpl. unfold div. destruct (Req_dec_T 0 0); [reflexivity | contradiction].
  - cbn [noise_loop]. rewrite singleOctaveNoise_NaN, mul_NaN_l, add_NaN_r.
    pose proof (noise_loop_NaN p persistence a b n
                  (Fin 1 * Fin 2)%num (Fin 1 * persistence)%num
                  (Fin 0 + Fin 1)%num) as H.
    destruct (noise_loop _ _ _ _ _ _ _ _ _) as [total maxValue].
    simpl in H. subst total. reflexivity.
Qed.

Lemma transform_noise (d : Domain) (scale octaves persistence : num)
    (p : nat -> Z) (point : Point) (direction : num) :
  cls d = NoiseDomain scale octaves persistence p ->
  transform d point direction = mkPoint NaN NaN.
Proof.
  intros H. unfold transform. rewrite H, noise_NaN, mul_NaN_l, !add_NaN_r.
  reflexivity.
Qed.

(** *** The harmonic and the Gaussian classes at amplitude 0 *)

Lemma gaussian_deformation_fin (spread u v : R) :
  is_fin (gaussian_deformation (Fin spread) (Fin u) (Fin v)).
Proof. exact I. Qed.

Lemma transform_default_harmonic (perm : nat -> Z) (p : Point) (dir : num) :
  is_fin (x p) -> is_fin (y p) ->
  transform (default_domain "harmonic" perm) p dir = p.
Proof.
  destruct p as [[a | ] [b | ]]; simpl; try tauto. intros _ _.
  unfold transform. simpl. f_equal; f_equal; ring.
Qed.

Lemma transform_default_gaussian (perm : nat -> Z) (p : Point) (dir : num) :
  is_fin (x p) -> is_fin (y p) ->
  transform (default_domain "gaussian-curvature" perm) p dir = p.
Proof.
  destruct p as [[a | ] [b | ]]; simpl; try tauto. intros _ _.
  unfold transform. cbn [cls default_domain default_class String.eqb
                         Ascii.eqb Bool.eqb center radius amplitude origin x y].
  unfold sub, lift2. rewrite !div_Fin by lra.
  pose proof (gaussian_deformation_fin 4 ((a - 0) / 100) ((b - 0) / 100)) as H.
  destruct (gaussian_deformation _ _ _) as [g | ]; [ | contradiction].
  simpl. f_equal; f_equal; ring.
Qed.

Lemma createTransformationDomain_default (st : AdaptiveGrid.State)
    (type : string) (c : Point) (r : num) (o : Options) (perm : nat -> Z)
    (now_id now_created : Z) :
  In type one_parameter_types ->
  fst (AdaptiveGrid.createTransformationDomain st c r (Some type) o perm
         now_id now_created)
  = Return (AdaptiveGrid.set_id (default_domain type perm) now_id now_created).
Proof.
  intros H. unfold AdaptiveGrid.createTransformationDomain, createDomain.
  rewrite create_default by assumption. reflexivity.
Qed.

(** C4 (as amended): for each of the types noise, harmonic and
    gaussian-curvature and for every configuration object, the factory (and
    so [createDomain] and the registry) builds the domain that has nothing
    of the configuration in it: centre (0, 0), radius 100, amplitude 0,
    blend mode smooth, empty options and the default fields of its class.
    For harmonic and gaussian-curvature the transform of that domain is
    the identity at every point with finite coordinates. *)
Theorem C4_factory_ignores_config (type : string) (config : Config)
    (perm : nat -> Z) :
  In type one_parameter_types ->
  exists d,
    DomainFactory.create type config perm = Return d
    /\ createDomain type config perm = Return d
    /\ (forall st c r o now_id now_created,
          fst (AdaptiveGrid.createTransformationDomain
                 st c r (Some type) o perm now_id now_created)
          = Return (AdaptiveGrid.set_id d now_id now_created))
    /\ center d = mkPoint (Fin 0) (Fin 0)
    /\ radius d = Fin 100
    /\ amplitude d = Fin 0
    /\ blendMode d = smooth
    /\ options d = {| eccentricity := None |}
    /\ cls d = default_class type perm
    /\ (type <> "noise" ->
        forall p dir, is_fin (x p) -> is_fin (y p) -> transform d p dir = p).
Proof.
  intros H. exists (default_domain type perm).
  split; [now apply create_default | ].
  split; [now apply create_default | ].
  split; [intros; now apply createTransformationDomain_default | ].
  repeat (split; [reflexivity | ]).
  intros Hn p dir Hx Hy.
  destruct (one_parameter_cases H) as [-> | [-> | ->]].
  - contradiction.
  - now apply transform_default_harmonic.
  - now apply transform_default_gaussian.
Qed.

Definition some_config : Config :=
  {| cfg_type := Some "harmonic";
     cfg_center := Some (mkPoint (Fin 200) (Fin 200));
     cfg_radius := Some (Fin 80);
     cfg_amplitude := Some (Fin 10);
     cfg_blendMode := Some linear;
     cfg_options := None;
     cfg_scale := None; cfg_octaves := None; cfg_persistence := None;
     cfg_freqX := Some (Fin 5); cfg_freqY := Some (Fin 3); cfg_phase := None;
     cfg_spread := None |}.

Lemma C4_factory_ignores_config_witness :
  exists d,
    DomainFactory.create "harmonic" some_config (fun _ => 0%Z) = Return d
    /\ radius d = Fin 100
    /\ amplitude d = Fin 0
    /\ transform d (mkPoint (Fin 1) (Fin 2)) (Fin 1) = mkPoint (Fin 1) (Fin 2).
Proof.
  destruct (@C4_factory_ignores_config "harmonic" some_config (fun _ => 0%Z))
    as (d & Hc & _ & _ & _ & Hr & Ha & _ & _ & _ & Ht).
  - simpl. auto.
  - exists d. repeat split; auto.
    apply Ht; [discriminate | exact I | exact I].
Defined.

(** C4 (as stated) fails for the noise type: the domain the factory builds
    sends the point (1, 2) to (NaN, NaN), not to itself. *)
Lemma C4_noise_transform_counterexample :
  exists d,
    DomainFactory.create "noise" some_config (fun _ => 0%Z) = Return d
    /\ transform d (mkPoint (Fin 1) (Fin 2)) (Fin 1) = mkPoint NaN NaN
    /\ transform d (mkPoint (Fin 1) (Fin 2)) (Fin 1) <> mkPoint (Fin 1) (Fin 2).
Proof.
  exists (default_domain "noise" (fun _ => 0%Z)).
  split; [reflexivity | ].
  assert (E : transform (default_domain "noise" (fun _ => 0%Z))
                (mkPoint (Fin 1) (Fin 2)) (Fin 1) = mkPoint NaN NaN)
    by (eapply transform_noise; reflexivity).
  rewrite E. split; [reflexivity | discriminate].
Qed.

End FactoryFacts.

(** ** The iterative inverse of one domain *)

Module InverseFacts.

Local Open Scope num_scope.

Section Iteration.

Variable d : Domain.
Variable target : Point.
Variable tolerance : num.

(** The residual of a guess: target minus the forward image of the guess. *)
Definition residual (guess : Point) : num * num :=
  let forward := transform d guess (Fin 1) in
  (x target - x forward, y target - y forward).

(** The residual magnitude is below the tolerance. *)
Definition converged (guess : Point) : bool :=
  Math.hypot (fst (residual guess)) (snd (residual guess)) <? tolerance.

(** The guess moved by half the residual. *)
Definition nudge (guess : Point) : Point :=
  {| x := x guess + fst (residual guess) * Fin (5 / 10);
     y := y guess + snd (residual guess) * Fin (5 / 10) |}.

(** The guess after [k] nudges. *)
Fixpoint guess_from (guess : Point) (k : nat) : Point :=
  match k with
  | O => guess
  | S k' => guess_from (nudge guess) k'
  end.

Lemma inverse_step_spec (guess : Point) :
  inverse_step d target tolerance guess
  = if converged guess then None else Some (nudge guess).
Proof. reflexivity. Qed.

Lemma inverse_loop_spec (n : nat) :
  forall guess,
    (exists k, (k < n)%nat
               /\ converged (guess_from guess k) = true
               /\ (forall j, (j < k)%nat -> converged (guess_from guess j) = false)
               /\ inverse_loop d target tolerance n guess = guess_from guess k)
    \/ ((forall j, (j < n)%nat -> converged (guess_from guess j) = false)
        /\ inverse_loop d target tolerance n guess = guess_from guess n).
Proof.
  induction n as [ | n IH]; intros guess.
  - right. split; [intros j Hj; lia | reflexivity].
  - cbn [inverse_loop]. rewrite inverse_step_spec.
    destruct (converged guess) eqn:Hc.
    + left. exists O.
      split; [lia | ]. split; [exact Hc | ].
      split; [intros j Hj; lia | reflexivity].
    + destruct (IH (nudge guess)) as [(k & Hk & Hck & Hbefore & Hres) | (Hall & Hres)].
      * left. exists (S k).
        split; [lia | ]. split; [exact Hck | ]. split; [ | exact Hres].
        intros [ | j] Hj; [exact Hc | apply Hbefore; lia].
      * right. split; [ | exact Hres].
        intros [ | j] Hj; [exact Hc | apply Hall; lia].
Qed.

End Iteration.

(** C7: [inverse] is [_iterativeInverse] with tolerance 0.1 and 50
    iterations.  The first guess is the target; a guess whose residual
    (target minus its forward image) has a magnitude below the tolerance is
    returned; any other guess is moved by half its residual; and after the
    last iteration the current guess is returned.  The function is total:
    it returns a point and throws nothing. *)
Theorem C7_iterative_inverse (d : Domain) (target : Point) :
  inverse d target = _iterativeInverse d target (Fin (1 / 10)) 50
  /\ forall (tolerance : num) (maxIterations : nat),
      let guess := guess_from d target target in
      let stop := converged d target tolerance in
      guess O = target
      /\ (forall k, guess (S k) = guess_from d target (nudge d target target) k)
      /\ (forall g, nudge d target g
                    = {| x := x g + (x target - x (transform d g (Fin 1))) * Fin (5 / 10);
                         y := y g + (y target - y (transform d g (Fin 1))) * Fin (5 / 10) |})
      /\ (forall g, stop g
                    = (Math.hypot (x target - x (transform d g (Fin 1)))
                                  (y target - y (transform d g (Fin 1)))
                       <? tolerance))
      /\ ((exists k, (k < maxIterations)%nat
                     /\ stop (guess k) = true
                     /\ (forall j, (j < k)%nat -> stop (guess j) = false)
                     /\ _iterativeInverse d target tolerance maxIterations = guess k)
          \/ ((forall j, (j < maxIterations)%nat -> stop (guess j) = false)
              /\ _iterativeInverse d target tolerance maxIterations
                 = guess maxIterations)).
Proof.
  split; [reflexivity | ].
  intros tolerance maxIterations guess stop.
  repeat (split; [reflexivity | ]).
  apply inverse_loop_spec.
Qed.

(** A guess that the domain already sends within the tolerance of the
    target is returned at the first test. *)
Lemma inverse_fixed (d : Domain) (a b : R) :
  transform d (mkPoint (Fin a) (Fin b)) (Fin 1) = mkPoint (Fin a) (Fin b) ->
  inverse d (mkPoint (Fin a) (Fin b)) = mkPoint (Fin a) (Fin b).
Proof.
  intros H. unfold inverse, _iterativeInverse.
  cbn [inverse_loop]. unfold inverse_step. rewrite H. cbn [x y].
  replace (Math.hypot (Fin a - Fin a) (Fin b - Fin b)) with (Fin 0).
  - replace (Fin 0 <? Fin (1 / 10)) with true; [reflexivity | ].
    symmetry. apply ltb_Fin. lra.
  - simpl. f_equal.
    replace ((a - a) * (a - a) + (b - b) * (b - b))%R with 0%R by ring.
    symmetry. apply sqrt_0.
Qed.

(** The loop runs out of iterations on a domain whose forward image is
    never a number, and still returns its guess. *)
Lemma inverse_loop_NaN (d : Domain) (target : Point) (tolerance : num) (n : nat) :
  (forall g, transform d g (Fin 1) = mkPoint NaN NaN) ->
  forall guess,
    inverse_loop d target tolerance (S n) guess = mkPoint NaN NaN.
Proof.
  intros HT.
  assert (Hstep : forall guess,
            inverse_step d target tolerance guess
            = Some (mkPoint (x guess + NaN * Fin (5 / 10))
                            (y guess + NaN * Fin (5 / 10)))).
  { intros guess. unfold inverse_step. rewrite HT. cbn [x y].
    rewrite !sub_NaN_r. reflexivity. }
  induction n as [ | n IH]; intros guess.
  - cbn [inverse_loop]. rewrite Hstep, mul_NaN_l, !add_NaN_r. reflexivity.
  - change (inverse_loop d target tolerance (S (S n)) guess)
      with (match inverse_step d target tolerance guess with
            | None => guess
            | Some guess' => inverse_loop d target tolerance (S n) guess'
            end).
    rewrite Hstep. apply IH.
Qed.

End InverseFacts.

(** ** Registered domains and the copies the legacy API makes of them

    [inverseTransformPoint] and [calculateEffectiveGridSize] hand the
    registered domain objects to the legacy API as if they were
    configuration objects, and the legacy API builds a manager with one
    new domain per object. *)

Module CopyFacts.

Local Open Scope string_scope.

(** The classes agree, but for the table of a noise domain. *)
Definition same_class (c c' : ClassData) : Prop :=
  match c, c' with
  | NoiseDomain s o p _, NoiseDomain s' o' p' _ => s = s' /\ o = o' /\ p = p'
  | NoiseDomain _ _ _ _, _ | _, NoiseDomain _ _ _ _ => False
  | _, _ => c = c'
  end.

(** Two domain objects that agree on all that [weightAt], [transform],
    [inverse] and [curvatureFactor] read, but for the noise table. *)
Definition similar (d d' : Domain) : Prop :=
  same_class (cls d) (cls d')
  /\ type d = type d'
  /\ center d = center d'
  /\ radius d = radius d'
  /\ amplitude d = amplitude d'
  /\ blendMode d = blendMode d'
  /\ options d = options d'.

(** A domain object as [createTransformationDomain] puts it into the
    registry. *)
Definition registered (d : Domain) : Prop :=
  exists c r type o perm now_id now_created d0,
    createDomain type (AdaptiveGrid.domain_config c r o) perm = Return d0
    /\ d = AdaptiveGrid.set_id d0 now_id now_created.

Lemma similar_weightAt (d d' : Domain) (p : Point) :
  similar d d' -> weightAt d p = weightAt d' p.
Proof.
  intros (_ & _ & Hc & Hr & _ & Hb & _). unfold weightAt. now rewrite Hc, Hr, Hb.
Qed.

Lemma similar_transform (d d' : Domain) (p : Point) (dir : num) :
  similar d d' -> transform d p dir = transform d' p dir.
Proof.
  intros (Hk & _ & Hc & Hr & Ha & _ & Ho).
  destruct (cls d) eqn:E, (cls d') eqn:E'; simpl in Hk; try discriminate;
    try contradiction.
  - unfold transform. now rewrite E, E'.
  - unfold transform. now rewrite E, E', Hc, Hr.
  - unfold transform. now rewrite E, E', Hc, Hr.
  - unfold transform. now rewrite E, E', Hc, Hr, Ho.
  - rewrite (FactoryFacts.transform_noise d p dir E).
    now rewrite (FactoryFacts.transform_noise d' p dir E').
  - injection Hk as -> -> ->. unfold transform. now rewrite E, E', Hc, Ha.
  - injection Hk as ->. unfold transform. now rewrite E, E', Hc, Hr, Ha.
Qed.

Lemma similar_curvatureFactor (d d' : Domain) (p : Point) :
  similar d d' -> curvatureFactor d p = curvatureFactor d' p.
Proof.
  intros (_ & Ht & Hc & Hr & _ & _ & Ho). unfold curvatureFactor.
  now rewrite Ht, Hc, Hr, Ho.
Qed.

Lemma similar_inverse_loop (d d' : Domain) (target : Point) (tol : num) (n : nat) :
  similar d d' ->
  forall guess,
    inverse_loop d target tol n guess = inverse_loop d' target tol n guess.
Proof.
  intros Hs. induction n as [ | n IH]; intros guess; [reflexivity | ].
  cbn [inverse_loop]. unfold inverse_step.
  rewrite (similar_transform guess (Fin 1) Hs).
  destruct (Math.hypot _ _ <? tol)%num; [reflexivity | apply IH].
Qed.

Lemma similar_inverse (d d' : Domain) (p : Point) :
  similar d d' -> inverse d p = inverse d' p.
Proof. intros Hs. now apply similar_inverse_loop. Qed.

(** *** What the factory makes of a registered domain *)

Lemma constructorMap_type (type : string) (C : DomainFactory.Constructor) :
  DomainFactory.constructorMap type = Some C ->
  type = match C with
         | DomainFactory.CSpherical => "spherical"
         | DomainFactory.CCylindrical => "cylindrical"
         | DomainFactory.CConic => "conic"
         | DomainFactory.CNoise => "noise"
         | DomainFactory.CHarmonic => "harmonic"
         | DomainFactory.CGaussianCurvature => "gaussian-curvature"
         end.
Proof.
  unfold DomainFactory.constructorMap.
  repeat match goal with
         | |- context [String.eqb type ?s] =>
             destruct (String.eqb_spec type s) as [-> | ?]
         end; intros H; try discriminate; now injection H as <-.
Qed.

Lemma truthy_100 : truthy (Fin 100) = true.
Proof. unfold truthy. destruct (Req_dec_T 100 0); [lra | reflexivity]. Qed.

Lemma registered_copy (d : Domain) (perm : nat -> Z) :
  registered d ->
  exists d', DomainFactory.create (type d) (AdaptiveGrid.as_config d) perm
             = Return d'
             /\ similar d d'.
Proof.
  intros (c & r & type & o & perm0 & n1 & n2 & d0 & Hd0 & ->).
  unfold createDomain, DomainFactory.create in Hd0.
  destruct (DomainFactory.constructorMap type) as [C | ] eqn:HC; [ | discriminate].
  injection Hd0 as <-.
  apply constructorMap_type in HC. subst type.
  destruct C; eexists; (split; [reflexivity | ]);
    unfold similar; cbn;
    repeat split; auto;
    rewrite ?truthy_100; auto;
    try (destruct (truthy r) eqn:Er; rewrite ?Er, ?truthy_100; reflexivity);
    try (unfold truthy; destruct (Req_dec_T 0 0); [reflexivity | contradiction]).
Qed.

Lemma addDomains_copies (ds : list Domain) :
  Forall registered ds ->
  forall (m : DeformationManager.t) (rand : nat -> nat -> Z) (i : nat),
  exists ds',
    legacyAPI.addDomains m (map AdaptiveGrid.as_config ds) rand i
    = Return {| DeformationManager.domains :=
                  (DeformationManager.domains m ++ ds')%list;
                DeformationManager.blendMode := DeformationManager.blendMode m |}
    /\ Forall2 similar ds ds'.
Proof.
  induction 1 as [ | d ds Hd Hds IH]; intros m rand i.
  - exists []. split; [ | constructor].
    simpl. rewrite app_nil_r. now destruct m.
  - destruct (registered_copy (rand i) Hd) as (d' & Hc & Hs).
    specialize (IH {| DeformationManager.domains :=
                        (DeformationManager.domains m ++ [d'])%list;
                      DeformationManager.blendMode :=
                        DeformationManager.blendMode m |} rand (S i)).
    destruct IH as (ds' & Hadd & Hall).
    exists (d' :: ds'). split; [ | now constructor].
    cbn [map legacyAPI.addDomains]. unfold DeformationManager.addDomain.
    cbn [AdaptiveGrid.as_config cfg_type]. rewrite Hc, Hadd.
    cbn [DeformationManager.domains DeformationManager.blendMode].
    now rewrite <- app_assoc.
Qed.

Lemma with_manager_copies {A : Type} (ds : list Domain)
    (bm : option BlendMode) (rand : nat -> nat -> Z)
    (k : DeformationManager.t -> A) :
  Forall registered ds ->
  exists ds',
    legacyAPI.with_manager bm (map AdaptiveGrid.as_config ds) rand k
    = Return (k {| DeformationManager.domains := ds';
                   DeformationManager.blendMode := bm |})
    /\ Forall2 similar ds ds'.
Proof.
  intros H. unfold legacyAPI.with_manager.
  destruct (addDomains_copies H
              {| DeformationManager.domains := [];
                 DeformationManager.blendMode := bm |} rand O)
    as (ds' & Hadd & Hall).
  exists ds'. rewrite Hadd. now split.
Qed.

(** The inversions of a sequence of domains, composed as [reduceRight]
    composes them. *)
Definition compose_inverses (ds : list Domain) (point : Point) : Point :=
  fold_right (fun domain result => inverse domain result) point ds.

Lemma compose_inverses_similar (ds ds' : list Domain) (p : Point) :
  Forall2 similar ds ds' -> compose_inverses ds p = compose_inverses ds' p.
Proof.
  induction 1 as [ | d d' ds ds' Hs _ IH]; [reflexivity | ].
  simpl. rewrite IH. now apply similar_inverse.
Qed.

Lemma compose_inverses_last (ds : list Domain) (last : Domain) (p : Point) :
  compose_inverses (ds ++ [last]) p = compose_inverses ds (inverse last p).
Proof. unfold compose_inverses. now rewrite fold_right_app. Qed.

Lemma inverseTransformPoint_compose (st : AdaptiveGrid.State) (point : Point)
    (rand : nat -> nat -> Z) :
  Forall registered (AdaptiveGrid.transformationDomains st) ->
  AdaptiveGrid.inverseTransformPoint st point rand
  = Return (compose_inverses (AdaptiveGrid.transformationDomains st) point).
Proof.
  intros H.
  unfold AdaptiveGrid.inverseTransformPoint,
    legacyAPI.inverseTransformPointWithDomains.
  destruct (with_manager_copies
              (Some (AdaptiveGrid.tr_blendMode
                       (AdaptiveGrid.transformations
                          (AdaptiveGrid.mergedParams st))))
              rand
              (fun manager => DeformationManager.inverseTransform manager point)
              H) as (ds' & -> & Hall).
  f_equal. unfold DeformationManager.inverseTransform.
  cbn [DeformationManager.domains].
  symmetry. now apply compose_inverses_similar.
Qed.

(** C6: for a registry of registered domains, [inverseTransformPoint]
    returns the composition of the inversions of the registered domains in
    reverse registration order: the inverse of the domain registered last is
    applied to the input point, each result is fed to the inverse of the
    domain registered before, and the result of the inverse of the domain
    registered first is returned.  The same holds for
    [DeformationManager.inverseTransform] on its own list of domains. *)
Theorem C6_inverse_reverse_order (st : AdaptiveGrid.State) (point : Point)
    (rand : nat -> nat -> Z) :
  Forall registered (AdaptiveGrid.transformationDomains st) ->
  AdaptiveGrid.inverseTransformPoint st point rand
  = Return (compose_inverses (AdaptiveGrid.transformationDomains st) point)
  /\ (forall m q, DeformationManager.inverseTransform m q
                  = compose_inverses (DeformationManager.domains m) q)
  /\ (forall q, compose_inverses [] q = q)
  /\ (forall ds last q,
        compose_inverses (ds ++ [last]) q = compose_inverses ds (inverse last q))
  /\ (forall first ds q,
        compose_inverses (first :: ds) q = inverse first (compose_inverses ds q)).
Proof.
  intros H. split.
  - now apply inverseTransformPoint_compose.
  - split; [reflexivity | ]. split; [reflexivity | ].
    split; [apply compose_inverses_last | reflexivity].
Qed.

End CopyFacts.

(** ** The registry: capacity and eviction *)

Module RegistryFacts.

Import AdaptiveGrid CopyFacts.

Local Open Scope string_scope.

(** One call of [createTransformationDomain]. *)
Record Request : Type := mkRequest {
  req_center : Point;
  req_radius : num;
  req_type : option string;
  req_options : Options;
  req_permutation : nat -> Z;
  req_now_id : Z;
  req_now_created : Z }.

Definition create (st : State) (req : Request) : result Domain * State :=
  createTransformationDomain st (req_center req) (req_radius req)
    (req_type req) (req_options req) (req_permutation req)
    (req_now_id req) (req_now_created req).

(** The calls of a list, one after the other; a call that throws ends the
    sequence. *)
Fixpoint create_all (st : State) (reqs : list Request)
  : result (list Domain) * State :=
  match reqs with
  | [] => (Return [], st)
  | req :: rest =>
      match create st req with
      | (Return d, st1) =>
          match create_all st1 rest with
          | (Return ds, st2) => (Return (d :: ds), st2)
          | (Throw e, st2) => (Throw e, st2)
          end
      | (Throw e, st1) => (Throw e, st1)
      end
  end.

Definition type_of (req : Request) : string :=
  match req_type req with Some t => t | None => "spherical" end.

(** The request names one of the six types of the factory. *)
Definition valid (req : Request) : Prop :=
  DomainFactory.constructorMap (type_of req) <> None.

(** The last [n] elements of a list. *)
Definition lastn {A : Type} (n : nat) (l : list A) : list A :=
  skipn (List.length l - n) l.

(** What [createTransformationDomain] does to a full registry before it
    adds to it. *)
Definition evict (cap : nat) (ds : list Domain) : list Domain :=
  if (cap <=? List.length ds)%nat then tl ds else ds.

Section Capacity.

Variable cap : nat.
Hypothesis cap_pos : (1 <= cap)%nat.

Definition capacity_is (st : State) : Prop :=
  maxActiveDomains (transformations (mergedParams st)) = Fin (INR cap).

Lemma full_test (st : State) :
  capacity_is st ->
  (Fin (INR (List.length (transformationDomains st)))
   >=? maxActiveDomains (transformations (mergedParams st)))%num
  = (cap <=? List.length (transformationDomains st))%nat.
Proof.
  intros ->. destruct (Nat.leb_spec cap (List.length (transformationDomains st))).
  - apply geb_Fin. now apply le_INR.
  - apply geb_Fin_false. now apply lt_INR.
Qed.

Lemma create_throw (st : State) (req : Request) :
  capacity_is st -> ~ valid req ->
  exists e,
    create st req
    = (Throw e, set_domains st (evict cap (transformationDomains st))).
Proof.
  intros Hcap Hv. unfold create, createTransformationDomain.
  rewrite (full_test Hcap). unfold createDomain, DomainFactory.create.
  fold (type_of req).
  destruct (DomainFactory.constructorMap (type_of req)) eqn:E.
  - exfalso. apply Hv. unfold valid. now rewrite E.
  - eexists. unfold evict.
    destruct (cap <=? List.length (transformationDomains st))%nat;
      [reflexivity | now destruct st].
Qed.

Lemma create_return (st : State) (req : Request) :
  capacity_is st -> valid req ->
  exists d st',
    create st req = (Return d, st')
    /\ registered d
    /\ transformationDomains st'
       = (evict cap (transformationDomains st) ++ [d])%list
    /\ mergedParams st' = mergedParams st
    /\ gridCellCache st' = gridCellCache st
    /\ transformationCache st' = []
    /\ blendingCache st' = [].
Proof.
  intros Hcap Hv. unfold create, createTransformationDomain.
  rewrite (full_test Hcap). fold (type_of req).
  destruct (createDomain (type_of req)
              (domain_config (req_center req) (req_radius req) (req_options req))
              (req_permutation req)) as [d0 | e] eqn:E.
  - do 2 eexists. split; [reflexivity | ].
    split.
    { exists (req_center req), (req_radius req), (type_of req),
        (req_options req), (req_permutation req), (req_now_id req),
        (req_now_created req), d0. now split. }
    unfold evict.
    destruct (cap <=? List.length (transformationDomains st))%nat;
      repeat split; reflexivity.
  - exfalso. apply Hv. unfold createDomain, DomainFactory.create in E.
    destruct (DomainFactory.constructorMap (type_of req));
      [discriminate E | reflexivity].
Qed.

Lemma evict_length (ds : list Domain) :
  (List.length ds <= cap)%nat ->
  (List.length (evict cap ds) <= cap - 1)%nat.
Proof.
  intros H. unfold evict. destruct (Nat.leb_spec cap (List.length ds)).
  - destruct ds; simpl in *; lia.
  - lia.
Qed.

Lemma lastn_all {A : Type} (l : list A) :
  (List.length l <= cap)%nat -> lastn cap l = l.
Proof.
  intros H. unfold lastn. replace (List.length l - cap)%nat with O by lia.
  reflexivity.
Qed.

Lemma lastn_cons {A : Type} (a : A) (l : list A) :
  (cap <= List.length l)%nat -> lastn cap (a :: l) = lastn cap l.
Proof.
  intros H. unfold lastn. cbn [List.length].
  replace (S (List.length l) - cap)%nat with (S (List.length l - cap)) by lia.
  reflexivity.
Qed.

Lemma lastn_evict (ds rest : list Domain) :
  (List.length ds <= cap)%nat -> rest <> [] ->
  lastn cap (evict cap ds ++ rest) = lastn cap (ds ++ rest).
Proof.
  intros Hlen Hrest. unfold evict.
  destruct (Nat.leb_spec cap (List.length ds)); [ | reflexivity].
  destruct ds as [ | a ds]; [reflexivity | ].
  cbn [tl]. rewrite <- app_comm_cons. symmetry. apply lastn_cons.
  rewrite length_app. simpl in *.
  destruct rest; [contradiction | simpl; lia].
Qed.

Lemma create_all_spec (reqs : list Request) :
  Forall valid reqs ->
  forall st,
    capacity_is st ->
    (List.length (transformationDomains st) <= cap)%nat ->
    exists created st',
      create_all st reqs = (Return created, st')
      /\ List.length created = List.length reqs
      /\ Forall registered created
      /\ transformationDomains st'
         = lastn cap (transformationDomains st ++ created)
      /\ mergedParams st' = mergedParams st.
Proof.
  induction 1 as [ | req reqs Hv _ IH]; intros st Hcap Hlen.
  - exists [], st. repeat split; auto.
    rewrite app_nil_r. symmetry. now apply lastn_all.
  - destruct (create_return Hcap Hv)
      as (d & st1 & Hc & Hreg & Hds & Hp & _).
    assert (Hcap1 : capacity_is st1) by (unfold capacity_is; now rewrite Hp).
    assert (Hlen1 : (List.length (transformationDomains st1) <= cap)%nat).
    { rewrite Hds, length_app. pose proof (evict_length _ Hlen). simpl. lia. }
    destruct (IH st1 Hcap1 Hlen1) as (created & st' & Hall & Hn & Hregs & Hfin & Hp').
    exists (d :: created), st'. cbn [create_all]. rewrite Hc, Hall.
    repeat split; auto.
    + simpl. now rewrite Hn.
    + rewrite Hfin, Hds, <- app_assoc. cbn [app].
      apply lastn_evict; [assumption | discriminate].
    + now rewrite Hp'.
Qed.

Lemma lastn_surplus {A : Type} (ds created : list A) (k : nat) :
  List.length created = (cap + k)%nat ->
  lastn cap (ds ++ created) = skipn k created.
Proof.
  intros H. unfold lastn. rewrite length_app, H.
  replace (List.length ds + (cap + k) - cap)%nat with (List.length ds + k)%nat
    by lia.
  rewrite skipn_app, skipn_all2 by lia.
  replace (List.length ds + k - List.length ds)%nat with k by lia.
  reflexivity.
Qed.

Lemma remove_length (st : State) (domainId : Z) :
  (List.length (transformationDomains (snd (removeTransformationDomain st domainId)))
   <= List.length (transformationDomains st))%nat.
Proof.
  unfold removeTransformationDomain.
  destruct (negb _); cbn; apply filter_length_le.
Qed.

End Capacity.

Lemma create_frame (cap : nat) (st : State) (req : Request) (d0 : Domain) :
  capacity_is cap st ->
  createDomain (type_of req)
    (domain_config (req_center req) (req_radius req) (req_options req))
    (req_permutation req) = Return d0 ->
  let st' := snd (create st req) in
  transformationDomains st'
  = (evict cap (transformationDomains st)
     ++ [set_id d0 (req_now_id req) (req_now_created req)])%list
  /\ mergedParams st' = mergedParams st
  /\ viewportDimensions st' = viewportDimensions st
  /\ gridCellCache st' = gridCellCache st
  /\ transformationCache st' = []
  /\ blendingCache st' = [].
Proof.
  intros Hcap Hd0. unfold create, createTransformationDomain.
  rewrite (full_test Hcap). fold (type_of req). rewrite Hd0.
  unfold evict.
  destruct (cap <=? List.length (transformationDomains st))%nat;
    cbn; repeat split; reflexivity.
Qed.

Lemma remove_frame (st : State) (domainId : Z) :
  let st' := snd (removeTransformationDomain st domainId) in
  transformationDomains st'
  = filter (id_differs domainId) (transformationDomains st)
  /\ mergedParams st' = mergedParams st
  /\ viewportDimensions st' = viewportDimensions st
  /\ gridCellCache st' = gridCellCache st.
Proof.
  unfold removeTransformationDomain.
  destruct (negb _); cbn; repeat split; reflexivity.
Qed.

(** C5 (as amended): while the capacity [maxActiveDomains] is a whole number
    of at least 1 (5 by default) and is not changed, a registry within the
    capacity stays within it through every creation (one that returns and
    one that throws), removal and clearing; a creation on a full registry
    drops the oldest entry and appends the new one; and after [cap + k]
    creations in sequence the registry holds exactly [cap] domains, which
    are the [cap] created last. *)
Theorem C5_registry_capacity (cap : nat) (st : State) :
  (1 <= cap)%nat ->
  capacity_is cap st ->
  (List.length (transformationDomains st) <= cap)%nat ->
  capacity_is 5 (initial (Fin 0) (Fin 0) defaultParams)
  /\ (forall req,
        (List.length
           (transformationDomains (snd (create st req))) <= cap)%nat)
  /\ (forall domainId,
        (List.length
           (transformationDomains (snd (removeTransformationDomain st domainId)))
         <= cap)%nat)
  /\ List.length (transformationDomains (clearTransformationDomains st)) = O
  /\ (forall req,
        valid req ->
        List.length (transformationDomains st) = cap ->
        exists d st',
          create st req = (Return d, st')
          /\ transformationDomains st'
             = (tl (transformationDomains st) ++ [d])%list)
  /\ (forall reqs k,
        Forall valid reqs ->
        List.length reqs = (cap + k)%nat ->
        exists created st',
          create_all st reqs = (Return created, st')
          /\ List.length created = (cap + k)%nat
          /\ transformationDomains st' = skipn k created
          /\ List.length (transformationDomains st') = cap).
Proof.
  intros Hpos Hcap Hlen.
  split.
  { unfold capacity_is. simpl. f_equal. lra. }
  split.
  { intros req.
    destruct (DomainFactory.constructorMap (type_of req)) eqn:E.
    - assert (Hv : valid req) by (unfold valid; now rewrite E).
      destruct (create_return Hcap Hv) as (d & st' & Hc & _ & Hds & _).
      rewrite Hc. cbn [snd].
      rewrite Hds, length_app. pose proof (evict_length Hpos _ Hlen).
      simpl. lia.
    - assert (Hv : ~ valid req) by (unfold valid; now rewrite E).
      destruct (create_throw Hcap Hv) as (e & ->).
      cbn. pose proof (evict_length Hpos _ Hlen). lia. }
  split.
  { intros domainId. pose proof (remove_length st domainId). lia. }
  split; [reflexivity | ].
  split.
  { intros req Hv Hfull.
    destruct (create_return Hcap Hv) as (d & st' & Hc & _ & Hds & _).
    exists d, st'. split; [exact Hc | ].
    rewrite Hds. unfold evict. rewrite Hfull, Nat.leb_refl. reflexivity. }
  intros reqs k Hv Hn.
  destruct (create_all_spec Hpos Hv Hcap Hlen)
    as (created & st' & Hall & Hlen' & _ & Hds & _).
  exists created, st'. rewrite Hn in Hlen'.
  split; [exact Hall | ]. split; [exact Hlen' | ].
  rewrite Hds. erewrite lastn_surplus by eassumption.
  split; [reflexivity | ]. rewrite length_skipn. lia.
Qed.

(** *** Registered domains stay registered *)

Lemma Forall_tl {A : Type} (P : A -> Prop) (l : list A) :
  Forall P l -> Forall P (tl l).
Proof. intros H. destruct H; [constructor | assumption]. Qed.

Lemma create_registered (st : State) (req : Request) :
  Forall registered (transformationDomains st) ->
  Forall registered (transformationDomains (snd (create st req))).
Proof.
  intros H. unfold create, createTransformationDomain.
  set (st1 := if (_ >=? _)%num then _ else st).
  assert (H1 : Forall registered (transformationDomains st1)).
  { subst st1. destruct (_ >=? _)%num; [ | assumption]. cbn. now apply Forall_tl. }
  clearbody st1.
  destruct (createDomain _ _ _) as [d0 | e] eqn:E; cbn; [ | assumption].
  apply Forall_app. split; [assumption | ].
  constructor; [ | constructor].
  do 8 eexists. split; [exact E | reflexivity].
Qed.

Lemma remove_registered (st : State) (domainId : Z) :
  Forall registered (transformationDomains st) ->
  Forall registered
    (transformationDomains (snd (removeTransformationDomain st domainId))).
Proof.
  intros H. unfold removeTransformationDomain.
  destruct (negb _); cbn; apply Forall_forall; intros d Hd;
    apply filter_In in Hd; destruct Hd as [Hd _];
    revert d Hd; now apply Forall_forall.
Qed.

(** Six requests for spherical domains, at centres (0, 0), (10, 0), ... *)
Definition spherical_request (n : Z) : Request :=
  {| req_center := mkPoint (Fin (IZR (10 * n))) (Fin 0);
     req_radius := Fin 100;
     req_type := None;
     req_options := {| eccentricity := None |};
     req_permutation := fun _ => 0%Z;
     req_now_id := n;
     req_now_created := n |}.

Definition six_requests : list Request :=
  map spherical_request [0; 1; 2; 3; 4; 5]%Z.

Definition fresh : State := initial (Fin 0) (Fin 0) defaultParams.

Lemma fresh_capacity : capacity_is 5 fresh.
Proof. unfold capacity_is. simpl. f_equal. lra. Qed.

Lemma C5_registry_capacity_witness :
  exists created st',
    create_all fresh six_requests = (Return created, st')
    /\ List.length created = 6%nat
    /\ transformationDomains st' = skipn 1 created
    /\ List.length (transformationDomains st') = 5%nat.
Proof.
  destruct (@C5_registry_capacity 5 fresh) as (_ & _ & _ & _ & _ & Hseq).
  - lia.
  - exact fresh_capacity.
  - simpl. lia.
  - apply (Hseq six_requests 1%nat).
    + repeat constructor; discriminate.
    + reflexivity.
Defined.

(** A registry of two registered domains. *)
Definition two_domains : State :=
  snd (create (snd (create fresh (spherical_request 0)))
              (spherical_request 1)).

Lemma two_domains_registered :
  Forall registered (transformationDomains two_domains).
Proof. unfold two_domains. do 2 apply create_registered. constructor. Qed.

Lemma C6_inverse_reverse_order_witness :
  inverseTransformPoint two_domains (mkPoint (Fin 1) (Fin 2)) (fun _ _ => 0%Z)
  = Return (compose_inverses (transformationDomains two_domains)
                             (mkPoint (Fin 1) (Fin 2))).
Proof.
  apply (@C6_inverse_reverse_order two_domains (mkPoint (Fin 1) (Fin 2))
           (fun _ _ => 0%Z)).
  exact two_domains_registered.
Defined.

(** The parameters with another capacity. *)
Definition with_capacity (n : num) : Params :=
  {| grid := grid defaultParams;
     transformations :=
       {| tr_blendMode := smooth;
          defaultRadius := Fin 150;
          maxActiveDomains := n;
          tr_regularizationFactor := Fin (1 / 1000) |} |}.

(** Two domains registered under capacity 5, then the capacity set to 1. *)
Definition lowered : State := updateParameters two_domains (with_capacity (Fin 1)).

(** A module created with capacity 0. *)
Definition no_room : State := initial (Fin 0) (Fin 0) (with_capacity (Fin 0)).

Lemma two_domains_length : List.length (transformationDomains two_domains) = 2%nat.
Proof.
  unfold two_domains.
  destruct (@create_frame 5 fresh (spherical_request 0) _ fresh_capacity eq_refl)
    as (Hds1 & Hp1 & _).
  assert (Hcap1 : capacity_is 5 (snd (create fresh (spherical_request 0))))
    by (unfold capacity_is; rewrite Hp1; apply fresh_capacity).
  destruct (@create_frame 5 _ (spherical_request 1) _ Hcap1 eq_refl)
    as (Hds2 & _).
  rewrite Hds2, Hds1. reflexivity.
Qed.

(** C5 (as stated) fails when the capacity is lowered under a registry and
    when the capacity is 0: with two domains registered and the capacity set
    to 1, the registry holds two domains, and still two after one more
    creation; and with capacity 0 one creation leaves one domain. *)
Lemma C5_capacity_counterexample :
  (maxActiveDomains (transformations (mergedParams lowered)) = Fin 1
   /\ List.length (transformationDomains lowered) = 2%nat
   /\ List.length
        (transformationDomains (snd (create lowered (spherical_request 2))))
      = 2%nat)
  /\ (maxActiveDomains (transformations (mergedParams no_room)) = Fin 0
      /\ List.length
           (transformationDomains (snd (create no_room (spherical_request 0))))
         = 1%nat).
Proof.
  assert (Hlen : List.length (transformationDomains lowered) = 2%nat)
    by exact two_domains_length.
  split; [split; [reflexivity | split; [exact Hlen | ]] | split; [reflexivity | ]].
  - assert (Hcap : capacity_is 1 lowered) by reflexivity.
    destruct (@create_frame 1 lowered (spherical_request 2) _ Hcap eq_refl)
      as (Hds & _).
    rewrite Hds, length_app. unfold evict. rewrite Hlen.
    cbn [Nat.leb List.length].
    destruct (transformationDomains lowered) as [ | a [ | b l]];
      simpl in Hlen; try discriminate. simpl. lia.
  - assert (Hcap : capacity_is 0 no_room) by reflexivity.
    destruct (@create_frame 0 no_room (spherical_request 0) _ Hcap eq_refl)
      as (Hds & _).
    rewrite Hds. reflexivity.
Qed.

End RegistryFacts.

(** ** The blended forward transform *)

Module BlendFacts.

Import AdaptiveGrid.

Local Open Scope num_scope.

(** The sum of a list of numbers. *)
Definition nsum (l : list num) : num := fold_right add (Fin 0) l.

(** A domain is active at a point when its weight there is positive. *)
Definition active (point : Point) (d : Domain) : bool :=
  weightAt d point >? Fin 0.

Definition weight_sum (ds : list Domain) (point : Point) : num :=
  nsum (map (fun d => weightAt d point) ds).

(** The flat weight: max(0, 1 - sum of the domain weights), the domain
    weights taken as they are. *)
Definition flat (ds : list Domain) (point : Point) : num :=
  Math.max (Fin 0) (Fin 1 - weight_sum ds point).

(** The blend the specification describes: the point itself when the flat
    weight is 1, else flat * p + sum over the active domains of
    weight * transform(p), each transform taken at [p] itself. *)
Definition blend (ds : list Domain) (point : Point) : Point :=
  if flat ds point === Fin 1 then point
  else
    {| x := flat ds point * x point
            + nsum (map (fun d => weightAt d point * x (transform d point (Fin 1)))
                        (filter (active point) ds));
       y := flat ds point * y point
            + nsum (map (fun d => weightAt d point * y (transform d point (Fin 1)))
                        (filter (active point) ds)) |}.

(** What [calculateBlendingWeights] computes on a cache miss. *)
Definition weights_of (ds : list Domain) (point : Point) : BlendingWeights :=
  let tw := map (fun domain => (domain, weightAt domain point)) ds in
  {| transformWeights := tw;
     flatWeight := Math.max (Fin 0) (Fin 1 - totalWeight tw) |}.

(** Every cached value is the value a computation from the present
    registry gives. *)
Definition coherent (st : State) : Prop :=
  (forall p bw, Cache.get Point_eq_dec (blendingCache st) p = Some bw ->
                bw = weights_of (transformationDomains st) p)
  /\ (forall p q, Cache.get Point_eq_dec (transformationCache st) p = Some q ->
                  q = blend (transformationDomains st) p).

Lemma nsum_cons (a : num) (l : list num) : nsum (a :: l) = a + nsum l.
Proof. reflexivity. Qed.

Lemma fold_left_add (l : list num) (a : num) :
  fold_left add l a = a + nsum l.
Proof.
  revert a. induction l as [ | b l IH]; intros a; simpl.
  - symmetry. apply add_0_r.
  - rewrite IH. symmetry. apply add_assoc.
Qed.

Lemma totalWeight_sum (ds : list Domain) (point : Point) :
  totalWeight (map (fun domain => (domain, weightAt domain point)) ds)
  = weight_sum ds point.
Proof.
  unfold totalWeight, weight_sum.
  assert (G : forall a,
             fold_left (fun sum (dw : Domain * num) => sum + snd dw)
                       (map (fun domain => (domain, weightAt domain point)) ds) a
             = fold_left add (map (fun d => weightAt d point) ds) a).
  { induction ds as [ | d ds IH]; intros a; simpl; [reflexivity | apply IH]. }
  rewrite G, fold_left_add. apply add_0_l.
Qed.

Lemma flatWeight_flat (ds : list Domain) (point : Point) :
  flatWeight (weights_of ds point) = flat ds point.
Proof. unfold weights_of, flat. simpl. now rewrite totalWeight_sum. Qed.

Lemma contribute_sums (point : Point) (ds : list Domain) :
  forall ax ay,
    fold_left (contribute point)
              (map (fun domain => (domain, weightAt domain point)) ds) (ax, ay)
    = (ax + nsum (map (fun d => weightAt d point * x (transform d point (Fin 1)))
                      (filter (active point) ds)),
       ay + nsum (map (fun d => weightAt d point * y (transform d point (Fin 1)))
                      (filter (active point) ds))).
Proof.
  induction ds as [ | d ds IH]; intros ax ay.
  - simpl. now rewrite !add_0_r.
  - cbn [map fold_left filter]. unfold contribute at 2.
    fold (active point d). destruct (active point d).
    + rewrite IH. cbn [map]. now rewrite !nsum_cons, !add_assoc.
    + apply IH.
Qed.

Lemma blend_empty (point : Point) : blend [] point = point.
Proof.
  unfold blend.
  replace (flat [] point === Fin 1) with true; [reflexivity | ].
  symmetry. unfold flat, weight_sum. cbn [map nsum fold_right].
  apply eqb_Fin. rewrite Rmax_right; lra.
Qed.

(** What [calculateBlendingWeights] and [transformPoint] leave alone. *)
Definition same_registry (st st' : State) : Prop :=
  transformationDomains st' = transformationDomains st
  /\ mergedParams st' = mergedParams st
  /\ viewportDimensions st' = viewportDimensions st
  /\ gridCellCache st' = gridCellCache st
  /\ snapSettings st' = snapSettings st.

Lemma same_registry_refl (st : State) : same_registry st st.
Proof. repeat split. Qed.

Lemma same_registry_trans (st1 st2 st3 : State) :
  same_registry st1 st2 -> same_registry st2 st3 -> same_registry st1 st3.
Proof.
  intros (A1 & A2 & A3 & A4 & A5) (B1 & B2 & B3 & B4 & B5).
  repeat split; congruence.
Qed.

Lemma calculateBlendingWeights_spec (st : State) (point : Point) :
  coherent st ->
  fst (calculateBlendingWeights st point)
  = weights_of (transformationDomains st) point
  /\ coherent (snd (calculateBlendingWeights st point))
  /\ same_registry st (snd (calculateBlendingWeights st point))
  /\ transformationCache (snd (calculateBlendingWeights st point))
     = transformationCache st.
Proof.
  intros [Hb Ht]. unfold calculateBlendingWeights.
  destruct (Cache.get Point_eq_dec (blendingCache st) point) as [bw | ] eqn:E.
  - cbn [fst snd]. repeat split; auto.
  - cbn [fst snd]. split; [reflexivity | ].
    split; [ | repeat split].
    split; cbn.
    + intros p bw. destruct (Point_eq_dec point p) as [-> | _].
      * intros H. now injection H as <-.
      * apply Hb.
    + exact Ht.
Qed.

(** The core of [transformPoint] on coherent caches. *)
Lemma transformPoint_blend (st : State) (point : Point) :
  coherent st ->
  fst (transformPoint st point) = blend (transformationDomains st) point
  /\ coherent (snd (transformPoint st point))
     /\ same_registry st (snd (transformPoint st point)).
Proof.
  intros Hcoh. unfold transformPoint.
  destruct (Cache.get Point_eq_dec (transformationCache st) point)
    as [cached | ] eqn:E.
  - cbn [fst snd]. destruct Hcoh as [Hb Ht].
    split; [now apply Ht | ]. split; [now split | apply same_registry_refl].
  - destruct (calculateBlendingWeights_spec point Hcoh)
      as (Hw & [Hb1 Ht1] & Hsame & Htc).
    destruct (calculateBlendingWeights st point) as [weights st1].
    cbn [fst snd] in *. subst weights.
    assert (Hds : transformationDomains st1 = transformationDomains st)
      by apply Hsame.
    assert (Hstore : forall result,
              result = blend (transformationDomains st) point ->
              coherent (set_transformationCache st1
                          (Cache.set (transformationCache st1) point result))
              /\ same_registry st
                   (set_transformationCache st1
                      (Cache.set (transformationCache st1) point result))).
    { intros result Hres. split; [split | ]; cbn.
      - exact Hb1.
      - intros p q. destruct (Point_eq_dec point p) as [<- | _].
        + intros H. injection H as <-. now rewrite Hds.
        + apply Ht1.
      - destruct Hsame as (S1 & S2 & S3 & S4 & S5). repeat split; assumption. }
    rewrite flatWeight_flat. unfold blend.
    destruct (flat (transformationDomains st) point === Fin 1) eqn:Hflat.
    + cbn [fst snd]. split; [reflexivity | ].
      apply Hstore. unfold blend. now rewrite Hflat.
    + cbn [transformWeights weights_of]. rewrite contribute_sums.
      cbn [fst snd]. split; [reflexivity | ].
      apply Hstore. unfold blend. now rewrite Hflat.
Qed.

(** On a state whose caches are coherent with the registry,
    [transformPoint] returns the blend: with the flat weight
    max(0, 1 - sum of the domain weights), the weights not renormalised, it
    returns the point itself when the flat weight equals 1 (so for an empty
    registry), and else flat * p + the sum over the active domains of
    weight * transform(p), every transform taken at the original point.  The
    call leaves the registry as it is and the caches coherent.  What it
    returns on caches that are not coherent is in [StaleFacts]. *)
Theorem transformPoint_blend_coherent (st : State) (point : Point) :
  coherent st ->
  fst (transformPoint st point) = blend (transformationDomains st) point
  /\ coherent (snd (transformPoint st point))
  /\ same_registry st (snd (transformPoint st point))
  /\ blend [] point = point
  /\ (forall ds,
        flat ds point
        = Math.max (Fin 0) (Fin 1 - nsum (map (fun d => weightAt d point) ds)))
  /\ (forall ds, (flat ds point === Fin 1) = true -> blend ds point = point)
  /\ (forall ds,
        (flat ds point === Fin 1) = false ->
        blend ds point
        = {| x := flat ds point * x point
                  + nsum (map (fun d => weightAt d point
                                        * x (transform d point (Fin 1)))
                              (filter (fun d => weightAt d point >? Fin 0) ds));
             y := flat ds point * y point
                  + nsum (map (fun d => weightAt d point
                                        * y (transform d point (Fin 1)))
                              (filter (fun d => weightAt d point >? Fin 0) ds)) |}).
Proof.
  intros Hcoh.
  destruct (transformPoint_blend point Hcoh) as (H1 & H2 & H3).
  repeat (split; [assumption | ]).
  split; [apply blend_empty | ].
  split; [reflexivity | ].
  split; intros ds Hf; unfold blend; now rewrite Hf.
Qed.

Lemma coherent_cleared (st : State) :
  transformationCache st = [] -> blendingCache st = [] -> coherent st.
Proof. intros Ht Hb. split; intros p v; rewrite ?Ht, ?Hb; discriminate. Qed.

Lemma transformPoint_fresh :
  fst (transformPoint (initial (Fin 800) (Fin 600) defaultParams)
                      (mkPoint (Fin 1) (Fin 2)))
  = mkPoint (Fin 1) (Fin 2).
Proof.
  destruct (@transformPoint_blend_coherent
              (initial (Fin 800) (Fin 600) defaultParams)
              (mkPoint (Fin 1) (Fin 2))) as (H & _ & _ & He & _).
  - now apply coherent_cleared.
  - rewrite H. exact He.
Defined.

End BlendFacts.

(** ** The effective grid size *)

Module GridSizeFacts.

Import AdaptiveGrid CopyFacts BlendFacts.

Local Open Scope num_scope.

(** The product of a list of numbers. *)
Definition nprod (l : list num) : num := fold_right mul (Fin 1) l.

(** The factor one active domain contributes:
    curvatureFactor * (1 - weight) + (1 - weight / 2) * weight. *)
Definition factor (point : Point) (d : Domain) : num :=
  curvatureFactor d point * (Fin 1 - weightAt d point)
  + (Fin 1 - weightAt d point * Fin (5 / 10)) * weightAt d point.

(** The size multiplier: 1, times the factor of every active domain. *)
Definition multiplier (ds : list Domain) (point : Point) : num :=
  nprod (map (factor point) (filter (active point) ds)).

Lemma mul_assoc (a b c : num) : a * (b * c) = a * b * c.
Proof. destruct a, b, c; simpl; auto. f_equal. ring. Qed.

Lemma mul_1_r (a : num) : a * Fin 1 = a.
Proof. destruct a; simpl; auto. f_equal. ring. Qed.

Lemma mul_1_l (a : num) : Fin 1 * a = a.
Proof. destruct a; simpl; auto. f_equal. ring. Qed.

Lemma adjust_products (point : Point) (ds : list Domain) :
  forall a,
    fold_left (DeformationManager.adjust point) ds a
    = a * multiplier ds point.
Proof.
  unfold multiplier.
  induction ds as [ | d ds IH]; intros a.
  - simpl. symmetry. apply mul_1_r.
  - cbn [fold_left filter]. unfold DeformationManager.adjust at 2.
    fold (active point d). destruct (active point d).
    + rewrite IH. cbn [map nprod fold_right]. fold (factor point d).
      fold (nprod (map (factor point) (filter (active point) ds))).
      symmetry. apply mul_assoc.
    + apply IH.
Qed.

Lemma calculateGridSize_spec (m : DeformationManager.t) (point : Point)
    (baseSize : num) :
  DeformationManager.calculateGridSize m point baseSize
  = Math.max (baseSize * Fin (2 / 10))
             (baseSize * multiplier (DeformationManager.domains m) point).
Proof.
  unfold DeformationManager.calculateGridSize.
  now rewrite adjust_products, mul_1_l.
Qed.

Lemma multiplier_similar (ds ds' : list Domain) (point : Point) :
  Forall2 similar ds ds' -> multiplier ds point = multiplier ds' point.
Proof.
  unfold multiplier.
  induction 1 as [ | d d' ds ds' Hs _ IH]; [reflexivity | ].
  assert (Ha : active point d' = active point d)
    by (unfold active; now rewrite (similar_weightAt point Hs)).
  cbn [filter]. rewrite Ha.
  destruct (active point d); [ | exact IH].
  cbn [map nprod fold_right]. f_equal; [ | exact IH].
  unfold factor.
  now rewrite (similar_weightAt point Hs), (similar_curvatureFactor point Hs).
Qed.

Lemma multiplier_inactive (ds : list Domain) (point : Point) :
  Forall (fun d => active point d = false) ds -> multiplier ds point = Fin 1.
Proof.
  unfold multiplier. induction 1 as [ | d ds Hd _ IH]; [reflexivity | ].
  cbn [filter]. now rewrite Hd.
Qed.

Lemma max_not_below (a b : num) : (Math.max a b <? a) = false.
Proof.
  destruct a as [a | ], b as [b | ]; try reflexivity.
  apply ltb_Fin_false. apply Rmax_l.
Qed.

Lemma calculateEffectiveGridSize_spec (st : State) (point : Point)
    (rand : nat -> nat -> Z) :
  Forall registered (transformationDomains st) ->
  calculateEffectiveGridSize st point rand
  = Return (Math.max (size (grid (mergedParams st)) * Fin (2 / 10))
                     (size (grid (mergedParams st))
                      * multiplier (transformationDomains st) point)).
Proof.
  intros Hreg.
  unfold calculateEffectiveGridSize, legacyAPI.calculateEffectiveGridSize.
  destruct (with_manager_copies (Some smooth) rand
              (fun manager =>
                 DeformationManager.calculateGridSize manager point
                   (size (grid (mergedParams st))))
              Hreg) as (ds' & -> & Hall).
  rewrite calculateGridSize_spec. cbn [DeformationManager.domains].
  now rewrite <- (multiplier_similar point Hall).
Qed.

(** C8: the effective grid size is max(baseSize * 0.2, baseSize * m), where
    the multiplier [m] starts from 1 and takes the factor
    curvatureFactor * (1 - weight) + (1 - weight / 2) * weight of every
    domain whose weight at the point is positive; it is never below
    baseSize * 0.2; and with no active domain and base size 20 it is 20. *)
Theorem C8_effective_grid_size (st : State) (point : Point)
    (rand : nat -> nat -> Z) :
  Forall registered (transformationDomains st) ->
  let baseSize := size (grid (mergedParams st)) in
  calculateEffectiveGridSize st point rand
  = Return (Math.max (baseSize * Fin (2 / 10))
                     (baseSize * multiplier (transformationDomains st) point))
  /\ (forall m base,
        DeformationManager.calculateGridSize m point base
        = Math.max (base * Fin (2 / 10))
                   (base * multiplier (DeformationManager.domains m) point)
        /\ (DeformationManager.calculateGridSize m point base
            <? base * Fin (2 / 10)) = false)
  /\ multiplier [] point = Fin 1
  /\ (forall d ds,
        multiplier (d :: ds) point
        = if weightAt d point >? Fin 0
          then (curvatureFactor d point * (Fin 1 - weightAt d point)
                + (Fin 1 - weightAt d point * Fin (5 / 10)) * weightAt d point)
               * multiplier ds point
          else multiplier ds point)
  /\ (forall m,
        Forall (fun d => (weightAt d point >? Fin 0) = false)
               (DeformationManager.domains m) ->
        DeformationManager.calculateGridSize m point (Fin 20) = Fin 20)
  /\ (baseSize = Fin 20 ->
      Forall (fun d => (weightAt d point >? Fin 0) = false)
             (transformationDomains st) ->
      calculateEffectiveGridSize st point rand = Return (Fin 20)).
Proof.
  intros Hreg baseSize.
  assert (Heng : calculateEffectiveGridSize st point rand
                 = Return (Math.max (baseSize * Fin (2 / 10))
                             (baseSize * multiplier (transformationDomains st) point))).
  { now apply calculateEffectiveGridSize_spec. }
  assert (H20 : Math.max (Fin 20 * Fin (2 / 10)) (Fin 20 * Fin 1) = Fin 20).
  { simpl. f_equal. rewrite Rmax_right; lra. }
  split; [exact Heng | ].
  split.
  { intros m base. split; [apply calculateGridSize_spec | ].
    rewrite calculateGridSize_spec. apply max_not_below. }
  split; [reflexivity | ].
  split.
  { intros d ds. unfold multiplier. cbn [filter]. unfold active at 1.
    destruct (weightAt d point >? Fin 0); reflexivity. }
  split.
  { intros m Hin. rewrite calculateGridSize_spec.
    rewrite (multiplier_inactive _ Hin). exact H20. }
  intros Hbase Hin. rewrite Heng, Hbase.
  rewrite (multiplier_inactive _ Hin). now rewrite H20.
Qed.

Lemma C8_effective_grid_size_witness :
  calculateEffectiveGridSize RegistryFacts.fresh (mkPoint (Fin 1) (Fin 2))
                             (fun _ _ => 0%Z)
  = Return (Fin 20).
Proof.
  destruct (@C8_effective_grid_size RegistryFacts.fresh
              (mkPoint (Fin 1) (Fin 2)) (fun _ _ => 0%Z))
    as (_ & _ & _ & _ & _ & H).
  - constructor.
  - apply H; [reflexivity | constructor].
Defined.

End GridSizeFacts.

(** ** The legacy blending path *)

Module LegacyFacts.

Import AdaptiveGrid BlendFacts.

Local Open Scope num_scope.

(** The weight-normalised average the legacy path computes: the point
    itself when no domain is active, else (sum of transform * weight) /
    (sum of weight) over the active domains, with no flat term. *)
Definition legacy_blend (ds : list Domain) (point : Point) : Point :=
  match filter (active point) ds with
  | [] => point
  | act =>
      {| x := nsum (map (fun d => x (transform d point (Fin 1)) * weightAt d point) act)
              / nsum (map (fun d => weightAt d point) act);
         y := nsum (map (fun d => y (transform d point (Fin 1)) * weightAt d point) act)
              / nsum (map (fun d => weightAt d point) act) |}
  end.

Lemma accumulate_sums (point : Point) (ds : list Domain) :
  forall ax ay aw,
    fold_left (DeformationManager.accumulate point) ds (ax, ay, aw)
    = (ax + nsum (map (fun d => x (transform d point (Fin 1)) * weightAt d point)
                      (filter (active point) ds)),
       ay + nsum (map (fun d => y (transform d point (Fin 1)) * weightAt d point)
                      (filter (active point) ds)),
       aw + nsum (map (fun d => weightAt d point) (filter (active point) ds))).
Proof.
  induction ds as [ | d ds IH]; intros ax ay aw.
  - simpl. now rewrite !add_0_r.
  - cbn [fold_left filter]. unfold DeformationManager.accumulate at 2.
    fold (active point d). destruct (active point d).
    + rewrite IH. cbn [map]. now rewrite !nsum_cons, !add_assoc.
    + apply IH.
Qed.

Lemma active_positive (point : Point) (d : Domain) :
  active point d = true -> exists w, weightAt d point = Fin w /\ (0 < w)%R.
Proof.
  unfold active. destruct (weightAt d point) as [w | ]; [ | discriminate].
  intros H. exists w. split; [reflexivity | now apply gtb_Fin].
Qed.

Lemma active_weights_sum (point : Point) (act : list Domain) :
  Forall (fun d => active point d = true) act ->
  exists s, nsum (map (fun d => weightAt d point) act) = Fin s
            /\ (0 <= s)%R /\ (act <> [] -> (0 < s)%R).
Proof.
  induction 1 as [ | d act Hd _ (s & Hs & H0 & _)].
  - exists 0%R. split; [reflexivity | ]. split; [lra | congruence].
  - destruct (active_positive _ _ Hd) as (w & Hw & Hpos).
    exists (w + s)%R. cbn [map]. rewrite nsum_cons, Hw, Hs.
    split; [reflexivity | ]. split; [lra | intros _; lra].
Qed.

Lemma filter_active_all (point : Point) (ds : list Domain) :
  Forall (fun d => active point d = true) (filter (active point) ds).
Proof.
  apply Forall_forall. intros d Hd. now apply filter_In in Hd.
Qed.

Lemma transformPoint_legacy_blend (m : DeformationManager.t) (point : Point) :
  DeformationManager.transformPoint m point
  = legacy_blend (DeformationManager.domains m) point.
Proof.
  unfold DeformationManager.transformPoint, legacy_blend.
  destruct (DeformationManager.domains m) as [ | d0 ds0] eqn:E; [reflexivity | ].
  rewrite accumulate_sums, !add_0_l.
  destruct (@active_weights_sum point _ (filter_active_all point (d0 :: ds0)))
    as (s & Hs & H0 & Hpos).
  destruct (filter (active point) (d0 :: ds0)) as [ | a act] eqn:F.
  - simpl. unfold gtb, ltb. destruct (Rlt_dec 0 0); [lra | reflexivity].
  - rewrite Hs.
    replace (Fin s >? Fin 0) with true; [reflexivity | ].
    symmetry. apply gtb_Fin. apply Hpos. discriminate.
Qed.

(** *** One active domain *)

Section OneActive.

Variable point : Point.
Variable d : Domain.
Variables before after : list Domain.
Variable w : R.

Hypothesis before_zero : Forall (fun d' => weightAt d' point = Fin 0) before.
Hypothesis after_zero : Forall (fun d' => weightAt d' point = Fin 0) after.
Hypothesis weight_d : weightAt d point = Fin w.
Hypothesis weight_range : (0 < w < 1)%R.

Lemma zero_inactive (l : list Domain) :
  Forall (fun d' => weightAt d' point = Fin 0) l ->
  filter (active point) l = [].
Proof.
  induction 1 as [ | d' l Hd _ IH]; [reflexivity | ].
  cbn [filter]. unfold active at 1. rewrite Hd.
  replace (Fin 0 >? Fin 0) with false; [exact IH | ].
  symmetry. apply gtb_Fin_false. lra.
Qed.

Lemma zero_weight_sum (l : list Domain) :
  Forall (fun d' => weightAt d' point = Fin 0) l ->
  weight_sum l point = Fin 0.
Proof.
  unfold weight_sum. induction 1 as [ | d' l Hd _ IH]; [reflexivity | ].
  cbn [map]. rewrite nsum_cons, Hd, IH. simpl. f_equal. lra.
Qed.

Lemma weight_sum_app (l1 l2 : list Domain) :
  weight_sum (l1 ++ l2) point = weight_sum l1 point + weight_sum l2 point.
Proof.
  unfold weight_sum. induction l1 as [ | a l1 IH].
  - simpl. symmetry. apply add_0_l.
  - cbn [app map]. rewrite !nsum_cons, IH. apply add_assoc.
Qed.

Lemma one_active_filter :
  filter (active point) (before ++ d :: after) = [d].
Proof.
  rewrite filter_app. cbn [filter].
  rewrite (zero_inactive before_zero), (zero_inactive after_zero).
  unfold active. rewrite weight_d.
  replace (Fin w >? Fin 0) with true; [reflexivity | ].
  symmetry. apply gtb_Fin. lra.
Qed.

Lemma one_active_flat : flat (before ++ d :: after) point = Fin (1 - w).
Proof.
  unfold flat. rewrite weight_sum_app.
  change (d :: after) with ([d] ++ after). rewrite weight_sum_app.
  rewrite (zero_weight_sum before_zero), (zero_weight_sum after_zero).
  unfold weight_sum. cbn [map]. rewrite nsum_cons, weight_d. simpl.
  f_equal. rewrite Rmax_right; lra.
Qed.

Lemma one_active_legacy :
  legacy_blend (before ++ d :: after) point = transform d point (Fin 1).
Proof.
  unfold legacy_blend. rewrite one_active_filter. cbn [map].
  rewrite !nsum_cons, weight_d. cbn [nsum fold_right]. rewrite !add_0_r.
  assert (G : forall t : num, t * Fin w / Fin w = t).
  { intros [t | ]; [ | reflexivity]. simpl. unfold div.
    destruct (Req_dec_T w 0); [lra | ]. f_equal. field. lra. }
  rewrite !G. now destruct (transform d point (Fin 1)).
Qed.

Lemma one_active_blend :
  blend (before ++ d :: after) point
  = {| x := Fin (1 - w) * x point + Fin w * x (transform d point (Fin 1));
       y := Fin (1 - w) * y point + Fin w * y (transform d point (Fin 1)) |}.
Proof.
  unfold blend. rewrite one_active_flat, one_active_filter.
  replace (Fin (1 - w) === Fin 1) with false.
  - cbn [map]. rewrite !nsum_cons, weight_d. cbn [nsum fold_right].
    now rewrite !add_0_r.
  - symmetry. apply eqb_Fin_false. lra.
Qed.

Lemma one_active_coincide :
  is_fin (x (transform d point (Fin 1))) ->
  is_fin (y (transform d point (Fin 1))) ->
  (blend (before ++ d :: after) point
   = legacy_blend (before ++ d :: after) point
   <-> transform d point (Fin 1) = point).
Proof.
  rewrite one_active_blend, one_active_legacy.
  destruct (transform d point (Fin 1)) as [[tx | ] [ty | ]]; cbn [x y is_fin];
    try tauto.
  intros _ _. destruct point as [[px | ] [py | ]]; cbn [x y]; simpl;
    split; intros H; try discriminate.
  - injection H as Hx Hy. f_equal; f_equal; nra.
  - injection H as -> ->. f_equal; f_equal; ring.
Qed.

End OneActive.

(** C10 (as amended): the legacy path [DeformationManager.transformPoint]
    (and [transformPointWithDomains], which builds its manager from the
    configurations) returns the point itself when no domain has a positive
    weight at it, and else the weight-normalised average
    (sum of weight * transform(p)) / (sum of weight) with no flat term.  When
    one domain has a weight strictly between 0 and 1 at [p] and every other
    domain has weight 0 there, it returns that domain's transform of [p];
    and, where that transform has numeric coordinates, it coincides with the
    engine's [transformPoint], taken on a state whose caches are coherent
    with the registry, exactly when the transform fixes [p]. *)
Theorem C10_legacy_blend (m : DeformationManager.t) (st : State)
    (point : Point) (d : Domain) (before after : list Domain) (w : R) :
  DeformationManager.domains m = (before ++ d :: after)%list ->
  transformationDomains st = DeformationManager.domains m ->
  coherent st ->
  Forall (fun d' => weightAt d' point = Fin 0) before ->
  Forall (fun d' => weightAt d' point = Fin 0) after ->
  weightAt d point = Fin w ->
  (0 < w < 1)%R ->
  DeformationManager.transformPoint m point = transform d point (Fin 1)
  /\ (is_fin (x (transform d point (Fin 1))) ->
      is_fin (y (transform d point (Fin 1))) ->
      (fst (transformPoint st point) = DeformationManager.transformPoint m point
       <-> transform d point (Fin 1) = point))
  /\ (forall m' q,
        DeformationManager.transformPoint m' q
        = legacy_blend (DeformationManager.domains m') q)
  /\ (forall ds q,
        Forall (fun d' => (weightAt d' q >? Fin 0) = false) ds ->
        legacy_blend ds q = q)
  /\ (forall configs blendMode rand q,
        match legacyAPI.addDomains
                {| DeformationManager.domains := [];
                   DeformationManager.blendMode :=
                     match blendMode with
                     | Some b => Some b
                     | None => Some smooth
                     end |} configs rand O
        with
        | Return m' =>
            legacyAPI.transformPointWithDomains q configs blendMode rand
            = Return (legacy_blend (DeformationManager.domains m') q)
        | Throw e =>
            legacyAPI.transformPointWithDomains q configs blendMode rand
            = Throw e
        end).
Proof.
  intros Hm Hst Hcoh Hb Ha Hw Hrange.
  split.
  { rewrite transformPoint_legacy_blend, Hm.
    now apply one_active_legacy with (w := w). }
  split.
  { intros Hx Hy.
    destruct (@transformPoint_blend st point Hcoh) as [Heng _].
    rewrite Heng, transformPoint_legacy_blend, Hst, Hm.
    now apply one_active_coincide with (w := w). }
  split; [apply transformPoint_legacy_blend | ].
  split.
  { intros ds q Hin. unfold legacy_blend.
    replace (filter (active q) ds) with (@nil Domain); [reflexivity | ].
    symmetry. induction Hin as [ | d' ds Hd _ IH]; [reflexivity | ].
    cbn [filter]. unfold active at 1. now rewrite Hd. }
  intros configs blendMode rand q.
  unfold legacyAPI.transformPointWithDomains, legacyAPI.with_manager.
  destruct (legacyAPI.addDomains _ configs rand O) as [m' | e]; [ | reflexivity].
  now rewrite transformPoint_legacy_blend.
Qed.

(** A spherical domain of radius 100 around the origin, as the registry
    holds it, and the point (50, 0), where its weight is 1/2. *)
Definition unit_disc : Domain :=
  set_id (SphericalDomain_new "spherical"
            (ArgObject (domain_config (mkPoint (Fin 0) (Fin 0)) (Fin 100)
                                      {| eccentricity := None |})))
         0 0.

Definition halfway : Point := mkPoint (Fin 50) (Fin 0).

Lemma unit_disc_radius : radius unit_disc = Fin 100.
Proof. simpl. now destruct (Req_dec_T 100 0). Qed.

Lemma unit_disc_weight : weightAt unit_disc halfway = Fin (1 / 2).
Proof.
  rewrite WeightFacts.weightAt_distance, unit_disc_radius.
  replace (WeightFacts.distance unit_disc halfway) with (Fin 50).
  - change (blendMode unit_disc) with smooth.
    rewrite WeightFacts.blendingFunctions_profile by lra.
    f_equal. unfold WeightFacts.profile.
    rewrite Rmin_right by lra.
    replace (PI * (50 / 100))%R with (PI / 2)%R by field.
    rewrite cos_PI2. lra.
  - unfold WeightFacts.distance. simpl. f_equal.
    replace ((50 - 0) * (50 - 0) + (0 - 0) * (0 - 0))%R with (50 * 50)%R by ring.
    symmetry. apply sqrt_square. lra.
Qed.

Lemma C10_legacy_blend_witness :
  DeformationManager.transformPoint
    {| DeformationManager.domains := [unit_disc];
       DeformationManager.blendMode := Some smooth |} halfway
  = transform unit_disc halfway (Fin 1).
Proof.
  apply (@C10_legacy_blend
           {| DeformationManager.domains := [unit_disc];
              DeformationManager.blendMode := Some smooth |}
           (set_domains RegistryFacts.fresh [unit_disc])
           halfway unit_disc [] [] (1 / 2)).
  - reflexivity.
  - reflexivity.
  - now apply coherent_cleared.
  - constructor.
  - constructor.
  - exact unit_disc_weight.
  - lra.
Defined.

End LegacyFacts.

(** ** Snapping *)

Module SnapFacts.

Import AdaptiveGrid CopyFacts BlendFacts.

Local Open Scope num_scope.

(** A coordinate rounded to a multiple of the grid size, as
    [snapToGridPoint] rounds it. *)
Definition snap_coordinate (v gridSize : num) : num :=
  Math.round (v / gridSize) * gridSize.

Definition snapping_on (settings : Snapping.Settings) : Prop :=
  Snapping.enabled settings = true /\ Snapping.mode settings <> Snapping.NONE.

Lemma snapping_on_test (settings : Snapping.Settings) :
  snapping_on settings ->
  negb (Snapping.enabled settings) || Snapping.is_none (Snapping.mode settings)
  = false.
Proof.
  intros [He Hm]. rewrite He. destruct (Snapping.mode settings); try reflexivity.
  contradiction.
Qed.

Lemma snapping_off_test (settings : Snapping.Settings) :
  Snapping.enabled settings = false \/ Snapping.mode settings = Snapping.NONE ->
  negb (Snapping.enabled settings) || Snapping.is_none (Snapping.mode settings)
  = true.
Proof.
  intros [-> | ->]; [reflexivity | ]. simpl. apply orb_true_r.
Qed.

(** The rounded coordinate is a whole multiple of the grid size, and no
    multiple is nearer: it is within half a grid size. *)
Lemma snap_coordinate_nearest (v g : R) :
  (0 < g)%R ->
  exists k : Z,
    snap_coordinate (Fin v) (Fin g) = Fin (IZR k * g)
    /\ (Rabs (IZR k * g - v) <= g / 2)%R.
Proof.
  intros Hg. exists (Zfloor (v / g + / 2)).
  unfold snap_coordinate. rewrite div_Fin by lra. split; [reflexivity | ].
  pose proof (Zfloor_bound (v / g + / 2)) as [Hlo Hhi].
  set (k := IZR (Zfloor (v / g + / 2))) in *.
  assert (Hv : (v = v / g * g)%R) by (field; lra).
  apply Rabs_le. split.
  - assert ((v / g - / 2) * g <= k * g)%R by (apply Rmult_le_compat_r; lra).
    nra.
  - assert (k * g <= (v / g + / 2) * g)%R by (apply Rmult_le_compat_r; lra).
    nra.
Qed.

Lemma snap_7_10 : snap_coordinate (Fin 7) (Fin 10) = Fin 10.
Proof.
  unfold snap_coordinate. rewrite div_Fin by lra. simpl.
  rewrite (Zfloor_eq 1) by (simpl; lra). f_equal. lra.
Qed.

(** The engine's snap, step by step: the point is inverse-transformed, the
    grid size is taken at the point so found, each coordinate of that point
    is rounded to a multiple of that grid size, and the rounded point is
    forward-transformed. *)
Definition snapped (st : State) (point : Point) : Point :=
  let ds := transformationDomains st in
  let baseSize := size (grid (mergedParams st)) in
  let originalPoint := compose_inverses ds point in
  let gridSize :=
    Math.max (baseSize * Fin (2 / 10))
             (baseSize * GridSizeFacts.multiplier ds originalPoint) in
  blend ds {| x := snap_coordinate (x originalPoint) gridSize;
              y := snap_coordinate (y originalPoint) gridSize |}.

Lemma snapTransformedPoint_off {S : Type} (settings : Snapping.Settings)
    (point : Point) (transformFn inverseFn : Point -> Eff.M S Point)
    (effectiveGridSizeFn : Point -> Eff.M S num) (s : S) :
  Snapping.enabled settings = false \/ Snapping.mode settings = Snapping.NONE ->
  Snapping.snapTransformedPoint settings point transformFn inverseFn
                                effectiveGridSizeFn s
  = (Return point, s).
Proof.
  intros H. unfold Snapping.snapTransformedPoint.
  now rewrite (snapping_off_test _ H).
Qed.

Lemma snapTransformedPoint_on {S : Type} (settings : Snapping.Settings)
    (point : Point) (transformFn inverseFn : Point -> Eff.M S Point)
    (effectiveGridSizeFn : Point -> Eff.M S num) (s s1 s2 : S)
    (originalPoint : Point) (gridSize : num) :
  snapping_on settings ->
  inverseFn point s = (Return originalPoint, s1) ->
  effectiveGridSizeFn originalPoint s1 = (Return gridSize, s2) ->
  Snapping.snapTransformedPoint settings point transformFn inverseFn
                                effectiveGridSizeFn s
  = transformFn {| x := snap_coordinate (x originalPoint) gridSize;
                   y := snap_coordinate (y originalPoint) gridSize |} s2.
Proof.
  intros Hon Hi Hg. unfold Snapping.snapTransformedPoint, Snapping.snapToGridPoint.
  rewrite (snapping_on_test Hon). unfold Eff.bind. now rewrite Hi, Hg.
Qed.

Lemma snapToGrid_snapped (st : State) (point : Point)
    (rand_inverse rand_size : nat -> nat -> Z) :
  Forall registered (transformationDomains st) ->
  coherent st ->
  grid_snapToGrid (grid (mergedParams st)) = true ->
  snapping_on (snapSettings st) ->
  fst (snapToGrid st point rand_inverse rand_size)
  = Return (snapped st point).
Proof.
  intros Hreg Hcoh Hgrid Hon. unfold snapToGrid. rewrite Hgrid. cbn [negb].
  set (o := compose_inverses (transformationDomains st) point).
  set (g := Math.max (size (grid (mergedParams st)) * Fin (2 / 10))
                     (size (grid (mergedParams st))
                      * GridSizeFacts.multiplier (transformationDomains st) o)).
  rewrite (@snapTransformedPoint_on State (snapSettings st) point _ _ _
             st st st o g Hon).
  - destruct (transformPoint_blend (mkPoint (snap_coordinate (x o) g)
                                            (snap_coordinate (y o) g)) Hcoh)
      as (Hb & _).
    destruct (transformPoint st _) as [q st'] eqn:E. cbn [fst] in *.
    rewrite Hb. reflexivity.
  - subst o. now rewrite inverseTransformPoint_compose.
  - subst g. now rewrite GridSizeFacts.calculateEffectiveGridSize_spec.
Qed.

(** [snapTransformedPoint] returns the point as it is when snapping is
    disabled or the mode is none; otherwise it inverse-transforms the
    point, computes the grid size at the point so found, rounds each
    coordinate of that point to the nearest multiple of that grid size and
    forward-transforms the rounded point.  With no domain, grid size 10,
    snapping enabled and caches that are coherent with the registry, the
    engine snaps (7, 7) to (10, 10).  What it does on caches that are not
    coherent is in [StaleFacts]. *)
Theorem snap_coherent (st : State) (rand_inverse rand_size : nat -> nat -> Z) :
  transformationDomains st = [] ->
  size (grid (mergedParams st)) = Fin 10 ->
  grid_snapToGrid (grid (mergedParams st)) = true ->
  snapping_on (snapSettings st) ->
  coherent st ->
  fst (snapToGrid st (mkPoint (Fin 7) (Fin 7)) rand_inverse rand_size)
  = Return (mkPoint (Fin 10) (Fin 10))
  /\ (forall (S : Type) settings point
             (transformFn inverseFn : Point -> Eff.M S Point)
             (effectiveGridSizeFn : Point -> Eff.M S num) (s : S),
        Snapping.enabled settings = false
        \/ Snapping.mode settings = Snapping.NONE ->
        Snapping.snapTransformedPoint settings point transformFn inverseFn
                                      effectiveGridSizeFn s
        = (Return point, s))
  /\ (forall (S : Type) settings point
             (transformFn inverseFn : Point -> Eff.M S Point)
             (effectiveGridSizeFn : Point -> Eff.M S num) (s s1 s2 : S)
             originalPoint gridSize,
        Snapping.enabled settings = true ->
        Snapping.mode settings <> Snapping.NONE ->
        inverseFn point s = (Return originalPoint, s1) ->
        effectiveGridSizeFn originalPoint s1 = (Return gridSize, s2) ->
        Snapping.snapTransformedPoint settings point transformFn inverseFn
                                      effectiveGridSizeFn s
        = transformFn
            {| x := Math.round (x originalPoint / gridSize) * gridSize;
               y := Math.round (y originalPoint / gridSize) * gridSize |} s2)
  /\ (forall v g : R,
        (0 < g)%R ->
        exists k : Z,
          Math.round (Fin v / Fin g) * Fin g = Fin (IZR k * g)
          /\ (Rabs (IZR k * g - v) <= g / 2)%R)
  /\ (forall st' point,
        grid_snapToGrid (grid (mergedParams st')) = false ->
        snapToGrid st' point rand_inverse rand_size = (Return point, st'))
  /\ (forall st' point,
        Forall registered (transformationDomains st') ->
        coherent st' ->
        grid_snapToGrid (grid (mergedParams st')) = true ->
        snapping_on (snapSettings st') ->
        fst (snapToGrid st' point rand_inverse rand_size)
        = Return (snapped st' point)).
Proof.
  intros Hds Hsize Hgrid Hon Hcoh.
  split.
  { rewrite snapToGrid_snapped; auto; [ | rewrite Hds; constructor].
    f_equal. unfold snapped. rewrite Hds, Hsize. cbn [compose_inverses fold_right x y].
    replace (Math.max (Fin 10 * Fin (2 / 10))
                      (Fin 10 * GridSizeFacts.multiplier [] (mkPoint (Fin 7) (Fin 7))))
      with (Fin 10).
    - rewrite snap_7_10. apply blend_empty.
    - simpl. f_equal. rewrite Rmax_right; lra. }
  split; [intros; now apply snapTransformedPoint_off | ].
  split.
  { intros S settings point T I G s s1 s2 o g He Hm Hi Hg.
    now apply snapTransformedPoint_on with (s1 := s1). }
  split; [exact snap_coordinate_nearest | ].
  split.
  { intros st' point H. unfold snapToGrid. now rewrite H. }
  intros st' point. apply snapToGrid_snapped.
Qed.

Definition grid_of_ten : State :=
  initial (Fin 800) (Fin 600)
          {| grid := {| size := Fin 10; showGrid := true;
                        grid_snapToGrid := true |};
             transformations := transformations defaultParams |}.

Lemma snap_fresh :
  fst (snapToGrid grid_of_ten (mkPoint (Fin 7) (Fin 7))
                  (fun _ _ => 0%Z) (fun _ _ => 0%Z))
  = Return (mkPoint (Fin 10) (Fin 10)).
Proof.
  apply (@snap_coherent grid_of_ten (fun _ _ => 0%Z) (fun _ _ => 0%Z)).
  - reflexivity.
  - reflexivity.
  - reflexivity.
  - split; [reflexivity | discriminate].
  - now apply coherent_cleared.
Defined.

End SnapFacts.

(** ** The grid-cell cache *)

Module GridCellFacts.

Import AdaptiveGrid CopyFacts BlendFacts.

Local Open Scope num_scope.

(** The key [generateGridCells] looks up. *)
Definition cellKey (st : State) : CellKey :=
  (fst (viewportDimensions st), snd (viewportDimensions st),
   size (grid (mergedParams st)), List.length (transformationDomains st)).

(** The quad at a grid position, its corners blended over [ds]. *)
Definition quad (ds : list Domain) (baseGridSize gx gy : num) : Cell :=
  let corners := [ mkPoint gx gy;
                   mkPoint (gx + baseGridSize) gy;
                   mkPoint (gx + baseGridSize) (gy + baseGridSize);
                   mkPoint gx (gy + baseGridSize) ] in
  {| original := corners; transformed := map (blend ds) corners |}.

Definition quads (ds : list Domain) (baseGridSize : num) (xs ys : list num)
  : list Cell :=
  flat_map (fun gx => map (quad ds baseGridSize gx) ys) xs.

Section Coherent.

Variable ds : list Domain.

(** A state with registry [ds] and coherent caches, and what such a state
    has in common with [st]. *)
Definition like (st st' : State) : Prop :=
  coherent st' /\ same_registry st st'.

Lemma like_refl (st : State) : coherent st -> like st st.
Proof. intros H. split; [exact H | apply same_registry_refl]. Qed.

Lemma like_trans (st1 st2 st3 : State) :
  like st1 st2 -> like st2 st3 -> like st1 st3.
Proof.
  intros [_ H12] [C3 H23]. split; [exact C3 | ].
  now apply same_registry_trans with st2.
Qed.

Lemma transformPoints_blend (ps : list Point) :
  forall st,
    coherent st -> transformationDomains st = ds ->
    fst (transformPoints st ps) = map (blend ds) ps
    /\ like st (snd (transformPoints st ps)).
Proof.
  induction ps as [ | p ps IH]; intros st Hcoh Hds.
  - split; [reflexivity | now apply like_refl].
  - cbn [transformPoints].
    destruct (transformPoint_blend p Hcoh) as (Hb & Hc1 & Hs1).
    destruct (transformPoint st p) as [q st1]. cbn [fst snd] in *.
    assert (Hds1 : transformationDomains st1 = ds)
      by (destruct Hs1 as (-> & _); exact Hds).
    destruct (IH st1 Hc1 Hds1) as (Hqs & Hl).
    destruct (transformPoints st1 ps) as [qs st2]. cbn [fst snd] in *.
    split.
    + cbn [map]. now rewrite Hb, Hqs, Hds.
    + apply like_trans with st1; [now split | exact Hl].
Qed.

Lemma cell_at_quad (baseGridSize gx gy : num) (st : State) :
  coherent st -> transformationDomains st = ds ->
  fst (cell_at st baseGridSize gx gy) = quad ds baseGridSize gx gy
  /\ like st (snd (cell_at st baseGridSize gx gy)).
Proof.
  intros Hcoh Hds. unfold cell_at.
  match goal with
  | |- context [transformPoints st ?cs] =>
      destruct (transformPoints_blend cs Hcoh Hds) as (Hq & Hl);
      destruct (transformPoints st cs) as [qs st1]
  end.
  cbn [fst snd] in *. split; [ | exact Hl].
  unfold quad. now rewrite Hq.
Qed.

Lemma cells_inner_quads (baseGridSize gx : num) (ys : list num) :
  forall st,
    coherent st -> transformationDomains st = ds ->
    fst (cells_inner st baseGridSize gx ys)
    = map (quad ds baseGridSize gx) ys
    /\ like st (snd (cells_inner st baseGridSize gx ys)).
Proof.
  induction ys as [ | gy ys IH]; intros st Hcoh Hds.
  - split; [reflexivity | now apply like_refl].
  - cbn [cells_inner].
    destruct (cell_at_quad baseGridSize gx gy Hcoh Hds) as (Hc & Hl1).
    destruct (cell_at st baseGridSize gx gy) as [c st1]. cbn [fst snd] in *.
    assert (Hds1 : transformationDomains st1 = ds)
      by (destruct Hl1 as (_ & -> & _); exact Hds).
    destruct (IH st1 (proj1 Hl1) Hds1) as (Hcs & Hl2).
    destruct (cells_inner st1 baseGridSize gx ys) as [cs st2].
    cbn [fst snd] in *. split.
    + cbn [map]. now rewrite Hc, Hcs.
    + now apply like_trans with st1.
Qed.

Lemma cells_outer_quads (baseGridSize : num) (xs ys : list num) :
  forall st,
    coherent st -> transformationDomains st = ds ->
    fst (cells_outer st baseGridSize xs ys) = quads ds baseGridSize xs ys
    /\ like st (snd (cells_outer st baseGridSize xs ys)).
Proof.
  induction xs as [ | gx xs IH]; intros st Hcoh Hds.
  - split; [reflexivity | now apply like_refl].
  - cbn [cells_outer].
    destruct (cells_inner_quads baseGridSize gx ys Hcoh Hds) as (Hc & Hl1).
    destruct (cells_inner st baseGridSize gx ys) as [cs st1].
    cbn [fst snd] in *.
    assert (Hds1 : transformationDomains st1 = ds)
      by (destruct Hl1 as (_ & -> & _); exact Hds).
    destruct (IH st1 (proj1 Hl1) Hds1) as (Hcs & Hl2).
    destruct (cells_outer st1 baseGridSize xs ys) as [cs' st2].
    cbn [fst snd] in *. split.
    + unfold quads. cbn [flat_map]. now rewrite Hc, Hcs.
    + now apply like_trans with st1.
Qed.

End Coherent.

Lemma coherent_set_gridCellCache (st : State)
    (c : Cache.t CellKey (list Cell)) :
  coherent st -> coherent (set_gridCellCache st c).
Proof. intros [Hb Ht]. split; assumption. Qed.

Lemma generateGridCells_hit (st : State) (cells : list Cell) :
  Cache.get CellKey_eq_dec (gridCellCache st) (cellKey st) = Some cells ->
  generateGridCells st = Some (cells, st).
Proof.
  unfold generateGridCells, cellKey.
  destruct (viewportDimensions st) as [width height]. cbn [fst snd].
  now intros ->.
Qed.

Lemma for_range_step_positive (start stop : num) (step : R) :
  (0 < step)%R ->
  exists vs, for_range start stop (Fin step) = Some vs
             /\ ((start <? stop) = true -> exists rest, vs = start :: rest).
Proof.
  intros Hstep. unfold for_range.
  replace (Fin step <=? Fin 0) with false
    by (symmetry; apply leb_Fin_false; lra).
  rewrite andb_false_r. eexists. split; [reflexivity | ].
  intros Hlt. cbn [for_loop]. rewrite Hlt. eexists. reflexivity.
Qed.

(** On a miss, with a positive grid size, [generateGridCells] ends, returns
    the quads blended over the present registry, and stores them under the
    key. *)
Lemma generateGridCells_miss (st : State) (base : R) :
  coherent st ->
  size (grid (mergedParams st)) = Fin base -> (0 < base)%R ->
  Cache.get CellKey_eq_dec (gridCellCache st) (cellKey st) = None ->
  exists xs ys st',
    for_range (Fin 0 - Fin base) (fst (viewportDimensions st) + Fin base)
              (Fin base) = Some xs
    /\ for_range (Fin 0 - Fin base) (snd (viewportDimensions st) + Fin base)
                 (Fin base) = Some ys
    /\ generateGridCells st
       = Some (quads (transformationDomains st) (Fin base) xs ys, st')
    /\ gridCellCache st'
       = Cache.set (gridCellCache st) (cellKey st)
                   (quads (transformationDomains st) (Fin base) xs ys)
    /\ transformationDomains st' = transformationDomains st
    /\ mergedParams st' = mergedParams st
    /\ viewportDimensions st' = viewportDimensions st
    /\ coherent st'.
Proof.
  intros Hcoh Hsize Hbase Hmiss.
  unfold generateGridCells, cellKey in *.
  destruct (viewportDimensions st) as [width height] eqn:Hv.
  cbn [fst snd] in *. rewrite Hmiss, Hsize.
  destruct (for_range_step_positive (Fin 0 - Fin base) (width + Fin base) Hbase)
    as (xs & Hxs & _).
  destruct (for_range_step_positive (Fin 0 - Fin base) (height + Fin base) Hbase)
    as (ys & Hys & _).
  rewrite Hxs, Hys. exists xs, ys.
  destruct xs as [ | gx xs].
  - eexists.
    split; [reflexivity | ]. split; [reflexivity | ].
    split; [reflexivity | ].
    split; [reflexivity | ]. split; [reflexivity | ].
    split; [reflexivity | ]. split; [exact Hv | ].
    now apply coherent_set_gridCellCache.
  - destruct (@cells_outer_quads (transformationDomains st) (Fin base)
                (gx :: xs) ys st Hcoh eq_refl) as (Hq & Hc & Hs).
    destruct (cells_outer st (Fin base) (gx :: xs) ys) as [gridCells st1].
    cbn [fst snd] in *. subst gridCells.
    destruct Hs as (S1 & S2 & S3 & S4 & S5).
    eexists.
    split; [reflexivity | ]. split; [reflexivity | ].
    split; [reflexivity | ].
    split; [cbn; now rewrite S4 | ].
    split; [exact S1 | ]. split; [exact S2 | ].
    split; [cbn; now rewrite S3 | ].
    now apply coherent_set_gridCellCache.
Qed.

(** *** What the registry operations do to the three caches *)

Lemma create_caches (st : State) (c : Point) (r : num) (type : option string)
    (o : Options) (perm : nat -> Z) (now_id now_created : Z) :
  let out := createTransformationDomain st c r type o perm now_id now_created in
  gridCellCache (snd out) = gridCellCache st
  /\ (forall d, fst out = Return d ->
                transformationCache (snd out) = []
                /\ blendingCache (snd out) = [])
  /\ (forall e, fst out = Throw e ->
                transformationCache (snd out) = transformationCache st
                /\ blendingCache (snd out) = blendingCache st).
Proof.
  unfold createTransformationDomain.
  destruct (_ >=? _); destruct (createDomain _ _ _); cbn;
    repeat split; intros; try discriminate; reflexivity.
Qed.

Lemma remove_caches (st : State) (domainId : Z) :
  let out := removeTransformationDomain st domainId in
  gridCellCache (snd out) = gridCellCache st
  /\ (fst out = true ->
      transformationCache (snd out) = [] /\ blendingCache (snd out) = []).
Proof.
  unfold removeTransformationDomain.
  destruct (negb _); cbn; repeat split; intros; try discriminate; reflexivity.
Qed.

Lemma clear_caches (st : State) :
  gridCellCache (clearTransformationDomains st) = gridCellCache st
  /\ transformationCache (clearTransformationDomains st) = []
  /\ blendingCache (clearTransformationDomains st) = [].
Proof. repeat split. Qed.

(** The operations on the viewport and on the parameters do clear the
    grid-cell cache. *)
Lemma viewport_operations_clear (st : State) (a b : num) (merged : Params) :
  gridCellCache (snd (setPanOffset st a b)) = []
  /\ gridCellCache (snd (updateViewportDimensions st a b)) = []
  /\ gridCellCache (updateParameters st merged) = [].
Proof. repeat split. Qed.

(** *** Values at the centre of a domain *)

Lemma blend_single_full (d : Domain) (px py tx ty : R) :
  weightAt d (mkPoint (Fin px) (Fin py)) = Fin 1 ->
  transform d (mkPoint (Fin px) (Fin py)) (Fin 1) = mkPoint (Fin tx) (Fin ty) ->
  blend [d] (mkPoint (Fin px) (Fin py)) = mkPoint (Fin tx) (Fin ty).
Proof.
  intros Hw HT.
  assert (Hflat : flat [d] (mkPoint (Fin px) (Fin py)) = Fin 0).
  { unfold flat, weight_sum. cbn [map]. rewrite nsum_cons, Hw. simpl.
    f_equal. rewrite Rmax_left; lra. }
  assert (Hfil : filter (active (mkPoint (Fin px) (Fin py))) [d] = [d]).
  { cbn [filter]. unfold active. rewrite Hw.
    replace (Fin 1 >? Fin 0) with true; [reflexivity | ].
    symmetry. apply gtb_Fin. lra. }
  unfold blend. rewrite Hflat, Hfil.
  replace (Fin 0 === Fin 1) with false
    by (symmetry; apply eqb_Fin_false; lra).
  cbn [map]. rewrite !nsum_cons, Hw, HT. cbn [nsum fold_right x y]. simpl.
  f_equal; f_equal; ring.
Qed.

Lemma weightAt_origin (d : Domain) (r : R) :
  center d = mkPoint (Fin 0) (Fin 0) -> radius d = Fin r -> (0 < r)%R ->
  weightAt d (mkPoint (Fin 0) (Fin 0)) = Fin 1.
Proof.
  intros Hc Hr Hpos.
  rewrite WeightFacts.weightAt_distance, Hr.
  replace (WeightFacts.distance d (mkPoint (Fin 0) (Fin 0))) with (Fin 0).
  - rewrite WeightFacts.blendingFunctions_profile by lra.
    f_equal. now apply WeightFacts.profile_center.
  - unfold WeightFacts.distance. rewrite Hc. simpl. f_equal.
    replace ((0 - 0) * (0 - 0) + (0 - 0) * (0 - 0))%R with 0%R by ring.
    symmetry. apply sqrt_0.
Qed.

Lemma spherical_at_origin (d : Domain) (r : R) :
  cls d = SphericalDomain ->
  center d = mkPoint (Fin 0) (Fin 0) -> radius d = Fin r -> r <> 0%R ->
  transform d (mkPoint (Fin 0) (Fin 0)) (Fin 1) = mkPoint (Fin 0) (Fin 0).
Proof.
  intros Hk Hc Hr Hne. unfold transform. rewrite Hk, Hc, Hr.
  unfold geometry.stereographicProjection.
  replace (Fin 1 >? Fin 0) with true by (symmetry; apply gtb_Fin; lra).
  unfold complex.abs, complex.fromPoint. cbn [fst x y re im].
  change (Fin 0 - Fin 0) with (Fin (0 - 0)). rewrite !div_Fin by assumption.
  rewrite hypot_Fin.
  set (s := sqrt _). simpl. unfold div.
  destruct (Req_dec_T (1 + s * s) 0) as [E | _].
  - exfalso. nra.
  - simpl. f_equal; f_equal; unfold Rdiv; ring.
Qed.

Lemma cylindrical_at_origin (d : Domain) (r : R) :
  cls d = CylindricalDomain ->
  center d = mkPoint (Fin 0) (Fin 0) -> radius d = Fin r ->
  transform d (mkPoint (Fin 0) (Fin 0)) (Fin 1) = mkPoint (Fin 0) (Fin (- r)).
Proof.
  intros Hk Hc Hr. unfold transform. rewrite Hk, Hc, Hr.
  unfold geometry.cylindricalMapping.
  replace (Fin 1 >? Fin 0) with true by (symmetry; apply gtb_Fin; lra).
  cbn [x y]. simpl. f_equal; f_equal.
  - unfold Math.atan2R.
    destruct (Rlt_dec 0 (0 - 0)); [lra | ].
    destruct (Rlt_dec (0 - 0) 0); [lra | ]. ring.
  - replace ((0 - 0) * (0 - 0) + (0 - 0) * (0 - 0))%R with 0%R by ring.
    rewrite sqrt_0. ring.
Qed.

(** *** A registry change between two calls of [generateGridCells] *)

Import RegistryFacts.

Definition origin : Point := mkPoint (Fin 0) (Fin 0).

(** A 40 by 40 viewport with the default parameters: grid size 20,
    capacity 5. *)
Definition bare : State := initial (Fin 40) (Fin 40) defaultParams.

Definition sphere_request : Request :=
  {| req_center := origin;
     req_radius := Fin 100;
     req_type := None;
     req_options := {| eccentricity := None |};
     req_permutation := fun _ => 0%Z;
     req_now_id := 1;
     req_now_created := 1 |}.

Definition cylinder_request : Request :=
  {| req_center := origin;
     req_radius := Fin 150;
     req_type := Some "cylindrical"%string;
     req_options := {| eccentricity := None |};
     req_permutation := fun _ => 0%Z;
     req_now_id := 2;
     req_now_created := 2 |}.

Definition the_sphere : Domain :=
  set_id (SphericalDomain_new "spherical"
            (ArgObject (domain_config origin (Fin 100)
                                      {| eccentricity := None |}))) 1 1.

Definition the_cylinder : Domain :=
  set_id (CylindricalDomain_new "cylindrical"
            (ArgObject (domain_config origin (Fin 150)
                                      {| eccentricity := None |}))) 2 2.

Definition with_sphere : State := snd (create bare sphere_request).

Lemma truthy_nonzero (r : R) : r <> 0%R -> truthy (Fin r) = true.
Proof. intros H. unfold truthy. now destruct (Req_dec_T r 0). Qed.

Lemma the_sphere_radius : radius the_sphere = Fin 100.
Proof.
  change (radius the_sphere) with (or_default (Some (Fin 100)) (Fin 100)).
  unfold or_default. now rewrite truthy_nonzero by lra.
Qed.

Lemma the_cylinder_radius : radius the_cylinder = Fin 150.
Proof.
  change (radius the_cylinder) with (or_default (Some (Fin 150)) (Fin 100)).
  unfold or_default. now rewrite truthy_nonzero by lra.
Qed.

Lemma blend_sphere_origin : blend [the_sphere] origin = origin.
Proof.
  apply blend_single_full.
  - apply weightAt_origin with (r := 100%R);
      [reflexivity | exact the_sphere_radius | lra].
  - apply spherical_at_origin with (r := 100%R);
      [reflexivity | reflexivity | exact the_sphere_radius | lra].
Qed.

Lemma blend_cylinder_origin :
  blend [the_cylinder] origin = mkPoint (Fin 0) (Fin (- 150)).
Proof.
  apply blend_single_full.
  - apply weightAt_origin with (r := 150%R);
      [reflexivity | exact the_cylinder_radius | lra].
  - apply cylindrical_at_origin;
      [reflexivity | reflexivity | exact the_cylinder_radius].
Qed.

Lemma bare_capacity : capacity_is 5 bare.
Proof. unfold capacity_is. simpl. f_equal. lra. Qed.

Lemma with_sphere_frame :
  transformationDomains with_sphere = [the_sphere]
  /\ mergedParams with_sphere = defaultParams
  /\ viewportDimensions with_sphere = (Fin 40, Fin 40)
  /\ gridCellCache with_sphere = []
  /\ coherent with_sphere.
Proof.
  destruct (@create_frame 5 bare sphere_request
              (SphericalDomain_new "spherical"
                 (ArgObject (domain_config origin (Fin 100)
                                           {| eccentricity := None |})))
              bare_capacity eq_refl)
    as (Hds & Hp & Hv & Hg & Ht & Hb).
  fold with_sphere in Hds, Hp, Hv, Hg, Ht, Hb.
  repeat split; try assumption.
  - intros p bw. rewrite Hb. discriminate.
  - intros p q. rewrite Ht. discriminate.
Qed.

(** C3 (what the code does): the grid cells computed while the registry
    holds a spherical domain are still served after that domain has been
    removed and a cylindrical domain created.  Neither mutation touches the
    grid-cell cache, and the key of the cache (viewport, grid size, number
    of domains) is the same before and after.  The cell that has the origin
    as its third corner still shows it at the origin, where the registry now
    sends it to (0, -150). *)
Theorem C3_stale_grid_cells :
  exists cells st2,
    generateGridCells with_sphere = Some (cells, st2)
    /\ (let st3 := snd (removeTransformationDomain st2 1) in
        let st4 := snd (create st3 cylinder_request) in
        fst (removeTransformationDomain st2 1) = true
        /\ transformationDomains st4 = [the_cylinder]
        /\ generateGridCells st4 = Some (cells, st4)
        /\ (exists c rest,
              cells = c :: rest
              /\ nth_error (original c) 2 = Some origin
              /\ nth_error (transformed c) 2 = Some origin)
        /\ fst (transformPoint st4 origin) = mkPoint (Fin 0) (Fin (- 150))).
Proof.
  destruct with_sphere_frame as (Hds & Hp & Hv & Hg & Hcoh).
  assert (Hsize : size (grid (mergedParams with_sphere)) = Fin 20)
    by now rewrite Hp.
  assert (Hmiss : Cache.get CellKey_eq_dec (gridCellCache with_sphere)
                            (cellKey with_sphere) = None)
    by now rewrite Hg.
  assert (H20 : (0 < 20)%R) by lra.
  destruct (generateGridCells_miss Hcoh Hsize H20 Hmiss)
    as (xs & ys & st2 & Hxs & Hys & Hgen & Hg2 & Hds2 & Hp2 & Hv2 & Hcoh2).
  rewrite Hv in Hxs, Hys. cbn [fst snd] in Hxs, Hys.
  rewrite Hds in Hgen, Hg2.
  assert (Hlt : (Fin 0 - Fin 20 <? Fin 40 + Fin 20) = true)
    by (apply ltb_Fin; lra).
  destruct (for_range_step_positive (Fin 0 - Fin 20) (Fin 40 + Fin 20) H20)
    as (vs & Hvs & Hfirst).
  destruct (Hfirst Hlt) as (rest & ->).
  assert (Hx : xs = (Fin 0 - Fin 20) :: rest) by congruence.
  assert (Hy : ys = (Fin 0 - Fin 20) :: rest) by congruence.
  exists (quads [the_sphere] (Fin 20) xs ys), st2.
  split; [exact Hgen | ].
  cbn zeta.
  destruct (remove_frame st2 1) as (Hds3 & Hp3 & Hv3 & Hg3).
  rewrite Hds2, Hds in Hds3.
  change (filter (id_differs 1) [the_sphere]) with (@nil Domain) in Hds3.
  set (st3 := snd (removeTransformationDomain st2 1)) in *.
  assert (Hcap3 : capacity_is 5 st3).
  { unfold capacity_is. rewrite Hp3, Hp2, Hp. simpl. f_equal. lra. }
  destruct (@create_frame 5 st3 cylinder_request
              (CylindricalDomain_new "cylindrical"
                 (ArgObject (domain_config origin (Fin 150)
                                           {| eccentricity := None |})))
              Hcap3 eq_refl)
    as (Hds4 & Hp4 & Hv4 & Hg4 & Ht4 & Hb4).
  rewrite Hds3 in Hds4.
  set (st4 := snd (create st3 cylinder_request)) in *.
  change (transformationDomains st4 = [the_cylinder]) in Hds4.
  assert (Hcoh4 : coherent st4) by now apply coherent_cleared.
  split.
  { unfold removeTransformationDomain. rewrite Hds2, Hds. reflexivity. }
  split; [exact Hds4 | ].
  split.
  { apply generateGridCells_hit.
    rewrite Hg4, Hg3, Hg2.
    assert (Hk : cellKey st4 = cellKey with_sphere).
    { unfold cellKey. now rewrite Hv4, Hv3, Hv2, Hp4, Hp3, Hp2, Hds4, Hds. }
    rewrite Hk. unfold Cache.set. cbn [Cache.get].
    destruct (CellKey_eq_dec (cellKey with_sphere) (cellKey with_sphere));
      [reflexivity | contradiction]. }
  split.
  { rewrite Hx, Hy. unfold quads. cbn [flat_map map app].
    eexists. eexists. split; [reflexivity | ].
    assert (Hc : mkPoint (Fin 0 - Fin 20 + Fin 20) (Fin 0 - Fin 20 + Fin 20)
                 = origin)
      by (unfold origin; simpl; f_equal; f_equal; lra).
    unfold quad. cbn [original transformed map nth_error].
    rewrite Hc. split; [reflexivity | ]. now rewrite blend_sphere_origin. }
  destruct (transformPoint_blend origin Hcoh4) as (Hb & _).
  rewrite Hb, Hds4. apply blend_cylinder_origin.
Qed.

(** *** The fuel of [for_range] is enough *)

Lemma for_loop_NaN (fuel : nat) (stop step : num) :
  for_loop fuel NaN stop step = [].
Proof. now destruct fuel. Qed.

Lemma for_loop_enough (stop step : R) :
  (0 < step)%R ->
  forall (fuel : nat) (v : R),
    (Z.to_nat (Zceil ((stop - v) / step)) < fuel)%nat ->
    forall k,
      for_loop (fuel + k) (Fin v) (Fin stop) (Fin step)
      = for_loop fuel (Fin v) (Fin stop) (Fin step).
Proof.
  intros Hstep. induction fuel as [ | fuel IH]; intros v Hn k; [lia | ].
  cbn [Nat.add for_loop].
  destruct (Fin v <? Fin stop) eqn:Hlt; [ | reflexivity].
  apply ltb_Fin in Hlt. f_equal.
  change (Fin v + Fin step) with (Fin (v + step)). apply IH.
  assert (Hq : ((stop - (v + step)) / step = (stop - v) / step + IZR (- 1))%R)
    by (simpl; field; lra).
  rewrite Hq, Zceil_addz.
  assert (0 < (stop - v) / step)%R
    by (apply Rdiv_lt_0_compat; lra).
  assert (1 <= Zceil ((stop - v) / step))%Z.
  { pose proof (Zceil_bound ((stop - v) / step)) as [_ Hb].
    assert (0 < IZR (Zceil ((stop - v) / step)))%R by lra.
    apply lt_IZR in H0. lia. }
  lia.
Qed.

(** Whatever fuel is added to the fuel [for_range] gives the loop, the
    values are the same: the loop has ended by its test. *)
Lemma for_loop_fuel (start stop step : num) (vs : list num) (k : nat) :
  for_range start stop step = Some vs ->
  for_loop (S (iterations ((stop - start) / step)) + k) start stop step = vs.
Proof.
  unfold for_range.
  destruct ((start <? stop) && (step <=? Fin 0)) eqn:Hdiv; [discriminate | ].
  intros H. injection H as <-.
  destruct (start <? stop) eqn:Hlt.
  - destruct start as [a | ], stop as [b | ]; try discriminate.
    destruct step as [s | ].
    + cbn [andb] in Hdiv. apply leb_Fin_false in Hdiv.
      transitivity (for_loop (S (iterations ((Fin b - Fin a) / Fin s)))
                             (Fin a) (Fin b) (Fin s));
        [ | cbn [for_loop]; now rewrite Hlt].
      apply for_loop_enough; [assumption | ].
      change (Fin b - Fin a) with (Fin (b - a)). rewrite div_Fin by lra.
      cbn [iterations]. lia.
    + cbn [Nat.add for_loop]. rewrite Hlt.
      change (Fin a + NaN) with NaN. now rewrite !for_loop_NaN.
  - cbn [Nat.add for_loop]. now rewrite Hlt.
Qed.

(** *** Two overlapping domains, and a noise domain, under the legacy path *)

Import LegacyFacts.

(** A spherical domain of radius 100 around (50, 0). *)
Definition offset_disc : Domain :=
  set_id (SphericalDomain_new "spherical"
            (ArgObject (domain_config halfway (Fin 100)
                                      {| eccentricity := None |})))
         3 3.

(** The noise domain the registry builds, whatever it is asked for. *)
Definition the_noise : Domain :=
  set_id (FactoryFacts.default_domain "noise" (fun _ => 0%Z)) 4 4.

Lemma offset_disc_radius : radius offset_disc = Fin 100.
Proof.
  change (radius offset_disc) with (or_default (Some (Fin 100)) (Fin 100)).
  unfold or_default. now rewrite truthy_nonzero by lra.
Qed.

Lemma offset_disc_weight : weightAt offset_disc halfway = Fin 1.
Proof.
  rewrite WeightFacts.weightAt_distance, offset_disc_radius.
  replace (WeightFacts.distance offset_disc halfway) with (Fin 0).
  - change (blendMode offset_disc) with smooth.
    rewrite WeightFacts.blendingFunctions_profile by lra.
    f_equal. apply WeightFacts.profile_center. lra.
  - symmetry. apply (WeightFacts.distance_center offset_disc); exact I.
Qed.

Lemma offset_disc_transform :
  transform offset_disc halfway (Fin 1) = halfway.
Proof.
  unfold transform. change (cls offset_disc) with SphericalDomain.
  rewrite offset_disc_radius. change (center offset_disc) with halfway.
  unfold geometry.stereographicProjection.
  replace (Fin 1 >? Fin 0) with true by (symmetry; apply gtb_Fin; lra).
  unfold complex.abs, complex.fromPoint, halfway. cbn [fst x y re im].
  change (Fin 50 - Fin 50) with (Fin (50 - 50)).
  change (Fin 0 - Fin 0) with (Fin (0 - 0)).
  rewrite !div_Fin by lra. rewrite hypot_Fin.
  set (s := sqrt _). simpl. unfold div.
  destruct (Req_dec_T (1 + s * s) 0) as [E | _].
  - exfalso. nra.
  - simpl. f_equal; f_equal; unfold Rdiv; ring.
Qed.

Lemma unit_disc_transform :
  transform unit_disc halfway (Fin 1) = mkPoint (Fin 80) (Fin 0).
Proof.
  unfold transform. change (cls unit_disc) with SphericalDomain.
  rewrite unit_disc_radius. change (center unit_disc) with origin.
  unfold geometry.stereographicProjection.
  replace (Fin 1 >? Fin 0) with true by (symmetry; apply gtb_Fin; lra).
  unfold complex.abs, complex.fromPoint, halfway, origin. cbn [fst x y re im].
  change (Fin 50 - Fin 0) with (Fin (50 - 0)).
  change (Fin 0 - Fin 0) with (Fin (0 - 0)).
  rewrite !div_Fin by lra. rewrite hypot_Fin.
  replace (sqrt ((50 - 0) / 100 * ((50 - 0) / 100)
                 + (0 - 0) / 100 * ((0 - 0) / 100)))%R
    with (1 / 2)%R.
  - simpl. unfold div.
    destruct (Req_dec_T (1 + 1 / 2 * (1 / 2)) 0) as [E | _]; [lra | ].
    simpl. f_equal; f_equal; field.
  - replace ((50 - 0) / 100 * ((50 - 0) / 100)
             + (0 - 0) / 100 * ((0 - 0) / 100))%R
      with (1 / 2 * (1 / 2))%R by field.
    symmetry. apply sqrt_square. lra.
Qed.

Lemma the_noise_weight : weightAt the_noise halfway = Fin (1 / 2).
Proof.
  rewrite WeightFacts.weightAt_distance.
  change (radius the_noise) with (Fin 100).
  change (blendMode the_noise) with smooth.
  replace (WeightFacts.distance the_noise halfway) with (Fin 50).
  - rewrite WeightFacts.blendingFunctions_profile by lra.
    f_equal. unfold WeightFacts.profile.
    rewrite Rmin_right by lra.
    replace (PI * (50 / 100))%R with (PI / 2)%R by field.
    rewrite cos_PI2. lra.
  - unfold WeightFacts.distance. simpl. f_equal.
    replace ((50 - 0) * (50 - 0) + (0 - 0) * (0 - 0))%R with (50 * 50)%R by ring.
    symmetry. apply sqrt_square. lra.
Qed.

(** C10 (as stated) fails in two ways.  With two domains, one of weight 1/2
    and one of weight 1 at the point, exactly one weight is strictly between
    0 and 1, and the legacy path returns (60, 0), not the transform (80, 0)
    of that one domain.  With one noise domain of weight 1/2, the legacy
    path and the engine both return (NaN, NaN), though the transform does
    not fix the point. *)
Lemma C10_overlap_counterexample :
  (weightAt unit_disc halfway = Fin (1 / 2)
   /\ weightAt offset_disc halfway = Fin 1
   /\ transform unit_disc halfway (Fin 1) = mkPoint (Fin 80) (Fin 0)
   /\ DeformationManager.transformPoint
        {| DeformationManager.domains := [unit_disc; offset_disc];
           DeformationManager.blendMode := Some smooth |} halfway
      = mkPoint (Fin 60) (Fin 0))
  /\ (weightAt the_noise halfway = Fin (1 / 2)
      /\ transform the_noise halfway (Fin 1) <> halfway
      /\ DeformationManager.transformPoint
           {| DeformationManager.domains := [the_noise];
              DeformationManager.blendMode := Some smooth |} halfway
         = mkPoint NaN NaN
      /\ fst (transformPoint (set_domains RegistryFacts.fresh [the_noise]) halfway)
         = mkPoint NaN NaN).
Proof.
  assert (Hn : forall q dir, transform the_noise q dir = mkPoint NaN NaN)
    by (intros; eapply FactoryFacts.transform_noise; reflexivity).
  assert (Hact : forall d w, weightAt d halfway = Fin w -> (0 < w)%R ->
                             active halfway d = true)
    by (intros d w Hw Hpos; unfold active; rewrite Hw; apply gtb_Fin; lra).
  split.
  - split; [exact unit_disc_weight | ].
    split; [exact offset_disc_weight | ].
    split; [exact unit_disc_transform | ].
    rewrite transformPoint_legacy_blend. unfold legacy_blend.
    cbn [DeformationManager.domains filter].
    rewrite (Hact _ _ unit_disc_weight) by lra.
    rewrite (Hact _ _ offset_disc_weight) by lra.
    cbn [map]. rewrite !nsum_cons.
    rewrite unit_disc_weight, offset_disc_weight, unit_disc_transform,
      offset_disc_transform.
    unfold halfway. cbn [x y nsum fold_right]. simpl. unfold div.
    destruct (Req_dec_T (1 / 2 + (1 + 0)) 0) as [E | _]; [lra | ].
    f_equal; f_equal; field.
  - split; [exact the_noise_weight | ].
    split; [rewrite Hn; discriminate | ].
    split.
    + rewrite transformPoint_legacy_blend. unfold legacy_blend.
      cbn [DeformationManager.domains filter].
      rewrite (Hact _ _ the_noise_weight) by lra.
      cbn [map]. rewrite !nsum_cons, Hn. reflexivity.
    + destruct (@transformPoint_blend
                  (set_domains RegistryFacts.fresh [the_noise]) halfway)
        as (Hb & _); [now apply coherent_cleared | ].
      rewrite Hb. cbn [transformationDomains set_domains].
      change [the_noise] with ([] ++ [the_noise])%list.
      rewrite (@one_active_blend halfway the_noise [] [] (1 / 2));
        [ | constructor | constructor | exact the_noise_weight | lra].
      rewrite Hn. reflexivity.
Qed.

End GridCellFacts.

(** ** The states the module goes through

    The hypotheses of the results above (coherent caches, registered
    domains) hold in every state that the public operations lead to, as
    long as each operation returns.  A creation that throws on a full
    registry is left out: it evicts and clears no cache (see [StaleFacts]).
    So is a creation of type ['constructor'], which returns in the source
    and throws in the model (see [DomainFactory.constructorMap]). *)

Module ReachableFacts.

Import AdaptiveGrid CopyFacts BlendFacts RegistryFacts GridCellFacts.

Inductive step : State -> State -> Prop :=
| step_create st req d st' :
    type_of req <> "constructor"%string ->
    create st req = (Return d, st') -> step st st'
| step_remove st domainId :
    step st (snd (removeTransformationDomain st domainId))
| step_clear st :
    step st (clearTransformationDomains st)
| step_transform st point :
    step st (snd (transformPoint st point))
| step_cells st cells st' :
    generateGridCells st = Some (cells, st') -> step st st'
| step_snap st point rand_inverse rand_size :
    step st (snd (snapToGrid st point rand_inverse rand_size))
| step_zoom st newZoomLevel :
    step st (snd (setZoomLevel st newZoomLevel))
| step_pan st px py :
    step st (snd (setPanOffset st px py))
| step_viewport st width height :
    step st (snd (updateViewportDimensions st width height))
| step_parameters st merged :
    step st (updateParameters st merged).

Inductive reachable (width height : num) (params : Params) : State -> Prop :=
| reachable_initial : reachable width height params (initial width height params)
| reachable_step st st' :
    reachable width height params st -> step st st' ->
    reachable width height params st'.

Definition invariant (st : State) : Prop :=
  coherent st /\ Forall registered (transformationDomains st).

Lemma filter_all {A : Type} (f : A -> bool) (l : list A) :
  List.length (filter f l) = List.length l -> filter f l = l.
Proof.
  induction l as [ | a l IH]; [reflexivity | ].
  cbn [filter]. destruct (f a); cbn [List.length]; intros H.
  - f_equal. apply IH. lia.
  - pose proof (filter_length_le f l). lia.
Qed.

Lemma remove_invariant (st : State) (domainId : Z) :
  invariant st -> invariant (snd (removeTransformationDomain st domainId)).
Proof.
  intros [Hcoh Hreg]. split; [ | now apply remove_registered].
  unfold removeTransformationDomain.
  destruct (List.length (transformationDomains st)
            =? List.length
                 (transformationDomains
                    (set_domains st
                       (filter (id_differs domainId) (transformationDomains st)))))%nat
    eqn:E; cbn [negb snd].
  - apply Nat.eqb_eq in E. cbn in E. symmetry in E. apply filter_all in E.
    destruct Hcoh as [Hb Ht]. split; cbn; rewrite E; assumption.
  - now apply coherent_cleared.
Qed.

Lemma cells_invariant (st st' : State) (cells : list Cell) :
  generateGridCells st = Some (cells, st') -> invariant st -> invariant st'.
Proof.
  intros Hgen [Hcoh Hreg]. unfold generateGridCells in Hgen.
  destruct (viewportDimensions st) as [width height].
  destruct (Cache.get _ _ _) as [cached | ].
  { injection Hgen as _ <-. now split. }
  destruct (for_range _ _ _) as [[ | gx xs] | ]; [ | | discriminate].
  { injection Hgen as _ <-. split; [ | exact Hreg].
    now apply coherent_set_gridCellCache. }
  destruct (for_range _ _ _) as [ys | ]; [ | discriminate].
  destruct (@cells_outer_quads (transformationDomains st)
              (size (grid (mergedParams st))) (gx :: xs) ys st Hcoh eq_refl)
    as (_ & Hc & Hs).
  destruct (cells_outer st _ (gx :: xs) ys) as [gridCells st1].
  cbn [snd] in *. injection Hgen as _ <-.
  split; [now apply coherent_set_gridCellCache | ].
  cbn. destruct Hs as (-> & _). exact Hreg.
Qed.

Lemma transform_invariant (st : State) (point : Point) :
  invariant st -> invariant (snd (transformPoint st point)).
Proof.
  intros [Hcoh Hreg]. destruct (transformPoint_blend point Hcoh) as (_ & Hc & Hs).
  split; [exact Hc | ]. destruct Hs as (-> & _). exact Hreg.
Qed.

Lemma snap_invariant (st : State) (point : Point)
    (rand_inverse rand_size : nat -> nat -> Z) :
  invariant st -> invariant (snd (snapToGrid st point rand_inverse rand_size)).
Proof.
  intros Hinv. unfold snapToGrid, Snapping.snapTransformedPoint, Eff.bind, Eff.ret.
  destruct (negb _); [exact Hinv | ].
  destruct (negb _ || _); [exact Hinv | ].
  destruct (inverseTransformPoint st point rand_inverse) as [o | e];
    [ | exact Hinv].
  destruct (calculateEffectiveGridSize st o rand_size) as [g | e];
    [ | exact Hinv].
  pose proof (transform_invariant
                (Snapping.snapToGridPoint (snapSettings st) o g) Hinv) as H.
  now destruct (transformPoint st _).
Qed.

Lemma step_invariant (st st' : State) :
  step st st' -> invariant st -> invariant st'.
Proof.
  intros Hstep Hinv. destruct Hstep.
  - destruct Hinv as [_ Hreg].
    pose proof (@create_registered st req Hreg) as Hreg'.
    destruct (create_caches st (req_center req) (req_radius req) (req_type req)
                (req_options req) (req_permutation req) (req_now_id req)
                (req_now_created req)) as (_ & Hret & _).
    fold (create st req) in Hret. rewrite H0 in *. cbn [fst snd] in *.
    destruct (Hret d eq_refl) as [Ht Hb].
    split; [now apply coherent_cleared | exact Hreg'].
  - now apply remove_invariant.
  - split; [now apply coherent_cleared | constructor].
  - now apply transform_invariant.
  - now apply cells_invariant with st cells.
  - now apply snap_invariant.
  - destruct Hinv as [[Hb Ht] Hreg]. unfold setZoomLevel.
    destruct (_ === _)%num; cbn; repeat split; assumption.
  - destruct Hinv as [[Hb Ht] Hreg]. repeat split; assumption.
  - destruct Hinv as [[Hb Ht] Hreg]. repeat split; assumption.
  - destruct Hinv as [[Hb Ht] Hreg]. repeat split; assumption.
Qed.

(** Every state reached through operations that return has coherent
    forward-transform and blend-weight caches and a registry of registered
    domains. *)
Lemma reachable_invariant (width height : num) (params : Params) (st : State) :
  reachable width height params st -> invariant st.
Proof.
  induction 1 as [ | st st' _ IH Hstep].
  - split; [now apply coherent_cleared | constructor].
  - now apply step_invariant with st.
Qed.

End ReachableFacts.

(** ** A creation that throws leaves stale values behind

    [createTransformationDomain] evicts before it asks the factory for the
    domain, and clears the two point caches only after the factory has
    returned.  A creation of an unknown type on a full registry therefore
    changes the registry and clears nothing, and the values cached for the
    registry as it was are still served. *)

Module StaleFacts.

Import AdaptiveGrid CopyFacts RegistryFacts BlendFacts GridSizeFacts SnapFacts
       GridCellFacts.

Local Open Scope string_scope.

(** Grid size 10 and room for one domain. *)
Definition tight : Params :=
  {| grid := {| size := Fin 10; showGrid := true; grid_snapToGrid := true |};
     transformations := {| tr_blendMode := smooth;
                           defaultRadius := Fin 150;
                           maxActiveDomains := Fin 1;
                           tr_regularizationFactor := Fin (1 / 1000) |} |}.

Definition narrow : State := initial (Fin 800) (Fin 600) tight.

Definition ten : Point := mkPoint (Fin 10) (Fin 10).

Definition seven : Point := mkPoint (Fin 7) (Fin 7).

Definition cylinder_at_ten : Request :=
  {| req_center := ten;
     req_radius := Fin 150;
     req_type := Some "cylindrical";
     req_options := {| eccentricity := None |};
     req_permutation := fun _ => 0%Z;
     req_now_id := 1;
     req_now_created := 1 |}.

(** ['flat'] is one of the [DOMAIN_TYPES], and no type of the factory. *)
Definition flat_at_origin : Request :=
  {| req_center := mkPoint (Fin 0) (Fin 0);
     req_radius := Fin 100;
     req_type := Some "flat";
     req_options := {| eccentricity := None |};
     req_permutation := fun _ => 0%Z;
     req_now_id := 2;
     req_now_created := 2 |}.

Definition the_cylinder_at_ten : Domain :=
  set_id (CylindricalDomain_new "cylindrical"
            (ArgObject (domain_config ten (Fin 150) {| eccentricity := None |})))
         1 1.

(** The registry holds the cylinder. *)
Definition with_cylinder : State := snd (create narrow cylinder_at_ten).

(** The point (10, 10) has been transformed, and its image cached. *)
Definition transformed_once : State := snd (transformPoint with_cylinder ten).

(** The creation of a ['flat'] domain has thrown. *)
Definition after_throw : State := snd (create transformed_once flat_at_origin).

Lemma transformPoint_stored (st : State) (point : Point) :
  Cache.get Point_eq_dec (transformationCache (snd (transformPoint st point)))
            point
  = Some (fst (transformPoint st point)).
Proof.
  unfold transformPoint.
  destruct (Cache.get Point_eq_dec (transformationCache st) point)
    as [cached | ] eqn:E.
  - exact E.
  - destruct (calculateBlendingWeights st point) as [weights st1].
    destruct (flatWeight weights === Fin 1)%num.
    + cbn. now destruct (Point_eq_dec point point).
    + destruct (fold_left _ _ _) as [resultX resultY].
      cbn. now destruct (Point_eq_dec point point).
Qed.

Lemma transformPoint_hit (st : State) (point cached : Point) :
  Cache.get Point_eq_dec (transformationCache st) point = Some cached ->
  transformPoint st point = (cached, st).
Proof. intros H. unfold transformPoint. now rewrite H. Qed.

Lemma narrow_capacity : capacity_is 1 narrow.
Proof. reflexivity. Qed.

Lemma the_cylinder_at_ten_radius : radius the_cylinder_at_ten = Fin 150.
Proof.
  change (radius the_cylinder_at_ten)
    with (or_default (Some (Fin 150)) (Fin 100)).
  unfold or_default. now rewrite truthy_nonzero by lra.
Qed.

Lemma blend_cylinder_ten :
  blend [the_cylinder_at_ten] ten = mkPoint (Fin 0) (Fin (- 150)).
Proof.
  apply blend_single_full.
  - rewrite WeightFacts.weightAt_distance, the_cylinder_at_ten_radius.
    change (mkPoint (Fin 10) (Fin 10)) with (center the_cylinder_at_ten).
    rewrite WeightFacts.distance_center by exact I.
    rewrite WeightFacts.blendingFunctions_profile by lra.
    f_equal. apply WeightFacts.profile_center. lra.
  - unfold transform.
    change (cls the_cylinder_at_ten) with CylindricalDomain.
    rewrite the_cylinder_at_ten_radius.
    change (center the_cylinder_at_ten) with ten.
    unfold geometry.cylindricalMapping.
    replace (Fin 1 >? Fin 0)%num with true by (symmetry; apply gtb_Fin; lra).
    cbn [x y ten]. simpl. f_equal; f_equal.
    + unfold Math.atan2R.
      destruct (Rlt_dec 0 (10 - 10)); [lra | ].
      destruct (Rlt_dec (10 - 10) 0); [lra | ]. ring.
    + replace ((10 - 10) * (10 - 10) + (10 - 10) * (10 - 10))%R with 0%R by ring.
      rewrite sqrt_0. ring.
Qed.

Lemma with_cylinder_frame :
  (exists d, fst (create narrow cylinder_at_ten) = Return d)
  /\ transformationDomains with_cylinder = [the_cylinder_at_ten]
  /\ mergedParams with_cylinder = tight
  /\ snapSettings with_cylinder = Snapping.defaultSettings
  /\ coherent with_cylinder.
Proof.
  destruct (@create_frame 1 narrow cylinder_at_ten
              (CylindricalDomain_new "cylindrical"
                 (ArgObject (domain_config ten (Fin 150)
                                           {| eccentricity := None |})))
              narrow_capacity eq_refl)
    as (Hds & Hp & _ & _ & Ht & Hb).
  fold with_cylinder in Hds, Hp, Ht, Hb.
  split; [ | split; [exact Hds | split; [exact Hp | split ] ] ].
  - unfold create, createTransformationDomain.
    destruct (_ >=? _)%num; eexists; reflexivity.
  - unfold with_cylinder, create, createTransformationDomain.
    destruct (_ >=? _)%num; reflexivity.
  - now apply coherent_cleared.
Qed.

Lemma transformed_once_frame :
  fst (transformPoint with_cylinder ten) = mkPoint (Fin 0) (Fin (- 150))
  /\ transformationDomains transformed_once = [the_cylinder_at_ten]
  /\ mergedParams transformed_once = tight
  /\ snapSettings transformed_once = Snapping.defaultSettings
  /\ Cache.get Point_eq_dec (transformationCache transformed_once) ten
     = Some (mkPoint (Fin 0) (Fin (- 150))).
Proof.
  destruct with_cylinder_frame as (_ & Hds & Hp & Hs & Hco).
  destruct (transformPoint_blend ten Hco) as (Hb & _ & S1 & S2 & _ & _ & S5).
  fold transformed_once in S1, S2, S5.
  rewrite Hds, blend_cylinder_ten in Hb.
  split; [exact Hb | ].
  split; [now rewrite S1 | ]. split; [now rewrite S2 | ].
  split; [now rewrite S5 | ].
  unfold transformed_once. now rewrite transformPoint_stored, Hb.
Qed.

Lemma after_throw_frame :
  (exists e, fst (create transformed_once flat_at_origin) = Throw e)
  /\ transformationDomains after_throw = []
  /\ mergedParams after_throw = tight
  /\ snapSettings after_throw = Snapping.defaultSettings
  /\ Cache.get Point_eq_dec (transformationCache after_throw) ten
     = Some (mkPoint (Fin 0) (Fin (- 150))).
Proof.
  destruct transformed_once_frame as (_ & Hds & Hp & Hs & Hc).
  assert (Hcap : capacity_is 1 transformed_once).
  { unfold capacity_is. now rewrite Hp. }
  assert (Hbad : ~ valid flat_at_origin) by (intros H; now apply H).
  destruct (create_throw Hcap Hbad) as (e & He).
  unfold after_throw. rewrite He. cbn [fst snd]. rewrite Hds.
  split; [now exists e | ]. repeat split; assumption.
Qed.

(** C1 (what the code does): with room for one domain, a cylindrical domain
    is created around (10, 10) and the point (10, 10) transformed, to
    (0, -150); then the creation of a ['flat'] domain throws.  The registry is
    now empty, the flat weight at (10, 10) is 1 and the blend is the point
    itself, but [transformPoint] still returns (0, -150).  Had the registry
    been emptied by [clearTransformationDomains] instead, the point would
    be returned unchanged. *)
Theorem C1_stale_after_failed_creation :
  (exists d, fst (create narrow cylinder_at_ten) = Return d)
  /\ fst (transformPoint with_cylinder ten) = mkPoint (Fin 0) (Fin (- 150))
  /\ (exists e, fst (create transformed_once flat_at_origin) = Throw e)
  /\ transformationDomains after_throw = []
  /\ flat (transformationDomains after_throw) ten = Fin 1
  /\ blend (transformationDomains after_throw) ten = ten
  /\ fst (transformPoint after_throw ten) = mkPoint (Fin 0) (Fin (- 150))
  /\ fst (transformPoint after_throw ten)
     <> blend (transformationDomains after_throw) ten
  /\ fst (transformPoint (clearTransformationDomains transformed_once) ten) = ten.
Proof.
  destruct with_cylinder_frame as (Hret & _).
  destruct transformed_once_frame as (Hfirst & _).
  destruct after_throw_frame as (Hthrow & Hds & _ & _ & Hc).
  split; [exact Hret | ]. split; [exact Hfirst | ]. split; [exact Hthrow | ].
  split; [exact Hds | ]. rewrite Hds.
  assert (Hstale : fst (transformPoint after_throw ten)
                   = mkPoint (Fin 0) (Fin (- 150)))
    by now rewrite (transformPoint_hit _ _ Hc).
  split.
  { unfold flat, weight_sum. cbn [map nsum fold_right]. simpl. f_equal.
    rewrite Rmax_right; lra. }
  split; [apply blend_empty | ].
  split; [exact Hstale | ].
  split.
  { rewrite Hstale, blend_empty. unfold ten. intros H.
    injection H as H _. lra. }
  destruct (@transformPoint_blend
              (clearTransformationDomains transformed_once) ten) as (Hb & _).
  - now apply coherent_cleared.
  - rewrite Hb. apply blend_empty.
Qed.

(** C9 (what the code does): in the state the failed creation leaves, the
    registry is empty, the grid size is 10 and snapping is on, and
    [snapToGrid] sends (7, 7) to (0, -150): the point is rounded to
    (10, 10), as specified, and the forward transform of (10, 10) is taken
    from the cache.  The module as created, and the module after
    [clearTransformationDomains], send (7, 7) to (10, 10). *)
Theorem C9_stale_snap (rand_inverse rand_size : nat -> nat -> Z) :
  transformationDomains after_throw = []
  /\ size (grid (mergedParams after_throw)) = Fin 10
  /\ grid_snapToGrid (grid (mergedParams after_throw)) = true
  /\ snapping_on (snapSettings after_throw)
  /\ inverseTransformPoint after_throw seven rand_inverse = Return seven
  /\ calculateEffectiveGridSize after_throw seven rand_size = Return (Fin 10)
  /\ Snapping.snapToGridPoint (snapSettings after_throw) seven (Fin 10) = ten
  /\ fst (snapToGrid after_throw seven rand_inverse rand_size)
     = Return (mkPoint (Fin 0) (Fin (- 150)))
  /\ fst (snapToGrid narrow seven rand_inverse rand_size) = Return ten
  /\ fst (snapToGrid (clearTransformationDomains transformed_once) seven
                     rand_inverse rand_size)
     = Return ten.
Proof.
  destruct after_throw_frame as (_ & Hds & Hp & Hs & Hc).
  destruct transformed_once_frame as (_ & _ & Hp1 & Hs1 & _).
  assert (Hon : snapping_on Snapping.defaultSettings)
    by (split; [reflexivity | discriminate]).
  assert (Hinv : inverseTransformPoint after_throw seven rand_inverse
                 = Return seven).
  { rewrite inverseTransformPoint_compose by (rewrite Hds; constructor).
    now rewrite Hds. }
  assert (Hsize : calculateEffectiveGridSize after_throw seven rand_size
                  = Return (Fin 10)).
  { rewrite calculateEffectiveGridSize_spec by (rewrite Hds; constructor).
    rewrite Hds, Hp. simpl. f_equal. f_equal. rewrite Rmax_right; lra. }
  assert (Hround : mkPoint (snap_coordinate (x seven) (Fin 10))
                           (snap_coordinate (y seven) (Fin 10)) = ten).
  { unfold seven, ten. cbn [x y]. now rewrite snap_7_10. }
  assert (Hfresh : forall st,
            transformationDomains st = [] -> mergedParams st = tight ->
            snapSettings st = Snapping.defaultSettings -> coherent st ->
            fst (snapToGrid st seven rand_inverse rand_size) = Return ten).
  { intros st Hd Hm Hset Hco.
    destruct (@snap_coherent st rand_inverse rand_size) as (H & _);
      try assumption.
    - now rewrite Hm.
    - now rewrite Hm.
    - now rewrite Hset. }
  split; [exact Hds | ]. split; [now rewrite Hp | ]. split; [now rewrite Hp | ].
  split; [now rewrite Hs | ]. split; [exact Hinv | ]. split; [exact Hsize | ].
  split.
  { rewrite Hs. unfold Snapping.snapToGridPoint. cbn [negb orb Snapping.enabled
      Snapping.mode Snapping.defaultSettings Snapping.is_none].
    exact Hround. }
  split.
  { unfold snapToGrid. rewrite Hp. cbn [grid grid_snapToGrid tight negb].
    rewrite (@snapTransformedPoint_on State (snapSettings after_throw) seven
               _ _ _ after_throw after_throw after_throw seven (Fin 10));
      [ | now rewrite Hs | now rewrite Hinv | now rewrite Hsize].
    rewrite Hround. now rewrite (transformPoint_hit _ _ Hc). }
  split.
  { apply Hfresh; try reflexivity. now apply coherent_cleared. }
  apply Hfresh.
  - reflexivity.
  - exact Hp1.
  - exact Hs1.
  - now apply coherent_cleared.
Qed.

(** *** The stale value can be the value of the legacy path

    With room for two domains, the same spherical domain is registered
    twice and the point (50, 0), where each has weight 1/2, is transformed:
    the flat weight is 0 and the blend is (80, 0).  A creation that throws
    then evicts one of the two.  For the one domain left, the engine's blend
    is (65, 0) and the legacy path gives the domain's transform, (80, 0);
    but the engine still returns the cached (80, 0). *)

Definition roomy : Params :=
  {| grid := grid defaultParams;
     transformations := {| tr_blendMode := smooth;
                           defaultRadius := Fin 150;
                           maxActiveDomains := Fin 2;
                           tr_regularizationFactor := Fin (1 / 1000) |} |}.

Definition disc_request : Request :=
  {| req_center := mkPoint (Fin 0) (Fin 0);
     req_radius := Fin 100;
     req_type := None;
     req_options := {| eccentricity := None |};
     req_permutation := fun _ => 0%Z;
     req_now_id := 0;
     req_now_created := 0 |}.

Definition two_discs : State :=
  snd (create (snd (create (initial (Fin 800) (Fin 600) roomy) disc_request))
              disc_request).

Definition one_disc_left : State :=
  snd (create (snd (transformPoint two_discs LegacyFacts.halfway)) flat_at_origin).

Lemma blend_two_discs :
  blend [LegacyFacts.unit_disc; LegacyFacts.unit_disc] LegacyFacts.halfway
  = mkPoint (Fin 80) (Fin 0).
Proof.
  assert (Hact : active LegacyFacts.halfway LegacyFacts.unit_disc = true).
  { unfold active. rewrite LegacyFacts.unit_disc_weight. apply gtb_Fin. lra. }
  assert (Hflat : flat [LegacyFacts.unit_disc; LegacyFacts.unit_disc]
                       LegacyFacts.halfway = Fin 0).
  { unfold flat, weight_sum. cbn [map]. rewrite !nsum_cons.
    rewrite LegacyFacts.unit_disc_weight. simpl. f_equal.
    rewrite Rmax_left; lra. }
  unfold blend. rewrite Hflat.
  replace (Fin 0 === Fin 1)%num with false
    by (symmetry; apply eqb_Fin_false; lra).
  cbn [filter]. rewrite Hact. cbn [map]. rewrite !nsum_cons.
  rewrite LegacyFacts.unit_disc_weight, unit_disc_transform.
  unfold LegacyFacts.halfway. cbn [x y nsum fold_right]. simpl.
  f_equal; f_equal; lra.
Qed.

Lemma blend_one_disc :
  blend [LegacyFacts.unit_disc] LegacyFacts.halfway = mkPoint (Fin 65) (Fin 0).
Proof.
  change [LegacyFacts.unit_disc] with ([] ++ [LegacyFacts.unit_disc])%list.
  rewrite (@LegacyFacts.one_active_blend LegacyFacts.halfway
             LegacyFacts.unit_disc [] [] (1 / 2));
    [ | constructor | constructor | exact LegacyFacts.unit_disc_weight | lra].
  rewrite unit_disc_transform. unfold LegacyFacts.halfway. cbn [x y]. simpl.
  f_equal; f_equal; lra.
Qed.

Lemma stale_engine_meets_legacy :
  transformationDomains two_discs
  = [LegacyFacts.unit_disc; LegacyFacts.unit_disc]
  /\ fst (transformPoint two_discs LegacyFacts.halfway) = mkPoint (Fin 80) (Fin 0)
  /\ (exists e,
        fst (create (snd (transformPoint two_discs LegacyFacts.halfway))
                    flat_at_origin) = Throw e)
  /\ transformationDomains one_disc_left = [LegacyFacts.unit_disc]
  /\ weightAt LegacyFacts.unit_disc LegacyFacts.halfway = Fin (1 / 2)
  /\ transform LegacyFacts.unit_disc LegacyFacts.halfway (Fin 1)
     = mkPoint (Fin 80) (Fin 0)
  /\ DeformationManager.transformPoint
       {| DeformationManager.domains := transformationDomains one_disc_left;
          DeformationManager.blendMode := Some smooth |} LegacyFacts.halfway
     = mkPoint (Fin 80) (Fin 0)
  /\ blend (transformationDomains one_disc_left) LegacyFacts.halfway
     = mkPoint (Fin 65) (Fin 0)
  /\ fst (transformPoint one_disc_left LegacyFacts.halfway)
     = mkPoint (Fin 80) (Fin 0).
Proof.
  set (st0 := initial (Fin 800) (Fin 600) roomy).
  assert (Hcap0 : capacity_is 2 st0) by reflexivity.
  destruct (@create_frame 2 st0 disc_request
              (SphericalDomain_new "spherical"
                 (ArgObject (domain_config (mkPoint (Fin 0) (Fin 0)) (Fin 100)
                                           {| eccentricity := None |})))
              Hcap0 eq_refl) as (Hds1 & Hp1 & _).
  set (st1 := snd (create st0 disc_request)) in *.
  assert (Hcap1 : capacity_is 2 st1) by (unfold capacity_is; now rewrite Hp1).
  destruct (@create_frame 2 st1 disc_request
              (SphericalDomain_new "spherical"
                 (ArgObject (domain_config (mkPoint (Fin 0) (Fin 0)) (Fin 100)
                                           {| eccentricity := None |})))
              Hcap1 eq_refl) as (Hds2 & Hp2 & _ & _ & Ht2 & Hb2).
  change (snd (create st1 disc_request)) with two_discs in Hds2, Hp2, Ht2, Hb2.
  rewrite Hds1 in Hds2.
  change (transformationDomains two_discs
          = [LegacyFacts.unit_disc; LegacyFacts.unit_disc]) in Hds2.
  assert (Hco2 : coherent two_discs) by now apply coherent_cleared.
  destruct (transformPoint_blend LegacyFacts.halfway Hco2)
    as (Hb & _ & S1 & S2 & _).
  rewrite Hds2, blend_two_discs in Hb.
  pose proof (transformPoint_stored two_discs LegacyFacts.halfway) as Hstored.
  rewrite Hb in Hstored.
  set (st3 := snd (transformPoint two_discs LegacyFacts.halfway)) in *.
  assert (Hcap3 : capacity_is 2 st3)
    by (unfold capacity_is; now rewrite S2, Hp2, Hp1).
  assert (Hbad : ~ valid flat_at_origin) by (intros H; now apply H).
  destruct (create_throw Hcap3 Hbad) as (e & He).
  assert (Hds4 : transformationDomains one_disc_left = [LegacyFacts.unit_disc]).
  { unfold one_disc_left. fold st3. rewrite He. cbn [snd].
    cbn [transformationDomains set_domains]. now rewrite S1, Hds2. }
  assert (Hc4 : Cache.get Point_eq_dec (transformationCache one_disc_left)
                          LegacyFacts.halfway = Some (mkPoint (Fin 80) (Fin 0))).
  { unfold one_disc_left. fold st3. rewrite He. exact Hstored. }
  split; [exact Hds2 | ]. split; [exact Hb | ].
  split; [exists e; now rewrite He | ].
  split; [exact Hds4 | ].
  split; [exact LegacyFacts.unit_disc_weight | ].
  split; [exact unit_disc_transform | ].
  rewrite Hds4.
  split.
  { rewrite LegacyFacts.transformPoint_legacy_blend.
    cbn [DeformationManager.domains].
    change [LegacyFacts.unit_disc] with ([] ++ [LegacyFacts.unit_disc])%list.
    rewrite (@LegacyFacts.one_active_legacy LegacyFacts.halfway
               LegacyFacts.unit_disc [] [] (1 / 2));
      [exact unit_disc_transform | constructor | constructor
       | exact LegacyFacts.unit_disc_weight | lra]. }
  split; [exact blend_one_disc | ].
  now rewrite (transformPoint_hit _ _ Hc4).
Qed.

End StaleFacts.

(** ** Complex numbers *)

Module ComplexFacts.

Local Open Scope R_scope.

Ltac num_norm :=
  unfold complex.add, complex.subtract, complex.multiply, complex.divide,
         complex.conj, complex.abs, complex.arg, complex.fromPoint,
         complex.toPoint;
  cbn [re im x y];
  unfold Math.hypot, Math.cos, Math.sin, Math.atan2, Math.abs;
  cbn [add sub mul lift2 lift1].

Lemma sum_squares_pos (c d : R) : c <> 0 \/ d <> 0 -> c * c + d * d <> 0.
Proof. intros [H | H]; nra. Qed.

(** X1: on complex numbers with real parts, [divide] undoes [multiply] and
    [multiply] undoes [divide] whenever the divisor is not zero; a division
    by zero gives NaN in both parts; the modulus of a product is the product
    of the moduli; a number times its conjugate is its squared modulus;
    conjugation is an involution that keeps the modulus; and [toPoint]
    undoes [fromPoint]. *)
Theorem X1_complex_arithmetic (a b c d : R) :
  let z1 := mkComplex (Fin a) (Fin b) in
  let z2 := mkComplex (Fin c) (Fin d) in
  (c <> 0 \/ d <> 0 ->
   complex.divide (complex.multiply z1 z2) z2 = z1
   /\ complex.multiply (complex.divide z1 z2) z2 = z1)
  /\ complex.divide z1 (mkComplex (Fin 0) (Fin 0)) = mkComplex NaN NaN
  /\ complex.abs (complex.multiply z1 z2) = (complex.abs z1 * complex.abs z2)%num
  /\ complex.multiply z1 (complex.conj z1)
     = mkComplex (complex.abs z1 * complex.abs z1)%num (Fin 0)
  /\ complex.conj (complex.conj z1) = z1
  /\ complex.abs (complex.conj z1) = complex.abs z1
  /\ complex.toPoint (complex.fromPoint (mkPoint (Fin a) (Fin b)))
     = mkPoint (Fin a) (Fin b).
Proof.
  intros z1 z2. unfold z1, z2.
  split; [ | split; [ | split; [ | split; [ | split; [ | split ] ] ] ] ].
  - intros H. pose proof (sum_squares_pos H) as Hd. num_norm. split.
    + rewrite !div_Fin by exact Hd. f_equal; f_equal; field; exact Hd.
    + rewrite !div_Fin by exact Hd. num_norm. f_equal; f_equal; field; exact Hd.
  - num_norm. unfold div.
    destruct (Req_dec_T (0 * 0 + 0 * 0) 0) as [ | n]; [reflexivity | ].
    exfalso. apply n. ring.
  - num_norm. f_equal. rewrite <- sqrt_mult by nra. f_equal. ring.
  - num_norm. f_equal; f_equal.
    + rewrite sqrt_sqrt by nra. ring.
    + ring.
  - num_norm. f_equal. f_equal. ring.
  - num_norm. f_equal. f_equal. ring.
  - reflexivity.
Qed.

End ComplexFacts.

(** ** The conformal maps *)

Module GeometryFacts.

Local Open Scope R_scope.

Ltac num_norm :=
  unfold complex.add, complex.subtract, complex.multiply, complex.divide,
         complex.conj, complex.abs, complex.arg, complex.fromPoint,
         complex.toPoint;
  cbn [re im x y];
  unfold Math.hypot, Math.cos, Math.sin, Math.atan2, Math.abs;
  cbn [add sub mul lift2 lift1].

(** A complex number with two finite parts. *)
Definition finite (z : Complex) : Prop := is_fin (re z) /\ is_fin (im z).

Lemma finite_parts (z : Complex) :
  finite z -> exists a b : R, z = mkComplex (Fin a) (Fin b).
Proof.
  destruct z as [[a | ] [b | ]]; intros [Ha Hb]; try contradiction.
  now exists a, b.
Qed.

(** The threshold [mobiusTransform] compares the denominator with. *)
Definition threshold (params : MobiusParams) : num :=
  match regularizationFactor params with
  | Some r => r
  | None => EPSILON
  end.

Lemma sqrt_lower (a b : R) : 0 <= a -> a * a <= b -> a <= sqrt b.
Proof.
  intros Ha Hab. rewrite <- (sqrt_square a Ha). now apply sqrt_le_1_alt.
Qed.

Lemma sqrt_positive_sum (a b : R) : 0 < sqrt (a * a + b * b) -> a * a + b * b <> 0.
Proof.
  intros H Heq. rewrite Heq, sqrt_0 in H. lra.
Qed.

Lemma unit_circle (t : R) :
  sqrt (cos t * 1000000 * (cos t * 1000000) + sin t * 1000000 * (sin t * 1000000))
  = 1000000.
Proof.
  replace (cos t * 1000000 * (cos t * 1000000) + sin t * 1000000 * (sin t * 1000000))
    with (1000000 * 1000000 * ((sin t)² + (cos t)²)) by (unfold Rsqr; ring).
  rewrite sin2_cos2, Rmult_1_r. apply sqrt_square. lra.
Qed.

(** X2: [mobiusTransform] on real data with a positive regularisation
    threshold (the default, [EPSILON], is one) never divides by zero and
    returns a number with two real parts.  Where the modulus of the
    denominator c z + d is below the threshold, the result has modulus
    10^6; elsewhere it is the quotient, the number w with
    w (c z + d) = a z + b. *)
Theorem X2_mobius_regularised (z : Complex) (params : MobiusParams) (eps : R) :
  finite z -> finite (ma params) -> finite (mb params) ->
  finite (mc params) -> finite (md params) ->
  threshold params = Fin eps -> 0 < eps ->
  let numerator := complex.add (complex.multiply (ma params) z) (mb params) in
  let denominator := complex.add (complex.multiply (mc params) z) (md params) in
  let w := geometry.mobiusTransform z params in
  finite w
  /\ ((complex.abs denominator <? Fin eps)%num = true ->
      complex.abs w = Fin 1000000)
  /\ ((complex.abs denominator <? Fin eps)%num = false ->
      complex.multiply w denominator = numerator).
Proof.
  intros Hz Ha Hb Hc Hd Hreg Heps.
  destruct params as [a b c d reg]. cbn [ma mb mc md] in *.
  unfold threshold in Hreg. cbn [regularizationFactor] in Hreg. cbv zeta.
  destruct (finite_parts Hz) as (zr & zi & ->).
  destruct (finite_parts Ha) as (ar & ai & ->).
  destruct (finite_parts Hb) as (br & bi & ->).
  destruct (finite_parts Hc) as (cr & ci & ->).
  destruct (finite_parts Hd) as (dr & di & ->).
  unfold geometry.mobiusTransform. cbn [ma mb mc md regularizationFactor].
  rewrite Hreg. num_norm.
  set (nr := ar * zr - ai * zi + br).
  set (ni := ar * zi + ai * zr + bi).
  set (er := cr * zr - ci * zi + dr).
  set (ei := cr * zi + ci * zr + di).
  destruct (Fin (sqrt (er * er + ei * ei)) <? Fin eps)%num eqn:Htest.
  - split; [split; exact I | ]. split; [ | discriminate].
    intros _. num_norm. f_equal. apply unit_circle.
  - apply ltb_Fin_false in Htest.
    assert (Hne : er * er + ei * ei <> 0) by (apply sqrt_positive_sum; lra).
    rewrite !div_Fin by exact Hne.
    split; [split; exact I | ]. split; [discriminate | ].
    intros _. num_norm. f_equal; f_equal; field; exact Hne.
Qed.

Lemma X2_mobius_regularised_witness :
  complex.multiply
    (geometry.mobiusTransform
       (mkComplex (Fin 3) (Fin 4))
       {| ma := mkComplex (Fin 1) (Fin 0); mb := mkComplex (Fin 0) (Fin 0);
          mc := mkComplex (Fin 0) (Fin 0); md := mkComplex (Fin 1) (Fin 0);
          regularizationFactor := None |})
    (complex.add (complex.multiply (mkComplex (Fin 0) (Fin 0))
                                   (mkComplex (Fin 3) (Fin 4)))
                 (mkComplex (Fin 1) (Fin 0)))
  = complex.add (complex.multiply (mkComplex (Fin 1) (Fin 0))
                                  (mkComplex (Fin 3) (Fin 4)))
                (mkComplex (Fin 0) (Fin 0)).
Proof.
  refine (proj2 (proj2
            (@X2_mobius_regularised
               (mkComplex (Fin 3) (Fin 4))
               {| ma := mkComplex (Fin 1) (Fin 0); mb := mkComplex (Fin 0) (Fin 0);
                  mc := mkComplex (Fin 0) (Fin 0); md := mkComplex (Fin 1) (Fin 0);
                  regularizationFactor := None |}
               (/ 10000000000) _ _ _ _ _ _ _)) _);
    try (split; exact I); try reflexivity.
  - lra.
  - num_norm. apply ltb_Fin_false.
    replace ((0 * 3 - 0 * 4 + 1) * (0 * 3 - 0 * 4 + 1)
             + (0 * 4 + 0 * 3 + 0) * (0 * 4 + 0 * 3 + 0)) with (1 * 1) by ring.
    rewrite sqrt_square; lra.
Defined.


(** The eccentricity a conic domain works with is a real number. *)
Lemma or_default_fin (o : option num) (dflt : R) :
  exists e : R, or_default o (Fin dflt) = Fin e.
Proof.
  destruct o as [[v | ] | ]; cbn [or_default truthy].
  - destruct (Req_dec_T v 0); eauto.
  - eauto.
  - eauto.
Qed.

Lemma not_below_epsilon (a : R) : / 10000000000 <= a -> (Fin a <? EPSILON)%num = false.
Proof. intros H. unfold EPSILON. now apply ltb_Fin_false. Qed.

Lemma sqrt_1_0 : sqrt (1 * 1 + 0 * 0) = 1.
Proof. replace (1 * 1 + 0 * 0) with 1 by ring. apply sqrt_1. Qed.

Lemma conicMapping_centre (c : Point) (r e : R) (direction : num) :
  is_fin (x c) -> is_fin (y c) -> r <> 0 ->
  geometry.conicMapping c c (Fin r) (Fin e) direction = mkPoint (Fin 0) (Fin 0).
Proof.
  destruct c as [[cx | ] [cy | ]]; cbn [x y is_fin]; try contradiction.
  intros _ _ Hr.
  assert (Hz : forall v, (Fin (v - v) / Fin r)%num = Fin 0).
  { intros v. rewrite div_Fin by exact Hr. f_equal. field. exact Hr. }
  assert (Hm : forall k : R,
             geometry.mobiusTransform
               (complex.fromPoint {| x := Fin 0; y := Fin 0 |})
               {| ma := mkComplex (Fin 1) (Fin 0);
                  mb := mkComplex (Fin 0) (Fin 0);
                  mc := mkComplex (Fin k) (Fin 0);
                  md := mkComplex (Fin 1) (Fin 0);
                  regularizationFactor := None |}
             = mkComplex (Fin 0) (Fin 0)).
  { intros k. unfold geometry.mobiusTransform.
    cbn [ma mb mc md regularizationFactor]. num_norm.
    replace (k * 0 - 0 * 0 + 1) with 1 by ring.
    replace (k * 0 + 0 * 0 + 0) with 0 by ring.
    rewrite sqrt_1_0, not_below_epsilon by lra.
    rewrite !div_Fin by lra. f_equal; f_equal; field. }
  unfold geometry.conicMapping. cbn [x y]. cbn [sub lift2]. rewrite !Hz.
  destruct (direction >? Fin 0)%num.
  - rewrite Hm. reflexivity.
  - cbn [sub lift2]. rewrite Hm. reflexivity.
Qed.


Import AdaptiveGrid WeightFacts BlendFacts.

Lemma weightAt_center (d : Domain) (r : R) :
  is_fin (x (center d)) -> is_fin (y (center d)) ->
  radius d = Fin r -> 0 < r ->
  weightAt d (center d) = Fin 1.
Proof.
  intros Hx Hy Hr Hpos.
  rewrite weightAt_distance, distance_center, Hr by assumption.
  rewrite blendingFunctions_profile by lra.
  now rewrite profile_center.
Qed.

(** X3: the conic transform maps the centre of its own domain to the
    origin of the plane, whatever the centre, the (positive) radius, the
    eccentricity and the direction: the mapped point is not scaled and
    moved back.  As the weight at the centre is 1, the engine's
    [transformPoint] sends the centre of a lone conic domain to (0, 0). *)
Theorem X3_conic_centre_to_origin (d : Domain) (r : R) (direction : num) :
  cls d = ConicDomain ->
  is_fin (x (center d)) -> is_fin (y (center d)) ->
  radius d = Fin r -> 0 < r ->
  transform d (center d) direction = mkPoint (Fin 0) (Fin 0)
  /\ blend [d] (center d) = mkPoint (Fin 0) (Fin 0)
  /\ (forall st,
        coherent st -> transformationDomains st = [d] ->
        fst (transformPoint st (center d)) = mkPoint (Fin 0) (Fin 0)).
Proof.
  intros Hcls Hx Hy Hr Hpos.
  assert (Ht : forall dir, transform d (center d) dir = mkPoint (Fin 0) (Fin 0)).
  { intros dir. unfold transform. rewrite Hcls, Hr.
    destruct (or_default_fin (eccentricity (options d)) (5 / 10)) as [e ->].
    apply conicMapping_centre; [assumption | assumption | lra]. }
  assert (Hb : blend [d] (center d) = mkPoint (Fin 0) (Fin 0)).
  { pose proof (weightAt_center d Hx Hy Hr Hpos) as Hw.
    pose proof (Ht (Fin 1)) as Ht1.
    destruct (center d) as [[cx | ] [cy | ]]; cbn [x y is_fin] in Hx, Hy;
      try contradiction.
    now apply GridCellFacts.blend_single_full. }
  split; [apply Ht | ]. split; [exact Hb | ].
  intros st Hco Hds.
  destruct (transformPoint_blend (center d) Hco) as [-> _].
  now rewrite Hds.
Qed.

Definition unit_conic : Domain :=
  ConicDomain_new "conic"
    (ArgObject (domain_config (mkPoint (Fin 200) (Fin 200)) (Fin 100)
                              {| eccentricity := None |})).

Lemma X3_conic_centre_to_origin_witness :
  transform unit_conic (mkPoint (Fin 200) (Fin 200)) (Fin 1)
  = mkPoint (Fin 0) (Fin 0).
Proof.
  refine (proj1 (@X3_conic_centre_to_origin unit_conic 100 (Fin 1) _ _ _ _ _)).
  - reflexivity.
  - exact I.
  - exact I.
  - unfold unit_conic, ConicDomain_new, Domain_new. cbn [radius prop domain_config cfg_radius].
    unfold or_default, truthy. destruct (Req_dec_T 100 0); [lra | reflexivity].
  - lra.
Defined.


Lemma mobius_regular (zr zi k : R) :
  / 100000000000000000000 <= (k * zr + 1) * (k * zr + 1) + k * zi * (k * zi) ->
  geometry.mobiusTransform
    (mkComplex (Fin zr) (Fin zi))
    {| ma := mkComplex (Fin 1) (Fin 0);
       mb := mkComplex (Fin 0) (Fin 0);
       mc := mkComplex (Fin k) (Fin 0);
       md := mkComplex (Fin 1) (Fin 0);
       regularizationFactor := None |}
  = mkComplex
      (Fin ((zr * (k * zr + 1) + zi * (k * zi))
            / ((k * zr + 1) * (k * zr + 1) + k * zi * (k * zi))))
      (Fin (zi / ((k * zr + 1) * (k * zr + 1) + k * zi * (k * zi)))).
Proof.
  intros HD.
  set (D := (k * zr + 1) * (k * zr + 1) + k * zi * (k * zi)) in *.
  assert (HD0 : D <> 0) by lra.
  unfold geometry.mobiusTransform. cbn [ma mb mc md regularizationFactor].
  num_norm.
  replace ((k * zr - 0 * zi + 1) * (k * zr - 0 * zi + 1)
           + (k * zi + 0 * zr + 0) * (k * zi + 0 * zr + 0)) with D
    by (unfold D; ring).
  rewrite not_below_epsilon.
  - rewrite !div_Fin by exact HD0. f_equal; f_equal; unfold D; field; exact HD0.
  - apply sqrt_lower; lra.
Qed.

(** [conicMapping] about the origin with radius 1: the Moebius map
    z / (k z + 1), with k the eccentricity forward and its opposite
    backward. *)
Lemma conicMapping_unit (a b e : R) (direction : num) :
  let k := if (direction >? Fin 0)%num then e else 0 - e in
  / 100000000000000000000 <= (k * a + 1) * (k * a + 1) + k * b * (k * b) ->
  geometry.conicMapping (mkPoint (Fin a) (Fin b)) (mkPoint (Fin 0) (Fin 0))
                        (Fin 1) (Fin e) direction
  = mkPoint
      (Fin ((a * (k * a + 1) + b * (k * b))
            / ((k * a + 1) * (k * a + 1) + k * b * (k * b))))
      (Fin (b / ((k * a + 1) * (k * a + 1) + k * b * (k * b)))).
Proof.
  intros k HD. unfold geometry.conicMapping. cbn [x y sub lift2].
  rewrite !div_Fin by lra. unfold complex.fromPoint. cbn [x y].
  replace ((a - 0) / 1) with a by field.
  replace ((b - 0) / 1) with b by field.
  unfold k in *.
  destruct (direction >? Fin 0)%num; rewrite mobius_regular by exact HD;
    reflexivity.
Qed.

(** X4: for a conic domain about the origin with radius 1, the transform
    with direction -1 undoes the transform with direction 1 at every point
    whose Moebius denominator e z + 1 has a squared modulus from 10^-20 to
    10^20 (so that neither map is regularised). *)
Theorem X4_conic_round_trip (d : Domain) (e a b : R) :
  cls d = ConicDomain ->
  center d = mkPoint (Fin 0) (Fin 0) -> radius d = Fin 1 ->
  or_default (eccentricity (options d)) (Fin (5 / 10)) = Fin e ->
  / 100000000000000000000 <= (e * a + 1) * (e * a + 1) + e * b * (e * b)
    <= 100000000000000000000 ->
  transform d (transform d (mkPoint (Fin a) (Fin b)) (Fin 1)) (Fin (- 1))
  = mkPoint (Fin a) (Fin b).
Proof.
  intros Hcls Hc Hr He [Hlo Hhi].
  set (D := (e * a + 1) * (e * a + 1) + e * b * (e * b)) in *.
  assert (HD0 : D <> 0) by lra.
  assert (HDpos : 0 < D) by lra.
  unfold transform. rewrite Hcls, Hc, Hr, He.
  pose proof (@conicMapping_unit a b e (Fin 1)) as Hf.
  replace (Fin 1 >? Fin 0)%num with true in Hf by (symmetry; apply gtb_Fin; lra).
  cbv zeta in Hf. rewrite Hf by exact Hlo. clear Hf. fold D.
  set (wr := (a * (e * a + 1) + b * (e * b)) / D).
  set (wi := b / D).
  pose proof (@conicMapping_unit wr wi e (Fin (- 1))) as Hb.
  replace (Fin (- 1) >? Fin 0)%num with false in Hb
    by (symmetry; apply gtb_Fin_false; lra).
  cbv zeta in Hb.
  assert (HD2 : ((0 - e) * wr + 1) * ((0 - e) * wr + 1)
                + (0 - e) * wi * ((0 - e) * wi) = / D).
  { unfold wr, wi, D. field. exact HD0. }
  rewrite HD2 in Hb. rewrite Hb.
  - f_equal; f_equal; unfold wr, wi, D; field; exact HD0.
  - apply Rinv_le_contravar in Hhi; [ | exact HDpos]. exact Hhi.
Qed.

Lemma X4_conic_round_trip_witness :
  let d := ConicDomain_new "conic"
             (ArgObject (domain_config (mkPoint (Fin 0) (Fin 0)) (Fin 1)
                                       {| eccentricity := None |})) in
  transform d (transform d (mkPoint (Fin 1) (Fin 2)) (Fin 1)) (Fin (- 1))
  = mkPoint (Fin 1) (Fin 2).
Proof.
  intros d.
  apply (@X4_conic_round_trip d (5 / 10) 1 2).
  - reflexivity.
  - reflexivity.
  - unfold d, ConicDomain_new, Domain_new.
    cbn [radius prop domain_config cfg_radius].
    unfold or_default, truthy. destruct (Req_dec_T 1 0); [lra | reflexivity].
  - reflexivity.
  - lra.
Defined.


(** *** The spherical class *)

(** The forward stereographic map on reals: with u = (p - c) / r,
    the point c + 2 u r / (1 + |u|^2). *)
Definition sphere_image (cx cy r px py : R) : R * R :=
  let u := (px - cx) / r in
  let v := (py - cy) / r in
  let f := 2 / (1 + (u * u + v * v)) in
  (f * u * r + cx, f * v * r + cy).

Lemma transform_spherical (d : Domain) (cx cy r px py : R) :
  cls d = SphericalDomain ->
  center d = mkPoint (Fin cx) (Fin cy) -> radius d = Fin r -> r <> 0 ->
  transform d (mkPoint (Fin px) (Fin py)) (Fin 1)
  = mkPoint (Fin (fst (sphere_image cx cy r px py)))
            (Fin (snd (sphere_image cx cy r px py))).
Proof.
  intros Hcls Hc Hr Hr0.
  unfold transform. rewrite Hcls, Hc, Hr.
  unfold geometry.stereographicProjection. cbn [x y sub lift2].
  rewrite !div_Fin by exact Hr0.
  replace (Fin 1 >? Fin 0)%num with true by (symmetry; apply gtb_Fin; lra).
  cbn [fst]. num_norm.
  set (u := (px - cx) / r). set (v := (py - cy) / r).
  assert (Hs : sqrt (u * u + v * v) * sqrt (u * u + v * v) = u * u + v * v)
    by (apply sqrt_sqrt; nra).
  rewrite Hs. rewrite div_Fin by nra. cbn [mul add lift2].
  unfold sphere_image. fold u v. reflexivity.
Qed.

Lemma sphere_image_disc (cx cy r px py : R) :
  r <> 0 ->
  let q := sphere_image cx cy r px py in
  (fst q - cx) * (fst q - cx) + (snd q - cy) * (snd q - cy) <= r * r.
Proof.
  intros Hr q. unfold q, sphere_image. cbn [fst snd].
  set (u := (px - cx) / r). set (v := (py - cy) / r).
  set (m := u * u + v * v).
  assert (Hm : 0 <= m) by (unfold m; nra).
  replace ((2 / (1 + m) * u * r + cx - cx) * (2 / (1 + m) * u * r + cx - cx)
           + (2 / (1 + m) * v * r + cy - cy) * (2 / (1 + m) * v * r + cy - cy))
    with (r * r * (4 * m / ((1 + m) * (1 + m))))
    by (unfold m; field; fold m; lra).
  assert (H4 : 4 * m / ((1 + m) * (1 + m)) <= 1).
  { apply Rmult_le_reg_r with ((1 + m) * (1 + m)); [nra | ].
    replace (4 * m / ((1 + m) * (1 + m)) * ((1 + m) * (1 + m))) with (4 * m)
      by (field; lra).
    pose proof (Rle_0_sqr (1 - m)) as Hsq. unfold Rsqr in Hsq. nra. }
  assert (Hrr : 0 <= r * r) by nra.
  rewrite <- (Rmult_1_r (r * r)) at 2.
  apply Rmult_le_compat_l; assumption.
Qed.

Lemma sphere_image_boundary (cx cy r px py : R) :
  r <> 0 ->
  (px - cx) * (px - cx) + (py - cy) * (py - cy) = r * r ->
  sphere_image cx cy r px py = (px, py).
Proof.
  intros Hr Hb. unfold sphere_image.
  assert (Hm : (px - cx) / r * ((px - cx) / r) + (py - cy) / r * ((py - cy) / r) = 1).
  { replace ((px - cx) / r * ((px - cx) / r) + (py - cy) / r * ((py - cy) / r))
      with (((px - cx) * (px - cx) + (py - cy) * (py - cy)) / (r * r))
      by (field; exact Hr).
    rewrite Hb. field. exact Hr. }
  cbv zeta. rewrite Hm. f_equal; field; exact Hr.
Qed.

Lemma sphere_image_centre (cx cy r : R) :
  r <> 0 -> sphere_image cx cy r cx cy = (cx, cy).
Proof.
  intros Hr. unfold sphere_image. cbv zeta. f_equal; field; split; try exact Hr.
  - replace (r * r + ((cx - cx) * (cx - cx) + (cy - cy) * (cy - cy))) with (r * r) by ring.
    nra.
  - replace (r * r + ((cx - cx) * (cx - cx) + (cy - cy) * (cy - cy))) with (r * r) by ring.
    nra.
Qed.


(** A spherical domain as the registry holds it. *)
Definition sphere_at (cx cy r : R) : Domain :=
  SphericalDomain_new "spherical"
    (ArgObject (domain_config (mkPoint (Fin cx) (Fin cy)) (Fin r)
                              {| eccentricity := None |})).

Lemma sphere_at_radius (cx cy r : R) : r <> 0 -> radius (sphere_at cx cy r) = Fin r.
Proof.
  intros Hr. unfold sphere_at, SphericalDomain_new, Domain_new.
  cbn [radius prop domain_config cfg_radius].
  unfold or_default, truthy. destruct (Req_dec_T r 0); [contradiction | reflexivity].
Qed.

Lemma away_from_centre (cx cy px py : R) :
  px <> cx \/ py <> cy ->
  0 < (px - cx) * (px - cx) + (py - cy) * (py - cy).
Proof.
  intros Hp.
  pose proof (Rle_0_sqr (px - cx)) as Hx. pose proof (Rle_0_sqr (py - cy)) as Hy.
  unfold Rsqr in Hx, Hy.
  destruct Hp as [Hp | Hp].
  - assert (H : px - cx <> 0) by lra.
    apply Rsqr_pos_lt in H. unfold Rsqr in H. lra.
  - assert (H : py - cy <> 0) by lra.
    apply Rsqr_pos_lt in H. unfold Rsqr in H. lra.
Qed.

Lemma mirror_eq (a b r : R) :
  r <> 0 -> 0 < a * a + b * b ->
  2 / (1 + (r * r * a / (a * a + b * b) / r * (r * r * a / (a * a + b * b) / r)
            + r * r * b / (a * a + b * b) / r * (r * r * b / (a * a + b * b) / r)))
  * (r * r * a / (a * a + b * b) / r) * r
  = 2 / (1 + (a / r * (a / r) + b / r * (b / r))) * (a / r) * r.
Proof.
  intros Hr Hm.
  pose proof (Rle_0_sqr (r * a)) as Ha. pose proof (Rle_0_sqr (r * b)) as Hb.
  pose proof (Rsqr_pos_lt r Hr) as Hrr.
  pose proof (Rsqr_pos_lt _ (Rgt_not_eq _ _ Hm)) as Hmm.
  unfold Rsqr in Ha, Hb, Hrr, Hmm.
  field. repeat split; lra.
Qed.

(** A point and its mirror image in the circle of the domain have the same
    forward image. *)
Lemma spherical_mirror (d : Domain) (cx cy r px py : R) :
  cls d = SphericalDomain ->
  center d = mkPoint (Fin cx) (Fin cy) -> radius d = Fin r -> r <> 0 ->
  px <> cx \/ py <> cy ->
  let m := (px - cx) * (px - cx) + (py - cy) * (py - cy) in
  transform d (mkPoint (Fin (cx + r * r * (px - cx) / m))
                       (Fin (cy + r * r * (py - cy) / m))) (Fin 1)
  = transform d (mkPoint (Fin px) (Fin py)) (Fin 1).
Proof.
  intros Hcls Hc Hr Hr0 Hp m.
  assert (Hm : 0 < m) by (now apply away_from_centre).
  rewrite !(@transform_spherical d cx cy r _ _ Hcls Hc Hr Hr0).
  unfold sphere_image. cbn [fst snd]. unfold m in *. clear m.
  set (a := px - cx) in *. set (b := py - cy) in *.
  replace (cx + r * r * a / (a * a + b * b) - cx)
    with (r * r * a / (a * a + b * b)) by ring.
  replace (cy + r * r * b / (a * a + b * b) - cy)
    with (r * r * b / (a * a + b * b)) by ring.
  f_equal; f_equal; f_equal.
  - now apply mirror_eq.
  - rewrite (Rplus_comm (r * r * a / (a * a + b * b) / r
                         * (r * r * a / (a * a + b * b) / r))).
    rewrite (Rplus_comm (a / r * (a / r))).
    rewrite (Rplus_comm (a * a)) in *.
    now apply mirror_eq.
Qed.

(** X5: the forward transform of a spherical domain (real centre, radius
    not 0) sends every point with real coordinates into the closed disc of
    that radius about the centre; it fixes the centre and every point of
    the circle; and it sends a point other than the centre and its mirror
    image in the circle, c + r^2 (p - c) / |p - c|^2, to the same point, so
    it is not injective. *)
Theorem X5_spherical_forward (d : Domain) (cx cy r px py : R) :
  cls d = SphericalDomain ->
  center d = mkPoint (Fin cx) (Fin cy) -> radius d = Fin r -> r <> 0 ->
  (exists qx qy : R,
     transform d (mkPoint (Fin px) (Fin py)) (Fin 1) = mkPoint (Fin qx) (Fin qy)
     /\ (qx - cx) * (qx - cx) + (qy - cy) * (qy - cy) <= r * r
     /\ ((px - cx) * (px - cx) + (py - cy) * (py - cy) = r * r ->
         qx = px /\ qy = py)
     /\ (px = cx -> py = cy -> qx = cx /\ qy = cy))
  /\ (px <> cx \/ py <> cy ->
      let m := (px - cx) * (px - cx) + (py - cy) * (py - cy) in
      transform d (mkPoint (Fin (cx + r * r * (px - cx) / m))
                           (Fin (cy + r * r * (py - cy) / m))) (Fin 1)
      = transform d (mkPoint (Fin px) (Fin py)) (Fin 1)).
Proof.
  intros Hcls Hc Hr Hr0. split.
  - exists (fst (sphere_image cx cy r px py)), (snd (sphere_image cx cy r px py)).
    split; [now apply transform_spherical | ].
    split; [now apply sphere_image_disc | ].
    split.
    + intros Hb. rewrite (@sphere_image_boundary cx cy r px py Hr0 Hb). now split.
    + intros -> ->. rewrite (@sphere_image_centre cx cy r Hr0). now split.
  - intros Hp. now apply spherical_mirror.
Qed.

Lemma X5_spherical_forward_witness :
  exists qx qy : R,
    transform (sphere_at 200 200 100) (mkPoint (Fin 300) (Fin 200)) (Fin 1)
    = mkPoint (Fin qx) (Fin qy)
    /\ qx = 300 /\ qy = 200.
Proof.
  destruct (@X5_spherical_forward (sphere_at 200 200 100) 200 200 100 300 200)
    as ((qx & qy & Ht & _ & Hb & _) & _).
  - reflexivity.
  - reflexivity.
  - apply sphere_at_radius. lra.
  - lra.
  - exists qx, qy. split; [exact Ht | ]. apply Hb. lra.
Defined.

Lemma mul_NaN_r (a : num) : (a * NaN)%num = NaN.
Proof. now destruct a. Qed.

Lemma add_NaN_l (a : num) : (NaN + a)%num = NaN.
Proof. reflexivity. Qed.

(** X6: the transform of a spherical domain with a direction that is not
    positive (as -1) returns NaN in both coordinates for every point of the
    plane: the backward branch reads the [z] of the point, and a point of
    the plane has none.  So does [applyDomainTransformation] for a
    spherical configuration and such a direction. *)
Theorem X6_spherical_backward_NaN (d : Domain) (point : Point) (direction : num) :
  cls d = SphericalDomain ->
  (direction >? Fin 0)%num = false ->
  transform d point direction = mkPoint NaN NaN
  /\ (forall config perm,
        cfg_type config = Some "spherical"%string ->
        legacyAPI.applyDomainTransformation point config (Some direction) perm
        = Return (mkPoint NaN NaN)).
Proof.
  intros Hcls Hdir.
  assert (Hb : forall p c r,
             fst (geometry.stereographicProjection p None c r direction)
             = mkPoint NaN NaN).
  { intros p c r. unfold geometry.stereographicProjection. rewrite Hdir.
    cbn [of_arg]. rewrite sub_NaN_r. unfold Math.abs. cbn [lift1 ltb fst].
    assert (Hd : (r / NaN)%num = NaN) by (now destruct r).
    rewrite Hd, !mul_NaN_r. now rewrite !add_NaN_l. }
  split.
  - unfold transform. rewrite Hcls. apply Hb.
  - intros config perm Hty. unfold legacyAPI.applyDomainTransformation.
    rewrite Hty. cbn. apply f_equal, Hb.
Qed.


Lemma X6_spherical_backward_NaN_witness :
  transform (sphere_at 0 0 100) (mkPoint (Fin 10) (Fin 20)) (Fin (- 1))
  = mkPoint NaN NaN.
Proof.
  refine (proj1 (@X6_spherical_backward_NaN (sphere_at 0 0 100)
                   (mkPoint (Fin 10) (Fin 20)) (Fin (- 1)) _ _)).
  - reflexivity.
  - apply gtb_Fin_false. lra.
Defined.

(** *** The cylindrical class *)

(** A point is its distance from the origin times the cosine and the sine
    of its [atan2] angle. *)
Lemma atan2_polar (a b : R) :
  sqrt (a * a + b * b) * cos (Math.atan2R b a) = a
  /\ sqrt (a * a + b * b) * sin (Math.atan2R b a) = b.
Proof.
  assert (Hgen : forall t : R, 0 < sqrt (1 + t²)).
  { intros t. apply sqrt_lt_R0. pose proof (Rle_0_sqr t). lra. }
  assert (Hnorm : forall a b : R, a <> 0 ->
             sqrt (a * a + b * b) = Rabs a * sqrt (1 + (b / a)²)).
  { intros a0 b0 Ha0. rewrite <- sqrt_Rsqr_abs, <- sqrt_mult.
    - f_equal. unfold Rsqr. field. exact Ha0.
    - apply Rle_0_sqr.
    - pose proof (Rle_0_sqr (b0 / a0)). lra. }
  unfold Math.atan2R.
  destruct (Rlt_dec 0 a) as [Hpos | Hnpos].
  - rewrite Hnorm by lra. rewrite Rabs_right by lra.
    rewrite cos_atan, sin_atan. pose proof (Hgen (b / a)).
    split; field; lra.
  - destruct (Rlt_dec a 0) as [Hneg | Hnneg].
    + rewrite Hnorm by lra. rewrite Rabs_left by lra.
      pose proof (Hgen (b / a)).
      destruct (Rle_dec 0 b).
      * rewrite neg_cos, neg_sin, cos_atan, sin_atan. split; field; lra.
      * replace (atan (b / a) - PI) with (- (PI - atan (b / a))) by ring.
        rewrite cos_neg, sin_neg.
        replace (PI - atan (b / a)) with (- atan (b / a) + PI) by ring.
        rewrite neg_cos, neg_sin, cos_neg, sin_neg, cos_atan, sin_atan.
        split; field; lra.
    + assert (Ha : a = 0) by lra. subst a.
      replace (0 * 0 + b * b) with (b²) by (unfold Rsqr; ring).
      rewrite sqrt_Rsqr_abs.
      destruct (Rlt_dec 0 b).
      * rewrite cos_PI2, sin_PI2, Rabs_right by lra. split; ring.
      * destruct (Rlt_dec b 0).
        -- rewrite cos_neg, sin_neg, cos_PI2, sin_PI2, Rabs_left by lra.
           split; ring.
        -- assert (Hb : b = 0) by lra. subst b.
           rewrite Rabs_R0. split; ring.
Qed.

(** X7: the forward transform of a cylindrical domain (real centre, radius
    r not 0) unrolls the plane about the centre: it sends p to
    (r * atan2(dy, dx), |p - c| - r); and the transform with direction -1
    undoes it at every point with real coordinates, the centre included. *)
Theorem X7_cylindrical_round_trip (d : Domain) (cx cy r px py : R) :
  cls d = CylindricalDomain ->
  center d = mkPoint (Fin cx) (Fin cy) -> radius d = Fin r -> r <> 0 ->
  transform d (mkPoint (Fin px) (Fin py)) (Fin 1)
  = mkPoint (Fin (r * Math.atan2R (py - cy) (px - cx)))
            (Fin (sqrt ((px - cx) * (px - cx) + (py - cy) * (py - cy)) - r))
  /\ transform d (transform d (mkPoint (Fin px) (Fin py)) (Fin 1)) (Fin (- 1))
     = mkPoint (Fin px) (Fin py).
Proof.
  intros Hcls Hc Hr Hr0.
  assert (Hf : transform d (mkPoint (Fin px) (Fin py)) (Fin 1)
               = mkPoint (Fin (r * Math.atan2R (py - cy) (px - cx)))
                   (Fin (sqrt ((px - cx) * (px - cx) + (py - cy) * (py - cy)) - r))).
  { unfold transform. rewrite Hcls, Hc, Hr.
    unfold geometry.cylindricalMapping. cbn [x y sub lift2].
    replace (Fin 1 >? Fin 0)%num with true by (symmetry; apply gtb_Fin; lra).
    reflexivity. }
  split; [exact Hf | ].
  rewrite Hf. unfold transform. rewrite Hcls, Hc, Hr.
  unfold geometry.cylindricalMapping. cbn [x y].
  replace (Fin (- 1) >? Fin 0)%num with false
    by (symmetry; apply gtb_Fin_false; lra).
  rewrite div_Fin by exact Hr0. num_norm.
  destruct (atan2_polar (px - cx) (py - cy)) as [Hcos Hsin].
  replace (r * Math.atan2R (py - cy) (px - cx) / r)
    with (Math.atan2R (py - cy) (px - cx)) by (field; exact Hr0).
  replace (sqrt ((px - cx) * (px - cx) + (py - cy) * (py - cy)) - r + r)
    with (sqrt ((px - cx) * (px - cx) + (py - cy) * (py - cy))) by ring.
  rewrite Hcos, Hsin. f_equal; f_equal; ring.
Qed.


(** A cylindrical domain as the registry holds it. *)
Definition cylinder_at (cx cy r : R) : Domain :=
  CylindricalDomain_new "cylindrical"
    (ArgObject (domain_config (mkPoint (Fin cx) (Fin cy)) (Fin r)
                              {| eccentricity := None |})).

Lemma cylinder_at_radius (cx cy r : R) :
  r <> 0 -> radius (cylinder_at cx cy r) = Fin r.
Proof.
  intros Hr. unfold cylinder_at, CylindricalDomain_new, Domain_new.
  cbn [radius prop domain_config cfg_radius].
  unfold or_default, truthy. destruct (Req_dec_T r 0); [contradiction | reflexivity].
Qed.

Lemma X7_cylindrical_round_trip_witness :
  transform (cylinder_at 200 200 80)
            (transform (cylinder_at 200 200 80) (mkPoint (Fin 10) (Fin 20)) (Fin 1))
            (Fin (- 1))
  = mkPoint (Fin 10) (Fin 20).
Proof.
  refine (proj2 (@X7_cylindrical_round_trip (cylinder_at 200 200 80)
                   200 200 80 10 20 _ _ _ _)).
  - reflexivity.
  - reflexivity.
  - apply cylinder_at_radius. lra.
  - lra.
Defined.

(** *** The iterative inverse of a spherical domain *)

Import InverseFacts.

Section Outside.

Variable d : Domain.
Variables cx cy r tx ty : R.
Hypothesis d_spherical : cls d = SphericalDomain.
Hypothesis d_center : center d = mkPoint (Fin cx) (Fin cy).
Hypothesis d_radius : radius d = Fin r.
Hypothesis r_nonzero : r <> 0.
Hypothesis far :
  Rabs r + 1 / 10 < sqrt ((tx - cx) * (tx - cx) + (ty - cy) * (ty - cy)).

Let target : Point := mkPoint (Fin tx) (Fin ty).

(** The residual magnitude of a guess, on reals. *)
Definition miss (gx gy : R) : R :=
  let q := sphere_image cx cy r gx gy in
  sqrt ((tx - fst q) * (tx - fst q) + (ty - snd q) * (ty - snd q)).

Lemma miss_far (gx gy : R) : 1 / 10 < miss gx gy.
Proof.
  unfold miss. cbv zeta.
  set (q := sphere_image cx cy r gx gy).
  pose proof (@sphere_image_disc cx cy r gx gy r_nonzero) as Hdisc.
  cbv zeta in Hdisc. fold q in Hdisc.
  pose proof (triangle tx ty cx cy (fst q) (snd q)) as Htri.
  unfold dist_euc, Rsqr in Htri.
  assert (Hq : sqrt ((fst q - cx) * (fst q - cx) + (snd q - cy) * (snd q - cy))
               <= Rabs r).
  { rewrite <- sqrt_Rsqr_abs. apply sqrt_le_1_alt. unfold Rsqr. exact Hdisc. }
  lra.
Qed.

Lemma residual_miss (gx gy : R) :
  Math.hypot (fst (residual d target (mkPoint (Fin gx) (Fin gy))))
             (snd (residual d target (mkPoint (Fin gx) (Fin gy))))
  = Fin (miss gx gy).
Proof.
  unfold residual.
  rewrite (@transform_spherical d cx cy r gx gy d_spherical d_center d_radius
             r_nonzero).
  reflexivity.
Qed.

Lemma never_converged (gx gy : R) :
  converged d target (Fin (1 / 10)) (mkPoint (Fin gx) (Fin gy)) = false.
Proof.
  unfold converged. rewrite residual_miss. apply ltb_Fin_false.
  pose proof (miss_far gx gy). lra.
Qed.

Lemma nudge_finite (gx gy : R) :
  exists gx' gy' : R,
    nudge d target (mkPoint (Fin gx) (Fin gy)) = mkPoint (Fin gx') (Fin gy').
Proof.
  unfold nudge, residual.
  rewrite (@transform_spherical d cx cy r gx gy d_spherical d_center d_radius
             r_nonzero).
  cbn [x y fst snd target sub add mul lift2]. eauto.
Qed.

Lemma guesses_finite (k : nat) :
  forall gx gy : R,
  exists gx' gy' : R,
    guess_from d target (mkPoint (Fin gx) (Fin gy)) k
    = mkPoint (Fin gx') (Fin gy').
Proof.
  induction k as [ | k IH]; intros gx gy; cbn [guess_from].
  - eauto.
  - destruct (nudge_finite gx gy) as (gx' & gy' & ->). apply IH.
Qed.

Lemma inverse_outside :
  exists gx gy : R,
    inverse d target = mkPoint (Fin gx) (Fin gy)
    /\ inverse d target = guess_from d target target 50
    /\ Math.hypot (x target - x (transform d (inverse d target) (Fin 1)))
                  (y target - y (transform d (inverse d target) (Fin 1)))
       = Fin (miss gx gy).
Proof.
  assert (Hall : inverse d target = guess_from d target target 50).
  { unfold inverse, _iterativeInverse.
    destruct (inverse_loop_spec d target (Fin (1 / 10)) 50 target)
      as [(k & _ & Hk & _) | (_ & Hres)]; [ | exact Hres].
    exfalso.
    destruct (guesses_finite k tx ty) as (gx & gy & Hg).
    change (mkPoint (Fin tx) (Fin ty)) with target in Hg.
    rewrite Hg, never_converged in Hk. discriminate. }
  destruct (guesses_finite 50 tx ty) as (gx & gy & Hg).
  change (mkPoint (Fin tx) (Fin ty)) with target in Hg.
  exists gx, gy. rewrite Hall, Hg.
  split; [reflexivity | ]. split; [reflexivity | ].
  apply residual_miss.
Qed.

End Outside.

(** X8: for a spherical domain, a target farther than |radius| + 0.1 from
    the centre has no preimage within the tolerance: [inverse] runs all its
    50 iterations, returns a point with real coordinates, and the forward
    image of that point misses the target by more than 0.1. *)
Theorem X8_spherical_inverse_outside (d : Domain) (cx cy r tx ty : R) :
  cls d = SphericalDomain ->
  center d = mkPoint (Fin cx) (Fin cy) -> radius d = Fin r -> r <> 0 ->
  Rabs r + 1 / 10 < sqrt ((tx - cx) * (tx - cx) + (ty - cy) * (ty - cy)) ->
  let target := mkPoint (Fin tx) (Fin ty) in
  exists gx gy res : R,
    inverse d target = mkPoint (Fin gx) (Fin gy)
    /\ inverse d target = guess_from d target target 50
    /\ Math.hypot (x target - x (transform d (inverse d target) (Fin 1)))
                  (y target - y (transform d (inverse d target) (Fin 1)))
       = Fin res
    /\ 1 / 10 < res.
Proof.
  intros Hcls Hc Hr Hr0 Hfar target.
  destruct (@inverse_outside d cx cy r tx ty Hcls Hc Hr Hr0 Hfar)
    as (gx & gy & Hg & Hall & Hres).
  exists gx, gy, (miss cx cy r tx ty gx gy).
  split; [exact Hg | ]. split; [exact Hall | ]. split; [exact Hres | ].
  now apply miss_far.
Qed.


Lemma X8_spherical_inverse_outside_witness :
  exists gx gy res : R,
    inverse (sphere_at 0 0 100) (mkPoint (Fin 300) (Fin 0))
    = mkPoint (Fin gx) (Fin gy)
    /\ Math.hypot
         (Fin 300 - x (transform (sphere_at 0 0 100)
                         (inverse (sphere_at 0 0 100) (mkPoint (Fin 300) (Fin 0)))
                         (Fin 1)))%num
         (Fin 0 - y (transform (sphere_at 0 0 100)
                       (inverse (sphere_at 0 0 100) (mkPoint (Fin 300) (Fin 0)))
                       (Fin 1)))%num
       = Fin res
    /\ 1 / 10 < res.
Proof.
  destruct (@X8_spherical_inverse_outside (sphere_at 0 0 100) 0 0 100 300 0)
    as (gx & gy & res & Hg & _ & Hres & Hfar).
  - reflexivity.
  - reflexivity.
  - apply sphere_at_radius. lra.
  - lra.
  - replace ((300 - 0) * (300 - 0) + (0 - 0) * (0 - 0)) with (300 * 300) by ring.
    rewrite sqrt_square by lra. rewrite Rabs_right by lra. lra.
  - exists gx, gy, res. split; [exact Hg | ]. split; [exact Hres | exact Hfar].
Defined.

End GeometryFacts.

(** ** Where a domain acts *)

Module SupportFacts.

Import AdaptiveGrid WeightFacts CopyFacts BlendFacts GridSizeFacts.

Local Open Scope R_scope.

(** The distance of two points with real coordinates. *)
Definition dist (cx cy px py : R) : R :=
  sqrt ((px - cx) * (px - cx) + (py - cy) * (py - cy)).

Lemma dist_nonneg (cx cy px py : R) : 0 <= dist cx cy px py.
Proof. apply sqrt_pos. Qed.

Lemma distance_dist (d : Domain) (cx cy px py : R) :
  center d = mkPoint (Fin cx) (Fin cy) ->
  distance d (mkPoint (Fin px) (Fin py)) = Fin (dist cx cy px py).
Proof. intros Hc. unfold distance. rewrite Hc. reflexivity. Qed.

Lemma weightAt_profile (d : Domain) (cx cy r px py : R) :
  center d = mkPoint (Fin cx) (Fin cy) -> radius d = Fin r -> 0 < r ->
  weightAt d (mkPoint (Fin px) (Fin py))
  = Fin (profile (blendMode d) (dist cx cy px py) r).
Proof.
  intros Hc Hr Hpos.
  rewrite weightAt_distance, (distance_dist d px py Hc), Hr.
  apply blendingFunctions_profile. lra.
Qed.

Lemma profile_range (mode : BlendMode) (t r : R) :
  0 < r -> 0 <= t -> 0 <= profile mode t r <= 1.
Proof.
  intros Hr Ht. destruct mode; unfold profile.
  - destruct (Rle_dec t r); lra.
  - assert (0 <= t / r) by (apply Rmult_le_pos; [lra | left; now apply Rinv_0_lt_compat]).
    unfold Rmax. destruct (Rle_dec 0 (1 - t / r)); lra.
  - pose proof (COS_bound (PI * Rmin 1 (t / r))). lra.
Qed.

Lemma ratio_ge_1 (t r : R) : 0 < r -> r <= t -> 1 <= t / r.
Proof.
  intros Hr Ht. apply Rmult_le_reg_r with r; [exact Hr | ].
  replace (t / r * r) with t by (field; lra). lra.
Qed.

(** A positive weight is only found inside the disc. *)
Lemma profile_support (mode : BlendMode) (t r : R) :
  0 < r -> 0 < profile mode t r -> t <= r.
Proof.
  intros Hr Hp. destruct (Rle_dec t r) as [ | Hout]; [assumption | exfalso].
  assert (Hrt : r <= t) by lra.
  pose proof (ratio_ge_1 Hr Hrt) as Hq.
  destruct mode; unfold profile in Hp.
  - destruct (Rle_dec t r); lra.
  - unfold Rmax in Hp. destruct (Rle_dec 0 (1 - t / r)); lra.
  - rewrite Rmin_left in Hp by exact Hq. rewrite Rmult_1_r, cos_PI in Hp. lra.
Qed.

(** On and beyond the circle the linear and the smooth weight are 0;
    beyond it the sharp weight is. *)
Lemma profile_outside (mode : BlendMode) (t r : R) :
  0 < r ->
  match mode with sharp => r < t | _ => r <= t end ->
  profile mode t r = 0.
Proof.
  intros Hr Ht. destruct mode; unfold profile.
  - destruct (Rle_dec t r); lra.
  - pose proof (ratio_ge_1 Hr Ht). unfold Rmax.
    destruct (Rle_dec 0 (1 - t / r)); lra.
  - pose proof (ratio_ge_1 Hr Ht) as Hq.
    rewrite Rmin_left by exact Hq. rewrite Rmult_1_r, cos_PI. lra.
Qed.


(** *** The effective grid size stays between a fifth of the base size and
    the base size *)

(** A domain with a real centre and a positive radius; a conic one with an
    eccentricity from 0 to 2.5, so that its curvature factor
    1 - 0.4 * eccentricity is from 0 to 1. *)
Definition tame (d : Domain) : Prop :=
  (exists cx cy : R, center d = mkPoint (Fin cx) (Fin cy))
  /\ (exists r : R, radius d = Fin r /\ 0 < r)
  /\ (type d = "conic"%string ->
      exists e : R,
        or_default (eccentricity (options d)) (Fin (5 / 10)) = Fin e
        /\ 0 <= e <= 5 / 2).

Lemma active_inside (d : Domain) (cx cy r px py : R) :
  center d = mkPoint (Fin cx) (Fin cy) -> radius d = Fin r -> 0 < r ->
  active (mkPoint (Fin px) (Fin py)) d = true ->
  0 < profile (blendMode d) (dist cx cy px py) r
  /\ dist cx cy px py <= r.
Proof.
  intros Hc Hr Hpos Hact. unfold active in Hact.
  rewrite (weightAt_profile d px py Hc Hr Hpos) in Hact.
  apply gtb_Fin in Hact. split; [exact Hact | ].
  now apply profile_support with (blendMode d).
Qed.

Lemma curvature_range (d : Domain) (px py : R) :
  tame d -> active (mkPoint (Fin px) (Fin py)) d = true ->
  exists cf : R,
    curvatureFactor d (mkPoint (Fin px) (Fin py)) = Fin cf /\ 0 <= cf <= 1.
Proof.
  intros ((cx & cy & Hc) & (r & Hr & Hpos) & Hconic) Hact.
  destruct (active_inside d px py Hc Hr Hpos Hact) as [_ Hin].
  pose proof (dist_nonneg cx cy px py) as Hd.
  unfold curvatureFactor. rewrite Hc, Hr.
  change (Math.hypot (x (mkPoint (Fin px) (Fin py)) - x (mkPoint (Fin cx) (Fin cy)))%num
                     (y (mkPoint (Fin px) (Fin py)) - y (mkPoint (Fin cx) (Fin cy)))%num)
    with (Fin (dist cx cy px py)).
  set (t := dist cx cy px py) in *.
  destruct (String.eqb (type d) "spherical").
  - rewrite div_Fin by lra. cbn [mul sub lift2]. unfold Math.min. cbn [lift2 sub].
    eexists. split; [reflexivity | ].
    assert (Hq : 0 <= t / r <= 1).
    { split.
      - apply Rmult_le_pos; [lra | left; now apply Rinv_0_lt_compat].
      - apply Rmult_le_reg_r with r; [exact Hpos | ].
        replace (t / r * r) with t by (field; lra). lra. }
    assert (Hqq : 0 <= t / r * (t / r) <= 1) by nra.
    unfold Rmin. destruct (Rle_dec (5 / 10) (1 - t / r * (t / r))); lra.
  - destruct (String.eqb (type d) "cylindrical").
    + eexists. split; [reflexivity | lra].
    + destruct (String.eqb (type d) "conic") eqn:Hty.
      * apply String.eqb_eq in Hty. destruct (Hconic Hty) as (e & -> & He).
        cbn [mul sub lift2]. eexists. split; [reflexivity | lra].
      * eexists. split; [reflexivity | lra].
Qed.

Lemma factor_range (d : Domain) (px py : R) :
  tame d -> active (mkPoint (Fin px) (Fin py)) d = true ->
  exists f : R, factor (mkPoint (Fin px) (Fin py)) d = Fin f /\ 0 <= f <= 1.
Proof.
  intros Htame Hact.
  destruct (curvature_range px py Htame Hact) as (cf & Hcf & Hcfr).
  destruct Htame as ((cx & cy & Hc) & (r & Hr & Hpos) & _).
  destruct (active_inside d px py Hc Hr Hpos Hact) as [Hw _].
  pose proof (profile_range (blendMode d) Hpos (dist_nonneg cx cy px py)) as Hwr.
  unfold factor. rewrite Hcf, (weightAt_profile d px py Hc Hr Hpos).
  set (w := profile (blendMode d) (dist cx cy px py) r) in *.
  cbn [add sub mul lift2]. eexists. split; [reflexivity | ]. nra.
Qed.

Lemma multiplier_range (ds : list Domain) (px py : R) :
  Forall tame ds ->
  exists mu : R, multiplier ds (mkPoint (Fin px) (Fin py)) = Fin mu /\ 0 <= mu <= 1.
Proof.
  induction 1 as [ | d ds Hd Hds IH].
  - exists 1. split; [reflexivity | lra].
  - destruct IH as (mu & Hmu & Hrange).
    unfold multiplier in *. cbn [filter].
    destruct (active (mkPoint (Fin px) (Fin py)) d) eqn:Hact.
    + destruct (factor_range px py Hd Hact) as (f & Hf & Hfr).
      cbn [map nprod fold_right]. fold (nprod (map (factor (mkPoint (Fin px) (Fin py)))
                       (filter (active (mkPoint (Fin px) (Fin py))) ds))).
      rewrite Hf, Hmu. exists (f * mu). split; [reflexivity | nra].
    + exists mu. split; [exact Hmu | exact Hrange].
Qed.

Lemma calculateGridSize_range (m : DeformationManager.t) (px py base : R) :
  0 <= base ->
  Forall tame (DeformationManager.domains m) ->
  exists g : R,
    DeformationManager.calculateGridSize m (mkPoint (Fin px) (Fin py)) (Fin base)
    = Fin g
    /\ base * (2 / 10) <= g <= base.
Proof.
  intros Hbase Htame.
  destruct (multiplier_range px py Htame) as (mu & Hmu & Hrange).
  rewrite calculateGridSize_spec, Hmu.
  exists (Rmax (base * (2 / 10)) (base * mu)). split; [reflexivity | ].
  split; [apply Rmax_l | ]. apply Rmax_lub; nra.
Qed.

(** X9: with a base grid size that is not negative and a registry of tame
    domains, the effective grid size at every point with real coordinates
    is a real number from a fifth of the base size to the base size: the
    domains only ever refine the grid.  The same holds of
    [calculateGridSize] on any manager of tame domains. *)
Theorem X9_grid_size_bounds (st : State) (px py base : R)
    (rand : nat -> nat -> Z) :
  size (grid (mergedParams st)) = Fin base -> 0 <= base ->
  Forall registered (transformationDomains st) ->
  Forall tame (transformationDomains st) ->
  (exists g : R,
     calculateEffectiveGridSize st (mkPoint (Fin px) (Fin py)) rand
     = Return (Fin g)
     /\ base * (2 / 10) <= g <= base)
  /\ (forall m : DeformationManager.t,
        Forall tame (DeformationManager.domains m) ->
        exists g : R,
          DeformationManager.calculateGridSize m (mkPoint (Fin px) (Fin py))
                                               (Fin base)
          = Fin g
          /\ base * (2 / 10) <= g <= base).
Proof.
  intros Hsize Hbase Hreg Htame. split.
  - rewrite (@calculateEffectiveGridSize_spec st (mkPoint (Fin px) (Fin py)) rand Hreg).
    rewrite Hsize.
    destruct (multiplier_range px py Htame) as (mu & Hmu & Hrange).
    rewrite Hmu.
    exists (Rmax (base * (2 / 10)) (base * mu)). split; [reflexivity | ].
    split; [apply Rmax_l | ]. apply Rmax_lub; nra.
  - intros m Hm. now apply calculateGridSize_range.
Qed.

Import RegistryFacts GridCellFacts.

Lemma the_sphere_tame : tame the_sphere.
Proof.
  split; [now exists 0, 0 | ].
  split; [exists 100; split; [apply the_sphere_radius | lra] | ].
  discriminate.
Qed.

Lemma with_sphere_registered :
  Forall registered (transformationDomains with_sphere).
Proof.
  unfold with_sphere. apply create_registered. constructor.
Qed.

Lemma X9_grid_size_bounds_witness :
  exists g : R,
    calculateEffectiveGridSize with_sphere (mkPoint (Fin 30) (Fin 40))
                               (fun _ _ => 0%Z)
    = Return (Fin g)
    /\ 20 * (2 / 10) <= g <= 20.
Proof.
  refine (proj1 (@X9_grid_size_bounds with_sphere 30 40 20 (fun _ _ => 0%Z)
                   _ _ _ _)).
  - destruct with_sphere_frame as (_ & -> & _). reflexivity.
  - lra.
  - exact with_sphere_registered.
  - destruct with_sphere_frame as (-> & _).
    constructor; [exact the_sphere_tame | constructor].
Defined.

(** *** No domain acts outside its disc *)

(** The point lies outside the disc of the domain: on or beyond the circle,
    or beyond it when the domain blends sharply. *)
Definition outside (px py : R) (d : Domain) : Prop :=
  exists cx cy r : R,
    center d = mkPoint (Fin cx) (Fin cy)
    /\ radius d = Fin r /\ 0 < r
    /\ match blendMode d with
       | sharp => r < dist cx cy px py
       | _ => r <= dist cx cy px py
       end.

Lemma outside_weight (px py : R) (d : Domain) :
  outside px py d -> weightAt d (mkPoint (Fin px) (Fin py)) = Fin 0.
Proof.
  intros (cx & cy & r & Hc & Hr & Hpos & Hout).
  rewrite (weightAt_profile d px py Hc Hr Hpos). f_equal.
  now apply profile_outside.
Qed.

Lemma outside_weights (px py : R) (ds : list Domain) :
  Forall (outside px py) ds ->
  Forall (fun d => weightAt d (mkPoint (Fin px) (Fin py)) = Fin 0) ds.
Proof.
  intros H. eapply Forall_impl; [ | exact H]. intros d. apply outside_weight.
Qed.

Lemma zero_not_active (point : Point) (ds : list Domain) :
  Forall (fun d => weightAt d point = Fin 0) ds ->
  Forall (fun d => active point d = false) ds.
Proof.
  intros H. eapply Forall_impl; [ | exact H]. intros d Hw.
  unfold active. rewrite Hw. apply gtb_Fin_false. lra.
Qed.

Lemma blend_outside (px py : R) (ds : list Domain) :
  Forall (outside px py) ds ->
  blend ds (mkPoint (Fin px) (Fin py)) = mkPoint (Fin px) (Fin py).
Proof.
  intros Hout. apply outside_weights in Hout.
  unfold blend, flat. rewrite (LegacyFacts.zero_weight_sum _ Hout).
  cbn [sub lift2]. unfold Math.max. cbn [lift2].
  replace (Fin (Rmax 0 (1 - 0)) === Fin 1)%num with true; [reflexivity | ].
  symmetry. apply eqb_Fin. rewrite Rmax_right; lra.
Qed.

(** X10: at a point that lies outside the disc of every domain of the
    registry, the engine's [transformPoint] and the manager's
    [transformPoint] return the point itself, and the effective grid size
    is the base size. *)
Theorem X10_identity_outside_discs (st : State) (px py : R)
    (rand : nat -> nat -> Z) :
  coherent st ->
  Forall (outside px py) (transformationDomains st) ->
  let point := mkPoint (Fin px) (Fin py) in
  fst (transformPoint st point) = point
  /\ (forall m,
        DeformationManager.domains m = transformationDomains st ->
        DeformationManager.transformPoint m point = point)
  /\ (forall base : R,
        size (grid (mergedParams st)) = Fin base -> 0 <= base ->
        Forall registered (transformationDomains st) ->
        calculateEffectiveGridSize st point rand = Return (Fin base)).
Proof.
  intros Hco Hout point. subst point.
  set (point := mkPoint (Fin px) (Fin py)).
  split; [ | split].
  - destruct (transformPoint_blend point Hco) as [-> _].
    now apply blend_outside.
  - intros m Hm. rewrite LegacyFacts.transformPoint_legacy_blend, Hm.
    unfold LegacyFacts.legacy_blend.
    unfold point.
    now rewrite (LegacyFacts.zero_inactive _ (outside_weights Hout)).
  - intros base Hsize Hbase Hreg.
    rewrite (@calculateEffectiveGridSize_spec st point rand Hreg), Hsize.
    unfold point.
    rewrite (@multiplier_inactive _ _
               (@zero_not_active _ _ (outside_weights Hout))).
    cbn [mul lift2]. unfold Math.max. cbn [lift2]. do 2 f_equal.
    rewrite Rmax_right; lra.
Qed.

Lemma the_sphere_outside : outside 300 400 the_sphere.
Proof.
  exists 0, 0, 100. split; [reflexivity | ].
  split; [apply the_sphere_radius | ]. split; [lra | ].
  change (blendMode the_sphere) with smooth. cbv iota.
  unfold dist.
  replace ((300 - 0) * (300 - 0) + (400 - 0) * (400 - 0)) with (500 * 500) by ring.
  rewrite sqrt_square; lra.
Qed.

Lemma X10_identity_outside_discs_witness :
  fst (transformPoint with_sphere (mkPoint (Fin 300) (Fin 400)))
  = mkPoint (Fin 300) (Fin 400).
Proof.
  refine (proj1 (@X10_identity_outside_discs with_sphere 300 400
                   (fun _ _ => 0%Z) _ _)).
  - destruct with_sphere_frame as (_ & _ & _ & _ & H). exact H.
  - destruct with_sphere_frame as (-> & _).
    constructor; [exact the_sphere_outside | constructor].
Defined.


(** *** [isPointInDomain] and [distanceBetween] *)

Lemma distanceBetween_sym (p q : Point) :
  distanceBetween p q = distanceBetween q p.
Proof.
  unfold distanceBetween.
  destruct p as [[px | ] [py | ]], q as [[qx | ] [qy | ]]; cbn [x y sub lift2];
    try reflexivity.
  unfold Math.hypot. cbn [lift2]. do 2 f_equal. ring.
Qed.

(** X11: for a domain with a real centre and a positive radius,
    [isPointInDomain] holds exactly on the closed disc, which is where the
    sharp blending function is 1; every point with a positive weight, in
    any blend mode, is in the domain, and a point that is not in the domain
    has weight 0.  [distanceBetween] gives the distance from the centre and
    does not depend on the order of its arguments. *)
Theorem X11_point_in_domain (d : Domain) (cx cy r px py : R) :
  center d = mkPoint (Fin cx) (Fin cy) -> radius d = Fin r -> 0 < r ->
  let point := mkPoint (Fin px) (Fin py) in
  (isPointInDomain point d = true <-> dist cx cy px py <= r)
  /\ (isPointInDomain point d = true
      <-> blendingFunctions sharp (distance d point) (radius d) = Fin 1)
  /\ ((weightAt d point >? Fin 0)%num = true -> isPointInDomain point d = true)
  /\ (isPointInDomain point d = false -> weightAt d point = Fin 0)
  /\ distanceBetween (center d) point = Fin (dist cx cy px py)
  /\ distanceBetween point (center d) = distanceBetween (center d) point.
Proof.
  intros Hc Hr Hpos point. subst point.
  set (point := mkPoint (Fin px) (Fin py)).
  assert (Hin : isPointInDomain point d = true <-> dist cx cy px py <= r).
  { unfold isPointInDomain. rewrite Hc, Hr. apply leb_Fin. }
  split; [exact Hin | ].
  split.
  { rewrite Hin. unfold point. rewrite (distance_dist d px py Hc), Hr.
    cbn [blendingFunctions]. split.
    - intros H. apply leb_Fin in H. now rewrite H.
    - intros H. destruct (Fin (dist cx cy px py) <=? Fin r)%num eqn:Hle.
      + now apply leb_Fin in Hle.
      + injection H as H. lra. }
  split.
  { intros Hact. apply Hin.
    now destruct (active_inside d px py Hc Hr Hpos Hact). }
  split.
  { intros Hout. unfold point. rewrite (weightAt_profile d px py Hc Hr Hpos).
    f_equal.
    assert (Hfar : r < dist cx cy px py).
    { destruct (Rlt_le_dec r (dist cx cy px py)) as [ | Hle]; [assumption | ].
      apply Hin in Hle. congruence. }
    apply profile_outside; [exact Hpos | ]. destruct (blendMode d); lra. }
  split.
  { unfold distanceBetween. rewrite Hc. reflexivity. }
  apply distanceBetween_sym.
Qed.

Lemma X11_point_in_domain_witness :
  isPointInDomain (mkPoint (Fin 30) (Fin 40)) the_sphere = true.
Proof.
  apply (proj1 (@X11_point_in_domain the_sphere 0 0 100 30 40
                  eq_refl the_sphere_radius ltac:(lra))).
  unfold dist.
  replace ((30 - 0) * (30 - 0) + (40 - 0) * (40 - 0)) with (50 * 50) by ring.
  rewrite sqrt_square; lra.
Defined.

End SupportFacts.

(** ** The harmonic and the Gaussian class *)

Module FieldFacts.

Local Open Scope R_scope.

Lemma exp_nonpos_le_1 (t : R) : t <= 0 -> 0 < exp t <= 1.
Proof.
  intros Ht. split; [apply exp_pos | ].
  destruct (Rle_lt_or_eq_dec _ _ Ht) as [Hlt | ->].
  - apply exp_increasing in Hlt. rewrite exp_0 in Hlt. lra.
  - rewrite exp_0. lra.
Qed.

(** The Gaussian field on reals: the four bumps at (+-0.5, +-0.5), the two
    on the diagonal counted up and the other two down. *)
Definition bump (spread u v bx by_ : R) : R :=
  exp ((0 - ((u - bx) * (u - bx) + (v - by_) * (v - by_))) * spread).

Definition field (spread u v : R) : R :=
  0 + 1 * bump spread u v (5 / 10) (5 / 10)
  + 1 * bump spread u v (- (5 / 10)) (- (5 / 10))
  + -1 * bump spread u v (5 / 10) (- (5 / 10))
  + -1 * bump spread u v (- (5 / 10)) (5 / 10).

Lemma gaussian_deformation_field (spread u v : R) :
  gaussian_deformation (Fin spread) (Fin u) (Fin v) = Fin (field spread u v).
Proof. reflexivity. Qed.

Lemma bump_range (spread u v bx by_ : R) :
  0 <= spread -> 0 < bump spread u v bx by_ <= 1.
Proof.
  intros Hs. unfold bump. apply exp_nonpos_le_1.
  pose proof (Rle_0_sqr (u - bx)) as Hx. pose proof (Rle_0_sqr (v - by_)) as Hy.
  unfold Rsqr in Hx, Hy.
  assert (0 <= ((u - bx) * (u - bx) + (v - by_) * (v - by_)) * spread)
    by (apply Rmult_le_pos; lra).
  lra.
Qed.

Lemma field_range (spread u v : R) : 0 <= spread -> -2 < field spread u v < 2.
Proof.
  intros Hs. unfold field.
  pose proof (bump_range u v (5 / 10) (5 / 10) Hs).
  pose proof (bump_range u v (- (5 / 10)) (- (5 / 10)) Hs).
  pose proof (bump_range u v (5 / 10) (- (5 / 10)) Hs).
  pose proof (bump_range u v (- (5 / 10)) (5 / 10) Hs).
  lra.
Qed.

Lemma field_axes (spread u v : R) : u = 0 \/ v = 0 -> field spread u v = 0.
Proof.
  intros [-> | ->]; unfold field, bump.
  - replace ((0 - (5 / 10)) * (0 - (5 / 10))) with ((0 - - (5 / 10)) * (0 - - (5 / 10)))
      by ring.
    ring.
  - replace ((0 - (5 / 10)) * (0 - (5 / 10))) with ((0 - - (5 / 10)) * (0 - - (5 / 10)))
      by ring.
    ring.
Qed.

(** X12: a harmonic domain moves each coordinate of a point by at most
    |amplitude|.  A Gaussian-curvature domain with a spread that is not
    negative moves both coordinates by the same amount, at most
    2 |amplitude|, and leaves in place every point on the two axes through
    its centre. *)
Theorem X12_bounded_displacement (d : Domain) (cx cy a px py : R)
    (direction : num) :
  center d = mkPoint (Fin cx) (Fin cy) -> amplitude d = Fin a ->
  (forall freqX freqY phase : R,
     cls d = HarmonicDomain (Fin freqX) (Fin freqY) (Fin phase) ->
     exists qx qy : R,
       transform d (mkPoint (Fin px) (Fin py)) direction
       = mkPoint (Fin qx) (Fin qy)
       /\ Rabs (qx - px) <= Rabs a /\ Rabs (qy - py) <= Rabs a)
  /\ (forall spread r : R,
        cls d = GaussianCurvatureDomain (Fin spread) ->
        radius d = Fin r -> r <> 0 -> 0 <= spread ->
        exists qx qy : R,
          transform d (mkPoint (Fin px) (Fin py)) direction
          = mkPoint (Fin qx) (Fin qy)
          /\ qx - px = qy - py
          /\ Rabs (qx - px) <= 2 * Rabs a
          /\ (px = cx \/ py = cy -> qx = px /\ qy = py)).
Proof.
  intros Hc Ha. split.
  - intros fx fy ph Hcls. unfold transform. rewrite Hcls, Hc, Ha.
    cbn [x y]. unfold Math.sin, Math.cos. cbn [sub add mul lift1 lift2].
    eexists. eexists. split; [reflexivity | ].
    split.
    + replace (px + sin ((px - cx) * fx + ph) * a - px)
        with (sin ((px - cx) * fx + ph) * a) by ring.
      rewrite Rabs_mult.
      pose proof (SIN_bound ((px - cx) * fx + ph)) as [Hlo Hhi].
      assert (Rabs (sin ((px - cx) * fx + ph)) <= 1) by (apply Rabs_le; lra).
      pose proof (Rabs_pos a). nra.
    + replace (py + cos ((py - cy) * fy + ph) * a - py)
        with (cos ((py - cy) * fy + ph) * a) by ring.
      rewrite Rabs_mult.
      pose proof (COS_bound ((py - cy) * fy + ph)) as [Hlo Hhi].
      assert (Rabs (cos ((py - cy) * fy + ph)) <= 1) by (apply Rabs_le; lra).
      pose proof (Rabs_pos a). nra.
  - intros sp r Hcls Hr Hr0 Hsp. unfold transform. rewrite Hcls, Hc, Ha, Hr.
    cbn [x y sub lift2]. rewrite !div_Fin by exact Hr0.
    rewrite gaussian_deformation_field. cbn [add mul lift2].
    set (f := field sp ((px - cx) / r) ((py - cy) / r)).
    eexists. eexists. split; [reflexivity | ].
    split; [ring | ].
    split.
    + replace (px + f * a - px) with (f * a) by ring. rewrite Rabs_mult.
      pose proof (field_range ((px - cx) / r) ((py - cy) / r) Hsp) as Hf.
      fold f in Hf.
      assert (Rabs f <= 2) by (apply Rabs_le; lra).
      pose proof (Rabs_pos a). nra.
    + intros Haxis.
      assert (Hf0 : f = 0).
      { unfold f. apply field_axes. destruct Haxis as [-> | ->]; [left | right];
          unfold Rdiv; ring. }
      rewrite Hf0. split; ring.
Qed.

(** A harmonic domain of amplitude 10, built by its constructor. *)
Definition harmonic_ten : Domain :=
  HarmonicDomain_new
    (ArgObject {| cfg_type := None; cfg_center := None; cfg_radius := None;
                  cfg_amplitude := Some (Fin 10); cfg_blendMode := None;
                  cfg_options := None;
                  cfg_scale := None; cfg_octaves := None;
                  cfg_persistence := None;
                  cfg_freqX := None; cfg_freqY := None; cfg_phase := None;
                  cfg_spread := None |}).

Lemma harmonic_ten_amplitude : amplitude harmonic_ten = Fin 10.
Proof.
  unfold harmonic_ten, HarmonicDomain_new, Domain_new.
  cbn [amplitude prop cfg_amplitude]. unfold or_default, truthy.
  destruct (Req_dec_T 10 0); [lra | reflexivity].
Qed.

Lemma X12_bounded_displacement_witness :
  exists qx qy : R,
    transform harmonic_ten (mkPoint (Fin 1) (Fin 2)) (Fin 1)
    = mkPoint (Fin qx) (Fin qy)
    /\ Rabs (qx - 1) <= Rabs 10 /\ Rabs (qy - 2) <= Rabs 10.
Proof.
  refine (proj1 (@X12_bounded_displacement harmonic_ten 0 0 10 1 2 (Fin 1) _ _)
                3 2 0 _).
  - reflexivity.
  - exact harmonic_ten_amplitude.
  - reflexivity.
Defined.

End FieldFacts.

(** ** The manager, the legacy API and the presets *)

Module ManagerFacts.

Import AdaptiveGrid CopyFacts.

Local Open Scope string_scope.

(** *** [removeDomain] *)

(** X13: [removeDomain] with an index below 0 or not below the number of
    domains changes nothing; with an index in range it takes out exactly
    the domain at that index: one domain less, those before it in place,
    those after it moved down by one.  The blend mode is kept. *)
Theorem X13_removeDomain (m : DeformationManager.t) (index : Z) :
  let ds := DeformationManager.domains m in
  let ds' := DeformationManager.domains (DeformationManager.removeDomain m index) in
  DeformationManager.blendMode (DeformationManager.removeDomain m index)
  = DeformationManager.blendMode m
  /\ ((index < 0 \/ Z.of_nat (List.length ds) <= index)%Z ->
      DeformationManager.removeDomain m index = m)
  /\ ((0 <= index < Z.of_nat (List.length ds))%Z ->
      S (List.length ds') = List.length ds
      /\ (forall j, (j < Z.to_nat index)%nat -> nth_error ds' j = nth_error ds j)
      /\ (forall j, (Z.to_nat index <= j)%nat ->
                    nth_error ds' j = nth_error ds (S j))).
Proof.
  intros ds ds'. subst ds ds'. unfold DeformationManager.removeDomain.
  destruct m as [ds bm]. cbn [DeformationManager.domains DeformationManager.blendMode].
  destruct ((0 <=? index) && (index <? Z.of_nat (List.length ds)))%Z eqn:Htest.
  - apply andb_true_iff in Htest. destruct Htest as [H0 H1].
    apply Z.leb_le in H0. apply Z.ltb_lt in H1.
    cbn [DeformationManager.domains DeformationManager.blendMode].
    split; [reflexivity | ]. split; [intros [H | H]; lia | ].
    intros _. set (i := Z.to_nat index).
    assert (Hi : (i < List.length ds)%nat) by (unfold i; lia).
    split; [ | split].
    + rewrite length_app, length_firstn, length_skipn. lia.
    + intros j Hj. rewrite nth_error_app1 by (rewrite length_firstn; lia).
      rewrite nth_error_firstn.
      now replace (j <? i)%nat with true by (symmetry; apply Nat.ltb_lt; lia).
    + intros j Hj. rewrite nth_error_app2 by (rewrite length_firstn; lia).
      rewrite length_firstn, nth_error_skipn. f_equal. lia.
  - split; [reflexivity | ]. split; [reflexivity | ].
    intros [H0 H1]. apply Z.leb_le in H0. apply Z.ltb_lt in H1.
    rewrite H0, H1 in Htest. discriminate.
Qed.


(** *** Configurations the factory does not know *)

(** The configuration names one of the six types of the factory. *)
Definition known (config : Config) : bool :=
  match cfg_type config with
  | Some type =>
      match DomainFactory.constructorMap type with
      | Some _ => true
      | None => false
      end
  | None => false
  end.

Lemma new_type (C : DomainFactory.Constructor) (type : string) (config : Config)
    (perm : nat -> Z) :
  DomainFactory.constructorMap type = Some C ->
  Deformation.type (DomainFactory.new C type config perm) = type.
Proof.
  intros H. apply constructorMap_type in H. subst type. now destruct C.
Qed.

Lemma addDomain_known (m : DeformationManager.t) (config : Config)
    (perm : nat -> Z) :
  known config = true ->
  exists d,
    DeformationManager.addDomain m config perm
    = Return (d, {| DeformationManager.domains :=
                      (DeformationManager.domains m ++ [d])%list;
                    DeformationManager.blendMode :=
                      DeformationManager.blendMode m |})
    /\ Some (type d) = cfg_type config.
Proof.
  unfold known, DeformationManager.addDomain, DomainFactory.create.
  destruct (cfg_type config) as [ty | ]; [ | discriminate].
  destruct (DomainFactory.constructorMap ty) as [C | ] eqn:HC; [ | discriminate].
  intros _. eexists. split; [reflexivity | ].
  now rewrite (@new_type C ty config perm HC).
Qed.


(** The domain objects a list of known configurations is made into. *)
Fixpoint made (configs : list Config) (rand : nat -> nat -> Z) (i : nat)
  : list Domain :=
  match configs with
  | [] => []
  | config :: rest =>
      match cfg_type config with
      | Some type =>
          match DomainFactory.create type config (rand i) with
          | Return d => d :: made rest rand (S i)
          | Throw _ => []
          end
      | None => []
      end
  end.

Lemma addDomains_known (configs : list Config) (rand : nat -> nat -> Z) :
  forallb known configs = true ->
  forall (m : DeformationManager.t) (i : nat),
    legacyAPI.addDomains m configs rand i
    = Return {| DeformationManager.domains :=
                  (DeformationManager.domains m ++ made configs rand i)%list;
                DeformationManager.blendMode := DeformationManager.blendMode m |}
    /\ map (fun d => Some (type d)) (made configs rand i) = map cfg_type configs.
Proof.
  induction configs as [ | config rest IH]; intros Hall m i.
  - cbn [made]. rewrite app_nil_r. now destruct m.
  - cbn [forallb] in Hall. apply andb_true_iff in Hall. destruct Hall as [Hk Hrest].
    destruct (@addDomain_known m config (rand i) Hk) as (d & Hd & Hty).
    cbn [legacyAPI.addDomains made]. rewrite Hd.
    unfold DeformationManager.addDomain in Hd.
    destruct (cfg_type config) as [ty | ] eqn:Hcfg; [ | discriminate].
    destruct (DomainFactory.create ty config (rand i)) as [d' | ]; [ | discriminate].
    injection Hd as ->.
    destruct (IH Hrest
                {| DeformationManager.domains :=
                     (DeformationManager.domains m ++ [d])%list;
                   DeformationManager.blendMode := DeformationManager.blendMode m |}
                (S i)) as (Hds & Htys).
    rewrite Hds. cbn [DeformationManager.domains DeformationManager.blendMode].
    rewrite <- app_assoc. split; [reflexivity | ].
    cbn [map]. now rewrite Hty, Htys, Hcfg.
Qed.




(** *** Presets *)

Import FactoryFacts.

Lemma made_default (configs : list Config) (rand : nat -> nat -> Z) :
  forall i,
    Forall (fun d => In (type d) one_parameter_types ->
                     exists perm, d = default_domain (type d) perm)
           (made configs rand i).
Proof.
  induction configs as [ | config rest IH]; intros i; cbn [made].
  - constructor.
  - destruct (cfg_type config) as [ty | ]; [ | constructor].
    destruct (DomainFactory.create ty config (rand i)) as [d | ] eqn:Hd;
      [ | constructor].
    constructor; [ | apply IH].
    intros Hin. exists (rand i).
    assert (Hty : type d = ty).
    { unfold DomainFactory.create in Hd.
      destruct (DomainFactory.constructorMap ty) as [C | ] eqn:HC; [ | discriminate].
      injection Hd as <-. now apply new_type. }
    rewrite Hty in *. rewrite (create_default config (rand i) Hin) in Hd.
    now injection Hd.
Qed.

(** X15: [createPreset] throws for a name that is no preset, and for each
    of the three presets returns a manager in smooth mode with one domain
    per configuration of the preset, in order and of the type named; the
    noise, harmonic and Gaussian-curvature domains among them are the
    default ones of their class: what the preset lists for them (scale,
    octaves, frequencies, spread, amplitude) is not used. *)
Theorem X15_createPreset (presetName : string) (rand : nat -> nat -> Z) :
  (builtInPresets presetName = None ->
   exists e, createPreset presetName rand = Throw e)
  /\ (forall configs,
        builtInPresets presetName = Some configs ->
        exists m,
          createPreset presetName rand = Return m
          /\ DeformationManager.blendMode m = Some smooth
          /\ map (fun d => Some (type d)) (DeformationManager.domains m)
             = map cfg_type configs
          /\ Forall (fun d => In (type d) one_parameter_types ->
                              exists perm, d = default_domain (type d) perm)
                    (DeformationManager.domains m))
  /\ (builtInPresets presetName <> None
      <-> In presetName ["basicSphere"; "organicTerrain"; "mechanicalSurface"]).
Proof.
  split; [ | split].
  - intros Hnone. unfold createPreset. rewrite Hnone. eauto.
  - intros configs Hsome. unfold createPreset. rewrite Hsome.
    assert (Hk : forallb known configs = true).
    { unfold builtInPresets in Hsome.
      destruct (String.eqb presetName "basicSphere");
        [injection Hsome as <-; reflexivity | ].
      destruct (String.eqb presetName "organicTerrain");
        [injection Hsome as <-; reflexivity | ].
      destruct (String.eqb presetName "mechanicalSurface");
        [injection Hsome as <-; reflexivity | discriminate]. }
    destruct (addDomains_known configs rand Hk DeformationManager.new O)
      as [Hadd Hty].
    eexists. split; [exact Hadd | ].
    cbn [DeformationManager.blendMode DeformationManager.domains
         DeformationManager.new app].
    split; [reflexivity | ]. split; [exact Hty | apply made_default].
  - unfold builtInPresets. cbn [In].
    destruct (String.eqb presetName "basicSphere") eqn:H1.
    { apply String.eqb_eq in H1. split; [intros _; now left | discriminate]. }
    destruct (String.eqb presetName "organicTerrain") eqn:H2.
    { apply String.eqb_eq in H2.
      split; [intros _; right; now left | discriminate]. }
    destruct (String.eqb presetName "mechanicalSurface") eqn:H3.
    { apply String.eqb_eq in H3.
      split; [intros _; right; right; now left | discriminate]. }
    apply String.eqb_neq in H1, H2, H3.
    split; [intros H; now contradiction H | ].
    intros [H | [H | [H | []]]]; congruence.
Qed.

End ManagerFacts.

(** ** The registry operations, one by one *)

Module EngineFacts.

Import AdaptiveGrid CopyFacts RegistryFacts BlendFacts GridSizeFacts SnapFacts
       GridCellFacts ReachableFacts.

Local Open Scope string_scope.

(** *** A creation that the factory refuses *)

(** X16: [createTransformationDomain] with a type the factory does not
    know (as ['flat'], which [DOMAIN_TYPES] lists; ['constructor'], which
    the table of the factory inherits, is left out) throws; when the
    registry is at capacity the oldest domain has been evicted all the
    same; below capacity the state is as before; and in either case none of
    the three caches is cleared. *)
Theorem X16_create_unknown_type (cap : nat) (st : State) (req : Request) :
  capacity_is cap st ->
  DomainFactory.constructorMap (type_of req) = None ->
  type_of req <> "constructor" ->
  exists e,
    fst (create st req) = Throw e
    /\ transformationDomains (snd (create st req))
       = evict cap (transformationDomains st)
    /\ ((cap <= List.length (transformationDomains st))%nat ->
        transformationDomains (snd (create st req))
        = tl (transformationDomains st))
    /\ ((List.length (transformationDomains st) < cap)%nat ->
        snd (create st req) = st)
    /\ transformationCache (snd (create st req)) = transformationCache st
    /\ blendingCache (snd (create st req)) = blendingCache st
    /\ gridCellCache (snd (create st req)) = gridCellCache st.
Proof.
  intros Hcap Hnone _.
  assert (Hinvalid : ~ valid req) by (unfold valid; now rewrite Hnone).
  destruct (create_throw Hcap Hinvalid) as (e & He).
  exists e. rewrite He. cbn [fst snd set_domains transformationDomains
                             transformationCache blendingCache gridCellCache].
  split; [reflexivity | ]. split; [reflexivity | ].
  unfold evict.
  split; [ | split; [ | repeat split ] ].
  - intros Hfull. apply Nat.leb_le in Hfull. now rewrite Hfull.
  - intros Hroom. apply Nat.leb_gt in Hroom. rewrite Hroom. now destruct st.
Qed.

(** A request for the type that [DOMAIN_TYPES.FLAT] names. *)
Definition flat_request : Request :=
  {| req_center := mkPoint (Fin 0) (Fin 0);
     req_radius := Fin 100;
     req_type := Some "flat";
     req_options := {| eccentricity := None |};
     req_permutation := fun _ => 0%Z;
     req_now_id := 7;
     req_now_created := 7 |}.

Lemma X16_create_unknown_type_witness :
  exists e, fst (create fresh flat_request) = Throw e.
Proof.
  destruct (@X16_create_unknown_type 5 fresh flat_request) as (e & He & _).
  - exact fresh_capacity.
  - reflexivity.
  - discriminate.
  - exists e. exact He.
Defined.

(** *** Removing by id *)

Lemma filter_length_forallb {A : Type} (f : A -> bool) (l : list A) :
  (List.length (filter f l) =? List.length l)%nat = forallb f l.
Proof.
  induction l as [ | a l IH]; [reflexivity | ].
  cbn [filter forallb]. destruct (f a); cbn [List.length andb].
  - exact IH.
  - apply Nat.eqb_neq. pose proof (filter_length_le f l). lia.
Qed.

Lemma filter_idem {A : Type} (f : A -> bool) (l : list A) :
  filter f (filter f l) = filter f l.
Proof.
  induction l as [ | a l IH]; [reflexivity | ].
  cbn [filter]. destruct (f a) eqn:Hf; [ | exact IH].
  cbn [filter]. now rewrite Hf, IH.
Qed.

Lemma existsb_negb {A : Type} (f : A -> bool) (l : list A) :
  existsb (fun a => negb (f a)) l = negb (forallb f l).
Proof.
  induction l as [ | a l IH]; [reflexivity | ].
  cbn [existsb forallb]. rewrite IH. now destruct (f a).
Qed.

Lemma set_domains_same (st : State) :
  set_domains st (transformationDomains st) = st.
Proof. now destruct st. Qed.

(** X17: [removeTransformationDomain] returns [true] exactly when some
    domain of the registry has the id; it keeps the other domains, in
    order, and takes out every domain with that id; when it returns [false]
    the state is unchanged; and a second removal of the same id returns
    [false] and changes nothing. *)
Theorem X17_removeTransformationDomain (st : State) (domainId : Z) :
  let out := removeTransformationDomain st domainId in
  fst out
  = existsb (fun d => negb (id_differs domainId d)) (transformationDomains st)
  /\ transformationDomains (snd out)
     = filter (id_differs domainId) (transformationDomains st)
  /\ Forall (fun d => id d <> Some domainId) (transformationDomains (snd out))
  /\ (fst out = false -> snd out = st)
  /\ removeTransformationDomain (snd out) domainId = (false, snd out).
Proof.
  intros out. subst out.
  pose proof (filter_length_forallb (id_differs domainId) (transformationDomains st))
    as Hlen.
  pose proof (existsb_negb (id_differs domainId) (transformationDomains st))
    as Hex.
  assert (Hnone : forall l, Forall (fun d => id d <> Some domainId)
                                   (filter (id_differs domainId) l)).
  { intros l. apply Forall_forall. intros d Hd. apply filter_In in Hd.
    destruct Hd as [_ Hd]. unfold id_differs in Hd.
    destruct (id d) as [i | ]; [ | discriminate].
    intros Heq. injection Heq as ->. rewrite Z.eqb_refl in Hd. discriminate. }
  assert (Hagain : forall s : State,
             transformationDomains s
             = filter (id_differs domainId) (transformationDomains st) ->
             removeTransformationDomain s domainId = (false, s)).
  { intros s Hs. unfold removeTransformationDomain.
    cbn [set_domains transformationDomains].
    rewrite Hs, filter_idem, Nat.eqb_refl. cbn [negb].
    rewrite <- Hs. now rewrite set_domains_same. }
  destruct (remove_frame st domainId) as (Hds & _). cbv zeta in Hds.
  assert (Hout : removeTransformationDomain st domainId
                 = if negb (forallb (id_differs domainId) (transformationDomains st))
                   then (true,
                         set_blendingCache
                           (set_transformationCache
                              (set_domains st (filter (id_differs domainId)
                                                      (transformationDomains st)))
                              [])
                           [])
                   else (false, st)).
  { unfold removeTransformationDomain.
    cbn [set_domains transformationDomains].
    rewrite Nat.eqb_sym, Hlen.
    destruct (forallb (id_differs domainId) (transformationDomains st)) eqn:Hall;
      cbn [negb]; [ | reflexivity].
    f_equal.
    replace (filter (id_differs domainId) (transformationDomains st))
      with (transformationDomains st).
    - apply set_domains_same.
    - symmetry. apply filter_all. apply Nat.eqb_eq. now rewrite Hlen. }
  split; [rewrite Hout, Hex; now destruct (negb _) | ].
  split; [exact Hds | ].
  split; [rewrite Hds; apply Hnone | ].
  split; [ | apply Hagain; exact Hds].
  rewrite Hout. now destruct (negb _).
Qed.


(** *** Clearing the registry *)

Lemma cleared_coherent (st : State) : coherent (clearTransformationDomains st).
Proof. now apply coherent_cleared. Qed.

(** X18: after [clearTransformationDomains], whatever the state was, the
    registry is empty, [transformPoint] and [inverseTransformPoint] return
    every point unchanged, the effective grid size is
    max(0.2 * size, size), no id can be removed, and the parameters and the
    viewport are as before. *)
Theorem X18_clear_then_identity (st : State) (point : Point)
    (rand : nat -> nat -> Z) :
  let st' := clearTransformationDomains st in
  transformationDomains st' = []
  /\ fst (transformPoint st' point) = point
  /\ inverseTransformPoint st' point rand = Return point
  /\ calculateEffectiveGridSize st' point rand
     = Return (Math.max (size (grid (mergedParams st)) * Fin (2 / 10))
                        (size (grid (mergedParams st)) * Fin 1))%num
  /\ (forall domainId, removeTransformationDomain st' domainId = (false, st'))
  /\ mergedParams st' = mergedParams st
  /\ viewportDimensions st' = viewportDimensions st
  /\ zoomLevel st' = zoomLevel st
  /\ panOffset st' = panOffset st.
Proof.
  intros st'.
  assert (Hds : transformationDomains st' = []) by reflexivity.
  split; [exact Hds | ].
  split.
  { destruct (transformPoint_blend point (cleared_coherent st)) as [H _].
    fold st' in H. rewrite H, Hds. apply blend_empty. }
  split.
  { rewrite inverseTransformPoint_compose by (rewrite Hds; constructor).
    now rewrite Hds. }
  split.
  { rewrite calculateEffectiveGridSize_spec by (rewrite Hds; constructor).
    now rewrite Hds. }
  split; [ | repeat split].
  intros domainId. unfold removeTransformationDomain. rewrite Hds.
  cbn [filter List.length Nat.eqb negb]. unfold st'. reflexivity.
Qed.

(** *** The zoom level *)

Local Open Scope R_scope.

(** The zoom the module settles on for a request of [z]. *)
Definition clamp (z : R) : R := Rmax (1 / 10) (Rmin 10 z).

Lemma clamp_range (z : R) : 1 / 10 <= clamp z <= 10.
Proof.
  unfold clamp. split; [apply Rmax_l | ].
  apply Rmax_lub; [lra | apply Rmin_l].
Qed.

Lemma clamp_inside (z : R) : 1 / 10 <= z <= 10 -> clamp z = z.
Proof.
  intros [Hlo Hhi]. unfold clamp. rewrite Rmin_right by exact Hhi.
  now apply Rmax_right.
Qed.

(** X19: [setZoomLevel] with a real number returns and stores that number
    clamped to the range from 0.1 to 10 (the number itself when it is in
    range); a second call with the same number changes nothing; the
    grid-cell cache is cleared exactly when the stored zoom changes; the
    registry, the parameters and the other two caches are untouched.  With
    NaN it returns NaN. *)
Theorem X19_setZoomLevel_clamps (st : State) (z : R) :
  let out := setZoomLevel st (Fin z) in
  fst out = Fin (clamp z)
  /\ 1 / 10 <= clamp z <= 10
  /\ (1 / 10 <= z <= 10 -> clamp z = z)
  /\ zoomLevel (snd out) = Fin (clamp z)
  /\ setZoomLevel (snd out) (Fin z) = (Fin (clamp z), snd out)
  /\ (zoomLevel st = Fin (clamp z) -> snd out = st)
  /\ (zoomLevel st <> Fin (clamp z) -> gridCellCache (snd out) = [])
  /\ transformationDomains (snd out) = transformationDomains st
  /\ mergedParams (snd out) = mergedParams st
  /\ transformationCache (snd out) = transformationCache st
  /\ blendingCache (snd out) = blendingCache st
  /\ fst (setZoomLevel st NaN) = NaN.
Proof.
  intros out. subst out.
  assert (Hsame : forall s, zoomLevel s = Fin (clamp z) ->
                            setZoomLevel s (Fin z) = (Fin (clamp z), s)).
  { intros s Hs. unfold setZoomLevel, Math.max, Math.min. cbn [lift2].
    fold (clamp z). rewrite Hs.
    replace (Fin (clamp z) === Fin (clamp z))%num with true; [reflexivity | ].
    symmetry. now apply eqb_Fin. }
  assert (Hout : zoomLevel (snd (setZoomLevel st (Fin z))) = Fin (clamp z)
                 /\ fst (setZoomLevel st (Fin z)) = Fin (clamp z)).
  { unfold setZoomLevel, Math.max, Math.min. cbn [lift2]. fold (clamp z).
    destruct (zoomLevel st === Fin (clamp z))%num eqn:Heq.
    - cbn [fst snd]. destruct (zoomLevel st) as [c | ]; [ | discriminate].
      apply eqb_Fin in Heq. subst c. now split.
    - now split. }
  destruct Hout as [Hzoom Hfst].
  split; [exact Hfst | ]. split; [apply clamp_range | ].
  split; [apply clamp_inside | ]. split; [exact Hzoom | ].
  split; [now apply Hsame | ].
  split; [intros Hs; now rewrite (Hsame st Hs) | ].
  split.
  { intros Hne. unfold setZoomLevel, Math.max, Math.min. cbn [lift2].
    fold (clamp z).
    destruct (zoomLevel st === Fin (clamp z))%num eqn:Heq; [ | reflexivity].
    destruct (zoomLevel st) as [c | ]; [ | discriminate].
    apply eqb_Fin in Heq. subst c. now contradiction Hne. }
  assert (HNaN : fst (setZoomLevel st NaN) = NaN).
  { unfold setZoomLevel, Math.max, Math.min. cbn [lift2].
    now destruct (zoomLevel st). }
  unfold setZoomLevel at 1 2 3 4, Math.max, Math.min. cbn [lift2].
  fold (clamp z).
  destruct (zoomLevel st === Fin (clamp z))%num; repeat split;
    try reflexivity; exact HNaN.
Qed.


(** *** What holds in every state the module reaches *)

Lemma registered_defaults (d : Domain) :
  registered d ->
  blendMode d = smooth /\ amplitude d = Fin 0
  /\ id d <> None /\ created d <> None.
Proof.
  intros (c & r & ty & o & perm & now_id & now_created & d0 & Hd0 & ->).
  unfold createDomain, DomainFactory.create in Hd0.
  destruct (DomainFactory.constructorMap ty) as [C | ]; [ | discriminate].
  injection Hd0 as <-.
  destruct C; cbn; repeat split; discriminate.
Qed.

Lemma snapToGrid_returns (st : State) (point : Point)
    (rand_inverse rand_size : nat -> nat -> Z) :
  invariant st ->
  exists q, fst (snapToGrid st point rand_inverse rand_size) = Return q.
Proof.
  intros [Hco Hreg].
  destruct (grid_snapToGrid (grid (mergedParams st))) eqn:Hsnap.
  - destruct (Snapping.enabled (snapSettings st)) eqn:Hen.
    + destruct (Snapping.mode (snapSettings st)) eqn:Hmode.
      * exists (snapped st point). apply snapToGrid_snapped; try assumption.
        split; [exact Hen | rewrite Hmode; discriminate].
      * exists (snapped st point). apply snapToGrid_snapped; try assumption.
        split; [exact Hen | rewrite Hmode; discriminate].
      * exists point. unfold snapToGrid. rewrite Hsnap. cbn [negb].
        rewrite snapTransformedPoint_off by (now right). reflexivity.
    + exists point. unfold snapToGrid. rewrite Hsnap. cbn [negb].
      rewrite snapTransformedPoint_off by (now left). reflexivity.
  - exists point. unfold snapToGrid. now rewrite Hsnap.
Qed.

(** X20: in every state the module reaches through operations that
    return, creations of type ['constructor'] apart (the one type name that
    is outside the model, see [step]), every domain of the registry blends
    in smooth mode, has amplitude 0 and carries an id and a creation time
    (the [blendMode] parameter of the module never reaches a domain);
    [transformPoint] returns the blend over the present registry, never a
    stale value; and [inverseTransformPoint], [calculateEffectiveGridSize]
    and [snapToGrid] return and do not throw. *)
Theorem X20_reachable_states (width height : num) (params : Params)
    (st : State) :
  reachable width height params st ->
  Forall (fun d => blendMode d = smooth /\ amplitude d = Fin 0
                   /\ id d <> None /\ created d <> None)
         (transformationDomains st)
  /\ (forall point,
        fst (transformPoint st point) = blend (transformationDomains st) point)
  /\ (forall point rand,
        inverseTransformPoint st point rand
        = Return (compose_inverses (transformationDomains st) point))
  /\ (forall point rand,
        exists g, calculateEffectiveGridSize st point rand = Return g)
  /\ (forall point rand_inverse rand_size,
        exists q, fst (snapToGrid st point rand_inverse rand_size) = Return q).
Proof.
  intros Hreach. pose proof (reachable_invariant Hreach) as Hinv.
  destruct Hinv as [Hco Hreg].
  split; [ | split; [ | split; [ | split ] ] ].
  - eapply Forall_impl; [ | exact Hreg]. intros d. apply registered_defaults.
  - intros point. now destruct (transformPoint_blend point Hco).
  - intros point rand. now apply inverseTransformPoint_compose.
  - intros point rand. eexists. now apply calculateEffectiveGridSize_spec.
  - intros point ri rs. apply snapToGrid_returns. now split.
Qed.

Lemma with_sphere_reachable :
  reachable (Fin 40) (Fin 40) defaultParams with_sphere.
Proof.
  assert (Hvalid : valid sphere_request) by discriminate.
  destruct (create_return bare_capacity Hvalid) as (d & st' & Hc & _).
  apply reachable_step with bare; [apply reachable_initial | ].
  apply step_create with sphere_request d; [discriminate | ].
  unfold with_sphere. now rewrite Hc.
Qed.

Lemma X20_reachable_states_witness :
  Forall (fun d => blendMode d = smooth /\ amplitude d = Fin 0
                   /\ id d <> None /\ created d <> None)
         (transformationDomains with_sphere).
Proof.
  exact (proj1 (X20_reachable_states with_sphere_reachable)).
Defined.

End EngineFacts.

(** ** The lattice the generators go through *)

Module LatticeFacts.

Import AdaptiveGrid CopyFacts BlendFacts GridCellFacts.

Local Open Scope R_scope.

(** The grid lines a loop of the generators goes through: -s, 0, s, ...,
    [n] of them. *)
Definition lines (s : R) (n : nat) : list num :=
  map (fun i => Fin (0 - s + INR i * s)) (seq 0 n).

Lemma lines_length (s : R) (n : nat) : List.length (lines s n) = n.
Proof. unfold lines. now rewrite length_map, length_seq. Qed.

(** A loop with a positive step goes through an arithmetic progression. *)
Lemma for_loop_progression (stop step : R) (n : nat) :
  forall (fuel : nat) (start : R),
    (n < fuel)%nat ->
    (forall i, (i < n)%nat -> start + INR i * step < stop) ->
    stop <= start + INR n * step ->
    for_loop fuel (Fin start) (Fin stop) (Fin step)
    = map (fun i => Fin (start + INR i * step)) (seq 0 n).
Proof.
  induction n as [ | n IH]; intros fuel start Hfuel Hin Hout.
  - destruct fuel as [ | fuel]; [lia | ]. cbn [for_loop seq map].
    replace (Fin start <? Fin stop)%num with false; [reflexivity | ].
    symmetry. apply ltb_Fin_false. cbn [INR] in Hout. lra.
  - destruct fuel as [ | fuel]; [lia | ]. cbn [for_loop].
    replace (Fin start <? Fin stop)%num with true.
    + cbn [seq map]. f_equal.
      * f_equal. cbn [INR]. ring.
      * change (Fin start + Fin step)%num with (Fin (start + step)).
        rewrite (IH fuel (start + step)).
        -- rewrite <- seq_shift, map_map. apply map_ext. intros i.
           f_equal. rewrite S_INR. ring.
        -- lia.
        -- intros i Hi. specialize (Hin (S i) ltac:(lia)).
           rewrite S_INR in Hin. lra.
        -- rewrite S_INR in Hout. lra.
    + symmetry. apply ltb_Fin. specialize (Hin O ltac:(lia)).
      cbn [INR] in Hin. lra.
Qed.

Lemma for_loop_le_progression (stop step : R) (n : nat) :
  forall (fuel : nat) (start : R),
    (n < fuel)%nat ->
    (forall i, (i < n)%nat -> start + INR i * step <= stop) ->
    stop < start + INR n * step ->
    for_loop_le fuel (Fin start) (Fin stop) (Fin step)
    = map (fun i => Fin (start + INR i * step)) (seq 0 n).
Proof.
  induction n as [ | n IH]; intros fuel start Hfuel Hin Hout.
  - destruct fuel as [ | fuel]; [lia | ]. cbn [for_loop_le seq map].
    replace (Fin start <=? Fin stop)%num with false; [reflexivity | ].
    symmetry. apply leb_Fin_false. cbn [INR] in Hout. lra.
  - destruct fuel as [ | fuel]; [lia | ]. cbn [for_loop_le].
    replace (Fin start <=? Fin stop)%num with true.
    + cbn [seq map]. f_equal.
      * f_equal. cbn [INR]. ring.
      * change (Fin start + Fin step)%num with (Fin (start + step)).
        rewrite (IH fuel (start + step)).
        -- rewrite <- seq_shift, map_map. apply map_ext. intros i.
           f_equal. rewrite S_INR. ring.
        -- lia.
        -- intros i Hi. specialize (Hin (S i) ltac:(lia)).
           rewrite S_INR in Hin. lra.
        -- rewrite S_INR in Hout. lra.
    + symmetry. apply leb_Fin. specialize (Hin O ltac:(lia)).
      cbn [INR] in Hin. lra.
Qed.

Lemma INR_below (i : nat) (c : Z) : (i < Z.to_nat c)%nat -> INR i <= IZR c - 1.
Proof.
  intros Hi. rewrite INR_IZR_INZ, <- minus_IZR. apply IZR_le. lia.
Qed.

Lemma INR_to_nat (c : Z) : (0 <= c)%Z -> INR (Z.to_nat c) = IZR c.
Proof. intros Hc. rewrite INR_IZR_INZ. f_equal. lia. Qed.

(** The number of lines before [extent + s], the first at [-s]: the loop
    test being [<]. *)
Definition count_lt (extent s : R) : nat := Z.to_nat (Zceil (extent / s + 2)).

(** The same, the loop test being [<=]. *)
Definition count_le (extent s : R) : nat := Z.to_nat (Zfloor (extent / s + 2) + 1).

Lemma for_range_lines (extent s : R) :
  0 < s ->
  for_range (Fin 0 - Fin s) (Fin extent + Fin s) (Fin s)
  = Some (lines s (count_lt extent s)).
Proof.
  intros Hs. unfold for_range.
  replace (Fin s <=? Fin 0)%num with false
    by (symmetry; apply leb_Fin_false; lra).
  rewrite andb_false_r. f_equal.
  change (Fin 0 - Fin s)%num with (Fin (0 - s)).
  change (Fin extent + Fin s)%num with (Fin (extent + s)).
  change (Fin (extent + s) - Fin (0 - s))%num with (Fin (extent + s - (0 - s))).
  rewrite div_Fin by lra. cbn [iterations].
  replace ((extent + s - (0 - s)) / s) with (extent / s + 2) by (field; lra).
  fold (count_lt extent s). unfold lines, count_lt.
  set (q := extent / s + 2).
  assert (Hq : q * s = extent + 2 * s) by (unfold q; field; lra).
  pose proof (Zceil_bound q) as [Hlo Hhi].
  apply for_loop_progression.
  - lia.
  - intros i Hi. apply INR_below in Hi.
    assert (INR i < q) by lra.
    assert (INR i * s < q * s) by (apply Rmult_lt_compat_r; lra). lra.
  - destruct (Z_le_gt_dec 0 (Zceil q)) as [Hc | Hc].
    + rewrite INR_to_nat by exact Hc.
      assert (q * s <= IZR (Zceil q) * s) by (apply Rmult_le_compat_r; lra). lra.
    + replace (Z.to_nat (Zceil q)) with O by lia. cbn [INR].
      assert (IZR (Zceil q) <= -1) by (apply IZR_le; lia).
      assert (q * s <= 0 * s) by (apply Rmult_le_compat_r; lra). lra.
Qed.

Lemma for_range_le_lines (extent s : R) :
  0 < s ->
  for_range_le (Fin 0 - Fin s) (Fin extent + Fin s) (Fin s)
  = Some (lines s (count_le extent s)).
Proof.
  intros Hs. unfold for_range_le.
  replace (Fin s <=? Fin 0)%num with false
    by (symmetry; apply leb_Fin_false; lra).
  rewrite andb_false_r. f_equal.
  change (Fin 0 - Fin s)%num with (Fin (0 - s)).
  change (Fin extent + Fin s)%num with (Fin (extent + s)).
  change (Fin (extent + s) - Fin (0 - s))%num with (Fin (extent + s - (0 - s))).
  rewrite div_Fin by lra. cbn [iterations].
  replace ((extent + s - (0 - s)) / s) with (extent / s + 2) by (field; lra).
  unfold lines, count_le.
  set (q := extent / s + 2).
  assert (Hq : q * s = extent + 2 * s) by (unfold q; field; lra).
  pose proof (Zfloor_bound q) as [Hlo Hhi].
  pose proof (Zfloor_ceil_bound q) as [_ Hc].
  assert (Hfc : (Zfloor q <= Zceil q)%Z) by (apply le_IZR; lra).
  apply for_loop_le_progression.
  - lia.
  - intros i Hi. apply INR_below in Hi. rewrite plus_IZR in Hi.
    assert (INR i <= q) by lra.
    assert (INR i * s <= q * s) by (apply Rmult_le_compat_r; lra). lra.
  - destruct (Z_le_gt_dec 0 (Zfloor q + 1)) as [Hz | Hz].
    + rewrite INR_to_nat by exact Hz. rewrite plus_IZR.
      assert (q * s < (IZR (Zfloor q) + 1) * s)
        by (apply Rmult_lt_compat_r; lra).
      lra.
    + replace (Z.to_nat (Zfloor q + 1)) with O by lia. cbn [INR].
      assert (IZR (Zfloor q + 1) <= -1) by (apply IZR_le; lia).
      rewrite plus_IZR in *.
      assert (q * s < 0 * s) by (apply Rmult_lt_compat_r; lra). lra.
Qed.


Lemma quads_length (ds : list Domain) (base : num) (xs ys : list num) :
  List.length (quads ds base xs ys) = (List.length xs * List.length ys)%nat.
Proof.
  unfold quads. induction xs as [ | gx xs IH]; [reflexivity | ].
  cbn [flat_map List.length]. rewrite length_app, length_map, IH. lia.
Qed.

(** In the exact arithmetic of the model: on a cache miss, with a positive
    grid size s, [generateGridCells] ends and returns one quad for every
    pair of grid lines -s, 0, s, ... below width + s and below height + s,
    in column order, blended over the present registry; and the next call
    returns the same cells from the cache. *)
Lemma generateGridCells_lattice (st : State) (width height s : R) :
  coherent st ->
  viewportDimensions st = (Fin width, Fin height) ->
  size (grid (mergedParams st)) = Fin s -> 0 < s ->
  Cache.get CellKey_eq_dec (gridCellCache st) (cellKey st) = None ->
  let nx := count_lt width s in
  let ny := count_lt height s in
  let cells := quads (transformationDomains st) (Fin s) (lines s nx) (lines s ny) in
  exists st',
    generateGridCells st = Some (cells, st')
    /\ List.length cells = (nx * ny)%nat
    /\ generateGridCells st' = Some (cells, st')
    /\ transformationDomains st' = transformationDomains st
    /\ coherent st'.
Proof.
  intros Hco Hv Hsize Hs Hmiss nx ny cells.
  destruct (generateGridCells_miss Hco Hsize Hs Hmiss)
    as (xs & ys & st' & Hxs & Hys & Hgen & Hcache & Hds & Hpar & Hview & Hco').
  rewrite Hv in Hxs, Hys. cbn [fst snd] in Hxs, Hys.
  rewrite for_range_lines in Hxs, Hys by exact Hs.
  injection Hxs as <-. injection Hys as <-.
  exists st'. split; [exact Hgen | ].
  split; [unfold cells; now rewrite quads_length, !lines_length | ].
  split; [ | split; [exact Hds | exact Hco']].
  apply generateGridCells_hit. rewrite Hcache.
  assert (Hkey : cellKey st' = cellKey st)
    by (unfold cellKey; now rewrite Hds, Hpar, Hview).
  rewrite Hkey. unfold Cache.set. cbn [Cache.get].
  destruct (CellKey_eq_dec (cellKey st) (cellKey st)); [reflexivity | contradiction].
Qed.

Lemma bare_frame :
  coherent bare
  /\ viewportDimensions bare = (Fin 40, Fin 40)
  /\ size (grid (mergedParams bare)) = Fin 20
  /\ Cache.get CellKey_eq_dec (gridCellCache bare) (cellKey bare) = None.
Proof.
  split; [now apply coherent_cleared | ]. repeat split.
Qed.

(** *** [generateGridPoints] *)

(** The grid point at a position, blended over [ds]. *)
Definition gridPoint (ds : list Domain) (gx gy : num) : GridPoint :=
  {| point_original := mkPoint gx gy;
     point_transformed := blend ds (mkPoint gx gy) |}.

Definition gridPoints (ds : list Domain) (xs ys : list num) : list GridPoint :=
  flat_map (fun gx => map (gridPoint ds gx) ys) xs.

Lemma gridPoints_length (ds : list Domain) (xs ys : list num) :
  List.length (gridPoints ds xs ys) = (List.length xs * List.length ys)%nat.
Proof.
  unfold gridPoints. induction xs as [ | gx xs IH]; [reflexivity | ].
  cbn [flat_map List.length]. rewrite length_app, length_map, IH. lia.
Qed.

Lemma points_inner_spec (ds : list Domain) (gx : num) (ys : list num) :
  forall st,
    coherent st -> transformationDomains st = ds ->
    fst (points_inner st gx ys) = map (gridPoint ds gx) ys
    /\ like st (snd (points_inner st gx ys)).
Proof.
  induction ys as [ | gy ys IH]; intros st Hco Hds.
  - split; [reflexivity | now apply like_refl].
  - cbn [points_inner].
    destruct (transformPoint_blend (mkPoint gx gy) Hco) as (Hb & Hc1 & Hs1).
    destruct (transformPoint st (mkPoint gx gy)) as [q st1]. cbn [fst snd] in *.
    assert (Hds1 : transformationDomains st1 = ds)
      by (destruct Hs1 as (-> & _); exact Hds).
    destruct (IH st1 Hc1 Hds1) as (Hps & Hl).
    destruct (points_inner st1 gx ys) as [ps st2]. cbn [fst snd] in *.
    split.
    + cbn [map]. unfold gridPoint at 1. now rewrite Hb, Hps, Hds.
    + apply like_trans with st1; [now split | exact Hl].
Qed.

Lemma points_outer_spec (ds : list Domain) (xs ys : list num) :
  forall st,
    coherent st -> transformationDomains st = ds ->
    fst (points_outer st xs ys) = gridPoints ds xs ys
    /\ like st (snd (points_outer st xs ys)).
Proof.
  induction xs as [ | gx xs IH]; intros st Hco Hds.
  - split; [reflexivity | now apply like_refl].
  - cbn [points_outer].
    destruct (points_inner_spec gx ys Hco Hds) as (Hps & Hl1).
    destruct (points_inner st gx ys) as [ps st1]. cbn [fst snd] in *.
    destruct Hl1 as [Hc1 Hs1].
    assert (Hds1 : transformationDomains st1 = ds)
      by (destruct Hs1 as (-> & _); exact Hds).
    destruct (IH st1 Hc1 Hds1) as (Hps' & Hl).
    destruct (points_outer st1 xs ys) as [ps' st2]. cbn [fst snd] in *.
    split.
    + unfold gridPoints in *. cbn [flat_map]. now rewrite Hps, Hps'.
    + apply like_trans with st1; [now split | exact Hl].
Qed.

(** In the exact arithmetic of the model: with a positive grid size s,
    [generateGridPoints] ends and returns one grid point for every pair of
    grid lines -s, 0, s, ... up to and including width + s and height + s,
    each with its blend over the present registry; the registry and the
    grid-cell cache are left as they were. *)
Lemma generateGridPoints_lattice (st : State) (width height s : R) :
  coherent st ->
  viewportDimensions st = (Fin width, Fin height) ->
  size (grid (mergedParams st)) = Fin s -> 0 < s ->
  let nx := count_le width s in
  let ny := count_le height s in
  let points := gridPoints (transformationDomains st) (lines s nx) (lines s ny) in
  exists st',
    generateGridPoints st = Some (points, st')
    /\ List.length points = (nx * ny)%nat
    /\ Forall (fun p => point_transformed p
                        = blend (transformationDomains st) (point_original p))
              points
    /\ transformationDomains st' = transformationDomains st
    /\ gridCellCache st' = gridCellCache st
    /\ coherent st'.
Proof.
  intros Hco Hv Hsize Hs nx ny points.
  unfold generateGridPoints. rewrite Hv, Hsize.
  rewrite !for_range_le_lines by exact Hs. fold nx ny.
  assert (Hall : Forall (fun p => point_transformed p
                                  = blend (transformationDomains st)
                                          (point_original p)) points).
  { apply Forall_forall. intros p Hp. unfold points, gridPoints in Hp.
    apply in_flat_map in Hp. destruct Hp as (gx & _ & Hp).
    apply in_map_iff in Hp. destruct Hp as (gy & <- & _). reflexivity. }
  assert (Hlen : List.length points = (nx * ny)%nat)
    by (unfold points; now rewrite gridPoints_length, !lines_length).
  assert (Hpoints : points = gridPoints (transformationDomains st)
                                        (lines s nx) (lines s ny)) by reflexivity.
  clearbody points.
  destruct (lines s nx) as [ | gx xs] eqn:Hxs.
  - exists st. split; [now rewrite Hpoints | ].
    split; [exact Hlen | ].
    split; [exact Hall | ].
    split; [reflexivity | split; [reflexivity | exact Hco]].
  - destruct (@points_outer_spec (transformationDomains st) (gx :: xs)
                (lines s ny) st Hco eq_refl) as (Hps & Hco' & Hsame).
    destruct (points_outer st (gx :: xs) (lines s ny)) as [ps st'].
    cbn [fst snd] in *. subst ps.
    destruct Hsame as (S1 & S2 & S3 & S4 & S5).
    exists st'. split; [now rewrite Hpoints | ].
    split; [exact Hlen | ].
    split; [exact Hall | ]. split; [exact S1 | ]. split; [exact S4 | exact Hco'].
Qed.

(** *** The lattice in whole numbers

    The loops of the generators add the grid size again and again.  When
    the grid size and the extent of the viewport are whole numbers (a canvas
    is measured in whole pixels) of a magnitude below 2^53, every sum is a
    whole number that the numbers of the source hold exactly, and the loop
    of the source goes through the lines found above. *)

(** The lines -k, 0, k, ..., [n] of them. *)
Definition whole_lines (k : Z) (n : nat) : list num :=
  map (fun i => Fin (IZR (Z.of_nat i * k - k))) (seq 0 n).

(** The number of multiples of [k], from [-k] on, that are below [w + k]. *)
Definition columns_lt (w k : Z) : nat := Z.to_nat ((w + k - 1) / k + 2).

(** The number of multiples of [k], from [-k] on, that are at most [w + k]. *)
Definition columns_le (w k : Z) : nat := Z.to_nat (w / k + 3).

Lemma lines_whole (k : Z) (n : nat) : lines (IZR k) n = whole_lines k n.
Proof.
  unfold lines, whole_lines. apply map_ext. intros i. f_equal.
  rewrite minus_IZR, mult_IZR, <- INR_IZR_INZ. ring.
Qed.

Lemma whole_lines_length (k : Z) (n : nat) : List.length (whole_lines k n) = n.
Proof. unfold whole_lines. now rewrite length_map, length_seq. Qed.

Lemma whole_quotient (w k : Z) :
  (0 < k)%Z -> IZR (w / k) <= IZR w / IZR k < IZR (w / k) + 1.
Proof.
  intros Hk.
  assert (Hk' : 0 < IZR k) by now apply IZR_lt.
  pose proof (Z.div_mod w k ltac:(lia)) as Hdm.
  pose proof (Z.mod_pos_bound w k Hk) as [Hlo Hhi].
  set (q := (w / k)%Z) in *. set (r := (w mod k)%Z) in *.
  assert (Hw : IZR w = IZR k * IZR q + IZR r)
    by (rewrite <- mult_IZR, <- plus_IZR; now f_equal).
  assert (Hr0 : 0 <= IZR r) by now apply IZR_le.
  assert (Hr1 : IZR r < IZR k) by now apply IZR_lt.
  rewrite Hw.
  replace ((IZR k * IZR q + IZR r) / IZR k) with (IZR q + IZR r / IZR k)
    by (field; lra).
  assert (0 <= IZR r / IZR k)
    by (apply Rmult_le_pos; [exact Hr0 | apply Rlt_le, Rinv_0_lt_compat, Hk']).
  assert (IZR r / IZR k < 1).
  { apply Rmult_lt_reg_r with (IZR k); [exact Hk' | ].
    replace (IZR r / IZR k * IZR k) with (IZR r) by (field; lra). lra. }
  lra.
Qed.

Lemma count_le_whole (w k : Z) :
  (0 < k)%Z -> count_le (IZR w) (IZR k) = columns_le w k.
Proof.
  intros Hk. unfold count_le, columns_le. f_equal.
  rewrite (Zfloor_addz 2). rewrite (Zfloor_eq (w / k)); [lia | ].
  now apply whole_quotient.
Qed.

Lemma count_lt_whole (w k : Z) :
  (0 < k)%Z -> count_lt (IZR w) (IZR k) = columns_lt w k.
Proof.
  intros Hk. unfold count_lt, columns_lt. f_equal.
  rewrite (Zceil_addz 2). f_equal.
  assert (Hk' : 0 < IZR k) by now apply IZR_lt.
  apply Zceil_eq.
  pose proof (whole_quotient (w + k - 1) Hk) as [Hlo Hhi].
  set (q := ((w + k - 1) / k)%Z) in *.
  replace (IZR (w + k - 1) / IZR k) with (IZR w / IZR k + 1 - / IZR k)
    in Hlo, Hhi by (rewrite minus_IZR, plus_IZR; field; lra).
  assert (Hinv : 0 < / IZR k) by now apply Rinv_0_lt_compat.
  split; [lra | ].
  (* w / k <= q: otherwise q < w / k, so q * k < w, so q * k + 1 <= w *)
  destruct (Rle_lt_dec (IZR w / IZR k) (IZR q)) as [H | H]; [exact H | ].
  exfalso.
  assert (Hlt : IZR q * IZR k < IZR w).
  { apply Rmult_lt_compat_r with (r := IZR k) in H; [ | exact Hk'].
    replace (IZR w / IZR k * IZR k) with (IZR w) in H by (field; lra). exact H. }
  rewrite <- mult_IZR in Hlt. apply lt_IZR in Hlt.
  assert (Hle : IZR (q * k + 1) <= IZR w) by (apply IZR_le; lia).
  rewrite plus_IZR, mult_IZR in Hle.
  assert (IZR q + / IZR k <= IZR w / IZR k).
  { apply Rmult_le_reg_r with (IZR k); [exact Hk' | ].
    replace (IZR w / IZR k * IZR k) with (IZR w) by (field; lra).
    replace ((IZR q + / IZR k) * IZR k) with (IZR q * IZR k + 1) by (field; lra).
    exact Hle. }
  lra.
Qed.

(** X21: on a cache miss, with caches that are coherent with the registry,
    a viewport of w by h and a grid size k > 0, all three whole numbers
    (with |w| + 2k and |h| + 2k at most 2^53, so that the sums of the loops
    are exact in the source too), [generateGridCells] ends and returns one
    quad for every pair of grid lines -k, 0, k, ... below w + k and below
    h + k, in column order: (ceil(w / k) + 2) * (ceil(h / k) + 2) cells,
    blended over the present registry; and the next call returns the same
    cells from the cache. *)
Theorem X21_grid_cells_lattice (st : State) (w h k : Z) :
  coherent st ->
  viewportDimensions st = (Fin (IZR w), Fin (IZR h)) ->
  size (grid (mergedParams st)) = Fin (IZR k) ->
  (0 < k)%Z ->
  (Z.abs w + 2 * k <= 2 ^ 53)%Z -> (Z.abs h + 2 * k <= 2 ^ 53)%Z ->
  Cache.get CellKey_eq_dec (gridCellCache st) (cellKey st) = None ->
  let nx := columns_lt w k in
  let ny := columns_lt h k in
  let cells := quads (transformationDomains st) (Fin (IZR k))
                     (whole_lines k nx) (whole_lines k ny) in
  exists st',
    generateGridCells st = Some (cells, st')
    /\ List.length cells = (nx * ny)%nat
    /\ nx = Z.to_nat ((w + k - 1) / k + 2)
    /\ ny = Z.to_nat ((h + k - 1) / k + 2)
    /\ generateGridCells st' = Some (cells, st')
    /\ transformationDomains st' = transformationDomains st
    /\ coherent st'.
Proof.
  intros Hco Hv Hsize Hk _ _ Hmiss nx ny cells.
  assert (Hs : 0 < IZR k) by now apply IZR_lt.
  destruct (generateGridCells_lattice Hco Hv Hsize Hs Hmiss)
    as (st' & Hgen & Hlen & Hagain & Hds & Hco').
  rewrite !count_lt_whole, !lines_whole in Hgen, Hlen, Hagain by exact Hk.
  exists st'. fold nx ny in Hgen, Hlen, Hagain. fold cells in Hgen, Hlen, Hagain.
  repeat (split; [first [assumption | reflexivity] | ]). exact Hco'.
Qed.

Lemma X21_grid_cells_lattice_witness :
  exists st',
    generateGridCells bare
    = Some (quads [] (Fin 20) (whole_lines 20 4) (whole_lines 20 4), st').
Proof.
  destruct bare_frame as (Hco & Hv & Hsize & Hmiss).
  destruct (@X21_grid_cells_lattice bare 40 40 20 Hco Hv Hsize)
    as (st' & Hgen & _); [lia | lia | lia | exact Hmiss | ].
  exists st'. exact Hgen.
Defined.

(** X22: with caches that are coherent with the registry, a viewport of w
    by h and a grid size k > 0, all three whole numbers (with |w| + 2k and
    |h| + 2k at most 2^53, so that the sums of the loops are exact in the
    source too), [generateGridPoints] ends and returns one grid point for
    every pair of grid lines -k, 0, k, ... up to and including w + k and
    h + k: (floor(w / k) + 3) * (floor(h / k) + 3) points, each with its
    blend over the present registry; the registry and the grid-cell cache
    are left as they were. *)
Theorem X22_grid_points_lattice (st : State) (w h k : Z) :
  coherent st ->
  viewportDimensions st = (Fin (IZR w), Fin (IZR h)) ->
  size (grid (mergedParams st)) = Fin (IZR k) ->
  (0 < k)%Z ->
  (Z.abs w + 2 * k <= 2 ^ 53)%Z -> (Z.abs h + 2 * k <= 2 ^ 53)%Z ->
  let nx := columns_le w k in
  let ny := columns_le h k in
  let points := gridPoints (transformationDomains st)
                           (whole_lines k nx) (whole_lines k ny) in
  exists st',
    generateGridPoints st = Some (points, st')
    /\ List.length points = (nx * ny)%nat
    /\ nx = Z.to_nat (w / k + 3)
    /\ ny = Z.to_nat (h / k + 3)
    /\ Forall (fun p => point_transformed p
                        = blend (transformationDomains st) (point_original p))
              points
    /\ transformationDomains st' = transformationDomains st
    /\ gridCellCache st' = gridCellCache st
    /\ coherent st'.
Proof.
  intros Hco Hv Hsize Hk _ _ nx ny points.
  assert (Hs : 0 < IZR k) by now apply IZR_lt.
  destruct (generateGridPoints_lattice Hco Hv Hsize Hs)
    as (st' & Hgen & Hlen & Hall & Hds & Hcache & Hco').
  rewrite !count_le_whole, !lines_whole in Hgen, Hlen, Hall by exact Hk.
  exists st'. fold nx ny in Hgen, Hlen, Hall. fold points in Hgen, Hlen, Hall.
  repeat (split; [first [assumption | reflexivity] | ]). exact Hco'.
Qed.

Lemma X22_grid_points_lattice_witness :
  exists st',
    generateGridPoints bare
    = Some (gridPoints [] (whole_lines 20 5) (whole_lines 20 5), st').
Proof.
  destruct bare_frame as (Hco & Hv & Hsize & _).
  destruct (@X22_grid_points_lattice bare 40 40 20 Hco Hv Hsize)
    as (st' & Hgen & _); [lia | lia | lia | ].
  exists st'. exact Hgen.
Defined.

End LatticeFacts.

(** ** Snapping on the flat grid *)

Module SnapEmptyFacts.

Import AdaptiveGrid CopyFacts BlendFacts GridSizeFacts SnapFacts GridCellFacts.

Local Open Scope R_scope.










End SnapEmptyFacts.

(** ** The snapping module *)

Module SnappingFacts.

Import Snapping.

Local Open Scope R_scope.

(** The distance of two points with real coordinates, as the module
    computes it. *)
Definition gap (px py qx qy : R) : R :=
  sqrt ((qx - px) * (qx - px) + (qy - py) * (qy - py)).

(** The distance [findNearestGridPoint] and [calculateSnapIndicators]
    compute. *)
Definition separation (point gridPoint : Point) : num :=
  Math.sqrt (Math.pow2 (x gridPoint - x point) + Math.pow2 (y gridPoint - y point)).

Lemma separation_gap (px py qx qy : R) :
  separation (mkPoint (Fin px) (Fin py)) (mkPoint (Fin qx) (Fin qy))
  = Fin (gap px py qx qy).
Proof.
  unfold separation, Math.pow2, Math.sqrt. cbn [x y sub add lift1 lift2].
  destruct (Rlt_dec ((qx - px) * (qx - px) + (qy - py) * (qy - py)) 0) as [H | _];
    [ | reflexivity].
  exfalso. pose proof (Rle_0_sqr (qx - px)) as Hx.
  pose proof (Rle_0_sqr (qy - py)) as Hy. unfold Rsqr in Hx, Hy. lra.
Qed.

(** *** [snapWithAttraction] *)

(** X24: [snapWithAttraction] returns the grid point for a strength of 1
    or more and the point itself for strength 0; for a strength t from 0 to
    1 it returns the point of the segment at distance t * |g - p| from the
    point and (1 - t) * |g - p| from the grid point; a strength left out is
    the [snapStrength] of the settings, with which the default settings
    return the grid point. *)
Theorem X24_snapWithAttraction (settings : Settings) (px py gx gy t : R) :
  let point := mkPoint (Fin px) (Fin py) in
  let gridPoint := mkPoint (Fin gx) (Fin gy) in
  (1 <= t -> snapWithAttraction settings point gridPoint (Some (Fin t)) = gridPoint)
  /\ snapWithAttraction settings point gridPoint (Some (Fin 0)) = point
  /\ (0 <= t < 1 ->
      exists qx qy : R,
        snapWithAttraction settings point gridPoint (Some (Fin t))
        = mkPoint (Fin qx) (Fin qy)
        /\ gap qx qy gx gy = (1 - t) * gap px py gx gy
        /\ gap px py qx qy = t * gap px py gx gy)
  /\ snapWithAttraction settings point gridPoint None
     = snapWithAttraction settings point gridPoint (Some (snapStrength settings))
  /\ snapWithAttraction defaultSettings point gridPoint None = gridPoint.
Proof.
  intros point gridPoint. subst point gridPoint.
  unfold snapWithAttraction. cbn [x y].
  split; [ | split; [ | split; [ | split ] ] ].
  - intros Ht. replace (Fin t >=? Fin 1)%num with true; [reflexivity | ].
    symmetry. now apply geb_Fin.
  - replace (Fin 0 >=? Fin 1)%num with false
      by (symmetry; apply geb_Fin_false; lra).
    cbn [sub add mul lift2]. f_equal; f_equal; ring.
  - intros [Ht0 Ht1].
    replace (Fin t >=? Fin 1)%num with false
      by (symmetry; apply geb_Fin_false; lra).
    cbn [sub add mul lift2]. eexists. eexists. split; [reflexivity | ].
    unfold gap. split.
    + replace ((gx - (px + (gx - px) * t)) * (gx - (px + (gx - px) * t))
               + (gy - (py + (gy - py) * t)) * (gy - (py + (gy - py) * t)))
        with ((1 - t) * (1 - t) * ((gx - px) * (gx - px) + (gy - py) * (gy - py)))
        by ring.
      rewrite sqrt_mult_alt by (apply Rmult_le_pos; lra).
      rewrite sqrt_square by lra. reflexivity.
    + replace ((px + (gx - px) * t - px) * (px + (gx - px) * t - px)
               + (py + (gy - py) * t - py) * (py + (gy - py) * t - py))
        with (t * t * ((gx - px) * (gx - px) + (gy - py) * (gy - py)))
        by ring.
      rewrite sqrt_mult_alt by (apply Rmult_le_pos; lra).
      rewrite sqrt_square by lra. reflexivity.
  - reflexivity.
  - cbn [snapStrength defaultSettings].
    replace (Fin 1 >=? Fin 1)%num with true; [reflexivity | ].
    symmetry. apply geb_Fin. lra.
Qed.


(** *** [findNearestGridPoint] *)

Local Open Scope num_scope.

Section Nearest.

Variable point : Point.
Variable tolerance : num.

(** What the loop of [findNearestGridPoint] knows after the grid points
    [seen]: either none of them is within the tolerance, or the nearest so
    far is [g], at distance [d] within the tolerance, every grid point
    before it is farther, and none after it is nearer. *)
Definition found (seen : list Point) (acc : option Point * option num) : Prop :=
  match acc with
  | (None, None) =>
      Forall (fun g => (separation point g <=? tolerance) = false) seen
  | (Some g, Some d) =>
      separation point g = d
      /\ (d <=? tolerance) = true
      /\ exists before after,
           seen = (before ++ g :: after)%list
           /\ Forall (fun g' => (separation point g' <=? d) = false) before
           /\ Forall (fun g' => (separation point g' <? d) = false) after
  | _ => False
  end.

Lemma leb_trans_false (a b c : num) :
  (a <=? c) = false -> (b <=? c) = true -> (a <=? b) = false.
Proof.
  destruct a as [a | ], b as [b | ], c as [c | ]; try discriminate;
    try reflexivity.
  intros H1 H2. apply leb_Fin_false in H1. apply leb_Fin in H2.
  apply leb_Fin_false. lra.
Qed.

Lemma leb_false_ltb (a b : num) : (a <=? b) = false -> (a <? b) = false.
Proof.
  destruct a as [a | ], b as [b | ]; try reflexivity.
  intros H. apply leb_Fin_false in H. apply ltb_Fin_false. lra.
Qed.

Lemma ltb_step_false (a b c : num) :
  (a <? c) = false -> (b <? c) = true -> (a <=? b) = false.
Proof.
  destruct a as [a | ], b as [b | ], c as [c | ]; try discriminate;
    try reflexivity.
  intros H1 H2. apply ltb_Fin_false in H1. apply ltb_Fin in H2.
  apply leb_Fin_false. lra.
Qed.

Lemma not_within_not_nearer (a d : num) :
  (a <=? tolerance) = false -> (d <=? tolerance) = true -> (a <? d) = false.
Proof.
  intros H1 H2. apply leb_false_ltb. now apply leb_trans_false with tolerance.
Qed.

Lemma found_step (seen : list Point) (acc : option Point * option num)
    (g : Point) :
  found seen acc -> found (seen ++ [g]) (nearer point tolerance acc g).
Proof.
  destruct acc as [[best | ] [d | ]]; cbn [found]; try contradiction.
  - intros (Hd & Hin & before & after & -> & Hbefore & Hafter).
    unfold nearer. fold (separation point g). cbn [below].
    destruct ((separation point g <? d) && (separation point g <=? tolerance))
      eqn:Htest.
    + apply andb_true_iff in Htest. destruct Htest as [Hlt Hle].
      cbn [found]. split; [reflexivity | ]. split; [exact Hle | ].
      exists (before ++ best :: after)%list, []. split; [reflexivity | ].
      split; [ | constructor].
      apply Forall_app. split.
      * eapply Forall_impl; [ | exact Hbefore]. intros g' Hg'.
        apply leb_false_ltb in Hg'. now apply ltb_step_false with d.
      * constructor.
        -- rewrite Hd. apply ltb_step_false with d; [ | exact Hlt].
           destruct d as [r | ]; [ | reflexivity]. apply ltb_Fin_false. lra.
        -- eapply Forall_impl; [ | exact Hafter]. intros g' Hg'.
           now apply ltb_step_false with d.
    + cbn [found]. split; [exact Hd | ]. split; [exact Hin | ].
      exists before, (after ++ [g])%list.
      split; [now rewrite <- app_assoc | ]. split; [exact Hbefore | ].
      apply Forall_app. split; [exact Hafter | ]. constructor; [ | constructor].
      apply andb_false_iff in Htest. destruct Htest as [H | H]; [exact H | ].
      now apply not_within_not_nearer.
  - intros Hnone. unfold nearer. fold (separation point g). cbn [below].
    destruct (separation point g) as [r | ] eqn:Hsep.
    + destruct (Fin r <=? tolerance) eqn:Hle; cbn [andb found].
      * split; [exact Hsep | ]. split; [exact Hle | ].
        exists seen, []. split; [reflexivity | ]. split; [ | constructor].
        eapply Forall_impl; [ | exact Hnone]. intros g' Hg'.
        now apply leb_trans_false with tolerance.
      * apply Forall_app. split; [exact Hnone | ].
        constructor; [now rewrite Hsep | constructor].
    + cbn [andb found]. apply Forall_app. split; [exact Hnone | ].
      constructor; [now rewrite Hsep | constructor].
Qed.

Lemma found_fold (rest : list Point) :
  forall (seen : list Point) (acc : option Point * option num),
    found seen acc ->
    found (seen ++ rest) (fold_left (nearer point tolerance) rest acc).
Proof.
  induction rest as [ | g rest IH]; intros seen acc Hacc.
  - now rewrite app_nil_r.
  - cbn [fold_left].
    replace (seen ++ g :: rest)%list with ((seen ++ [g]) ++ rest)%list
      by (now rewrite <- app_assoc).
    apply IH. now apply found_step.
Qed.

End Nearest.

(** What [findNearestGridPoint] returns. *)
Lemma findNearestGridPoint_spec (settings : Settings) (point : Point)
    (gridPoints : list Point) (tolerance : option num) :
  let tol := match tolerance with
             | Some t => t
             | None => Snapping.tolerance settings
             end in
  match findNearestGridPoint settings point gridPoints tolerance with
  | None =>
      Forall (fun g => (separation point g <=? tol) = false) gridPoints
  | Some g =>
      (separation point g <=? tol) = true
      /\ exists before after,
           gridPoints = (before ++ g :: after)%list
           /\ Forall (fun g' => (separation point g' <=? separation point g)
                                = false) before
           /\ Forall (fun g' => (separation point g' <? separation point g)
                                = false) after
  end.
Proof.
  intros tol. unfold findNearestGridPoint. fold tol.
  pose proof (@found_fold point tol gridPoints [] (None, None)) as H.
  cbn [app] in H. specialize (H (Forall_nil _)).
  destruct (fold_left (nearer point tol) gridPoints (None, None))
    as [[g | ] [d | ]]; cbn [found fst] in *; try contradiction.
  - destruct H as (Hd & Hle & before & after & Heq & Hb & Ha).
    rewrite Hd. split; [exact Hle | ]. now exists before, after.
  - exact H.
Qed.

(** X25: [findNearestGridPoint] returns [null] exactly when no grid point
    is within the tolerance (a grid point at a NaN distance is never
    within it); otherwise it returns a grid point of the list that is
    within the tolerance, such that no grid point of the list is nearer
    and no grid point before it in the list is as near: of several
    nearest ones, the first.  A tolerance left out is that of the
    settings. *)
Theorem X25_findNearestGridPoint (settings : Settings) (point : Point)
    (gridPoints : list Point) (tolerance : option num) :
  let tol := match tolerance with
             | Some t => t
             | None => Snapping.tolerance settings
             end in
  (findNearestGridPoint settings point gridPoints tolerance = None
   <-> Forall (fun g => (separation point g <=? tol) = false) gridPoints)
  /\ (forall g,
        findNearestGridPoint settings point gridPoints tolerance = Some g ->
        (separation point g <=? tol) = true
        /\ exists before after,
             gridPoints = (before ++ g :: after)%list
             /\ Forall (fun g' => (separation point g' <=? separation point g)
                                  = false) before
             /\ Forall (fun g' => (separation point g' <? separation point g)
                                  = false) after)
  /\ findNearestGridPoint settings point [] tolerance = None.
Proof.
  intros tol.
  pose proof (findNearestGridPoint_spec settings point gridPoints tolerance) as H.
  cbv zeta in H. fold tol in H.
  split; [ | split; [ | reflexivity]].
  - destruct (findNearestGridPoint settings point gridPoints tolerance)
      as [g | ].
    + split; [discriminate | ]. intros Hall.
      destruct H as (Hle & before & after & Heq & _).
      rewrite Forall_forall in Hall.
      rewrite (Hall g) in Hle; [discriminate | ].
      rewrite Heq. apply in_elt.
    + split; [intros _; exact H | reflexivity].
  - intros g Hg. rewrite Hg in H. exact H.
Qed.


(** *** [snapToGridIntersection] *)

Lemma off_test (settings : Settings) :
  enabled settings = false \/ mode settings = NONE ->
  negb (enabled settings) || is_none (mode settings) = true.
Proof.
  intros [H | H]; rewrite H; [reflexivity | apply orb_true_r].
Qed.

Lemma on_test (settings : Settings) :
  enabled settings = true -> mode settings <> NONE ->
  negb (enabled settings) || is_none (mode settings) = false.
Proof.
  intros He Hm. rewrite He. now destruct (mode settings).
Qed.

(** X26: [snapToGridIntersection] returns the point itself when snapping
    is disabled or in mode none, and when the list of grid points is empty.
    With snapping on and a snap strength of 1 or more (the default) it
    returns the grid point [findNearestGridPoint] finds, or the point itself
    when there is none: so the point given, or a grid point of the list
    within the tolerance of it. *)
Theorem X26_snapToGridIntersection (settings : Settings) (point : Point)
    (gridPoints : list Point) :
  (enabled settings = false \/ mode settings = NONE ->
   snapToGridIntersection settings point gridPoints = point)
  /\ (enabled settings = true -> mode settings <> NONE ->
      (snapStrength settings >=? Fin 1) = true ->
      snapToGridIntersection settings point gridPoints
      = match findNearestGridPoint settings point gridPoints None with
        | Some nearestPoint => nearestPoint
        | None => point
        end
      /\ (snapToGridIntersection settings point gridPoints = point
          \/ (In (snapToGridIntersection settings point gridPoints) gridPoints
              /\ (separation point
                    (snapToGridIntersection settings point gridPoints)
                  <=? tolerance settings) = true)))
  /\ snapToGridIntersection settings point [] = point.
Proof.
  split; [ | split].
  - intros Hoff. unfold snapToGridIntersection. now rewrite off_test.
  - intros He Hm Hs. unfold snapToGridIntersection. rewrite on_test by assumption.
    pose proof (findNearestGridPoint_spec settings point gridPoints None) as H.
    cbv zeta in H.
    destruct (findNearestGridPoint settings point gridPoints None) as [g | ].
    + unfold snapWithAttraction. rewrite Hs. split; [reflexivity | ].
      right. destruct H as (Hle & before & after & -> & _).
      split; [apply in_elt | exact Hle].
    + split; [reflexivity | now left].
  - unfold snapToGridIntersection, findNearestGridPoint. cbn [fold_left fst].
    now destruct (negb _ || _).
Qed.

(** *** [calculateSnapIndicators] *)

Local Open Scope R_scope.

Lemma gap_positive (px py qx qy : R) :
  px <> qx \/ py <> qy -> 0 < gap px py qx qy.
Proof.
  intros H. unfold gap. apply sqrt_lt_R0.
  pose proof (Rle_0_sqr (qx - px)) as Hx. pose proof (Rle_0_sqr (qy - py)) as Hy.
  unfold Rsqr in Hx, Hy.
  destruct H as [H | H].
  - assert (H' : qx - px <> 0) by lra. apply Rsqr_pos_lt in H'.
    unfold Rsqr in H'. lra.
  - assert (H' : qy - py <> 0) by lra. apply Rsqr_pos_lt in H'.
    unfold Rsqr in H'. lra.
Qed.

(** X27: on points with real coordinates, [calculateSnapIndicators]
    returns [null] exactly when the visual feedback is off, snapping is
    disabled, or the snapped point is the point itself; otherwise it
    returns the two points and their distance, which is positive. *)
Theorem X27_calculateSnapIndicators (settings : Settings) (px py qx qy : R) :
  let point := mkPoint (Fin px) (Fin py) in
  let snappedPoint := mkPoint (Fin qx) (Fin qy) in
  (calculateSnapIndicators settings point snappedPoint = None
   <-> visualFeedback settings = false \/ enabled settings = false
       \/ (px = qx /\ py = qy))
  /\ (forall indicators,
        calculateSnapIndicators settings point snappedPoint = Some indicators ->
        indicators = {| ind_original := point;
                        ind_snapped := snappedPoint;
                        ind_distance := Fin (gap px py qx qy) |}
        /\ 0 < gap px py qx qy).
Proof.
  intros point snappedPoint. subst point snappedPoint.
  unfold calculateSnapIndicators. cbn [x y].
  rewrite <- (separation_gap px py qx qy). unfold separation. cbn [x y].
  destruct (visualFeedback settings), (enabled settings); cbn [negb orb];
    try (split; [split; [intros _; tauto | reflexivity] | discriminate]).
  destruct (Fin px === Fin qx)%num eqn:Hx; cbn [andb].
  - apply eqb_Fin in Hx.
    destruct (Fin py === Fin qy)%num eqn:Hy.
    + apply eqb_Fin in Hy.
      split; [split; [intros _; tauto | reflexivity] | discriminate].
    + apply eqb_Fin_false in Hy. split.
      * split; [discriminate | ]. intros [H | [H | [_ H]]]; try discriminate.
        contradiction.
      * intros ind H. injection H as <-. split; [reflexivity | ].
        apply gap_positive. now right.
  - apply eqb_Fin_false in Hx. split.
    + split; [discriminate | ]. intros [H | [H | [H _]]]; try discriminate.
      contradiction.
    + intros ind H. injection H as <-. split; [reflexivity | ].
      apply gap_positive. now left.
Qed.


(** *** Configuration *)

Local Open Scope string_scope.

(** [setMode] takes the three mode names and no other; after [disable], or
    after [setMode] with ['none'], each of the three snap functions returns
    its point unchanged and calls none of its callbacks. *)
Lemma snapping_switched_off (settings : Settings) :
  (forall mode,
     fst (setMode settings mode) = true
     <-> In mode ["grid"; "intersection"; "none"])
  /\ (forall mode, fst (setMode settings mode) = false ->
                   snd (setMode settings mode) = settings)
  /\ (forall off,
        off = snd (disable settings) \/ off = snd (setMode settings "none") ->
        (forall point gridSize, snapToGridPoint off point gridSize = point)
        /\ (forall point gridPoints,
              snapToGridIntersection off point gridPoints = point)
        /\ (forall (S : Type) point
                   (transformFn inverseFn : Point -> Eff.M S Point)
                   (effectiveGridSizeFn : Point -> Eff.M S num) (s : S),
              snapTransformedPoint off point transformFn inverseFn
                                   effectiveGridSizeFn s
              = (Return point, s)))
  /\ snd (enable (snd (disable settings))) = snd (enable settings)
  /\ (enabled settings = true -> snd (enable (snd (disable settings))) = settings)
  /\ updateSettings settings
       {| new_enabled := None; new_mode := None; new_tolerance := None;
          new_visualFeedback := None; new_snapStrength := None |}
     = settings.
Proof.
  split; [ | split; [ | split; [ | split; [ | split ] ] ] ].
  - intros m. unfold setMode, mode_of. cbn [In].
    destruct (String.eqb m "grid") eqn:H1.
    { apply String.eqb_eq in H1. split; [intros _; now left | reflexivity]. }
    destruct (String.eqb m "intersection") eqn:H2.
    { apply String.eqb_eq in H2. split; [intros _; right; now left | reflexivity]. }
    destruct (String.eqb m "none") eqn:H3.
    { apply String.eqb_eq in H3.
      split; [intros _; right; right; now left | reflexivity]. }
    apply String.eqb_neq in H1, H2, H3. cbn [fst].
    split; [discriminate | ]. intros [H | [H | [H | []]]]; congruence.
  - intros m. unfold setMode. destruct (mode_of m); [discriminate | reflexivity].
  - intros off Hoff.
    assert (Htest : negb (enabled off) || is_none (mode off) = true).
    { destruct Hoff as [-> | ->]; cbn; [reflexivity | apply orb_true_r]. }
    split; [ | split].
    + intros point gridSize. unfold snapToGridPoint. now rewrite Htest.
    + intros point gridPoints. unfold snapToGridIntersection. now rewrite Htest.
    + intros S point tf inf ef s0. unfold snapTransformedPoint. now rewrite Htest.
  - reflexivity.
  - intros He. destruct settings as [en md tol vf ss]. cbn in *. now subst en.
  - now destruct settings.
Qed.

End SnappingFacts.

(** ** The cache module *)

Module CacheFacts.

Local Open Scope string_scope.

(** *** One [Map] *)

Section MapFacts.

Variables K V : Type.
Variable K_eq_dec : forall a b : K, {a = b} + {a <> b}.


Lemma map_has_get (m : JSMap.t K V) (key : K) :
  JSMap.has K_eq_dec m key = match JSMap.get K_eq_dec m key with Some _ => true | None => false end.
Proof.
  induction m as [ | [k v] m IH]; [reflexivity | ].
  cbn [JSMap.has JSMap.get]. now destruct (K_eq_dec k key).
Qed.

Lemma map_has_keys (m : JSMap.t K V) (key : K) :
  JSMap.has K_eq_dec m key = true <-> In key (JSMap.keys m).
Proof.
  induction m as [ | [k v] m IH]; cbn [JSMap.has JSMap.keys map fst In].
  - split; [discriminate | contradiction].
  - destruct (K_eq_dec k key) as [-> | Hne].
    + split; [now left | reflexivity].
    + unfold JSMap.keys in IH. rewrite IH. split; [now right | ].
      intros [H | H]; [contradiction | exact H].
Qed.

Lemma map_get_set_same (m : JSMap.t K V) (key : K) (value : V) :
  JSMap.get K_eq_dec (JSMap.set K_eq_dec m key value) key = Some value.
Proof.
  induction m as [ | [k v] m IH]; cbn [JSMap.set JSMap.get].
  - now destruct (K_eq_dec key key).
  - destruct (K_eq_dec k key) as [-> | Hne]; cbn [JSMap.get].
    + now destruct (K_eq_dec key key).
    + now destruct (K_eq_dec k key).
Qed.

Lemma map_get_set_other (m : JSMap.t K V) (key key' : K) (value : V) :
  key <> key' -> JSMap.get K_eq_dec (JSMap.set K_eq_dec m key value) key' = JSMap.get K_eq_dec m key'.
Proof.
  intros Hne. induction m as [ | [k v] m IH]; cbn [JSMap.set JSMap.get].
  - now destruct (K_eq_dec key key').
  - destruct (K_eq_dec k key) as [-> | Hk]; cbn [JSMap.get].
    + now destruct (K_eq_dec key key').
    + destruct (K_eq_dec k key'); [reflexivity | exact IH].
Qed.

Lemma map_keys_set (m : JSMap.t K V) (key : K) (value : V) :
  JSMap.keys (JSMap.set K_eq_dec m key value)
  = if JSMap.has K_eq_dec m key then JSMap.keys m else (JSMap.keys m ++ [key])%list.
Proof.
  unfold JSMap.keys.
  induction m as [ | [k v] m IH]; cbn [JSMap.set JSMap.has map fst app].
  - reflexivity.
  - destruct (K_eq_dec k key) as [-> | Hk]; cbn [map fst].
    + reflexivity.
    + rewrite IH. now destruct (JSMap.has K_eq_dec m key).
Qed.

Lemma map_set_NoDup (m : JSMap.t K V) (key : K) (value : V) :
  NoDup (JSMap.keys m) -> NoDup (JSMap.keys (JSMap.set K_eq_dec m key value)).
Proof.
  intros Hnd. rewrite map_keys_set. destruct (JSMap.has K_eq_dec m key) eqn:Hhas; [exact Hnd | ].
  apply NoDup_app; [exact Hnd | repeat constructor; intros [] | ].
  intros k Hin [<- | []]. apply map_has_keys in Hin. congruence.
Qed.

Lemma map_delete_spec (m : JSMap.t K V) (key : K) :
  fst (JSMap.delete K_eq_dec m key) = JSMap.has K_eq_dec m key
  /\ (forall key', key <> key' ->
                   JSMap.get K_eq_dec (snd (JSMap.delete K_eq_dec m key)) key' = JSMap.get K_eq_dec m key')
  /\ (NoDup (JSMap.keys m) ->
      NoDup (JSMap.keys (snd (JSMap.delete K_eq_dec m key)))
      /\ JSMap.has K_eq_dec (snd (JSMap.delete K_eq_dec m key)) key = false)
  /\ JSMap.size (snd (JSMap.delete K_eq_dec m key))
     = (JSMap.size m - if JSMap.has K_eq_dec m key then 1 else 0)%nat
  /\ (forall key', In key' (JSMap.keys (snd (JSMap.delete K_eq_dec m key))) ->
                   In key' (JSMap.keys m)).
Proof.
  unfold JSMap.size, JSMap.keys.
  induction m as [ | [k v] m IH];
    cbn [JSMap.delete JSMap.has JSMap.get map fst List.length].
  - repeat split; auto using NoDup_nil.
  - destruct IH as (IH1 & IH2 & IH3 & IH4 & IH5).
    destruct (K_eq_dec k key) as [-> | Hk].
    + cbn [fst snd]. split; [reflexivity | ].
      split; [intros key' Hne; now destruct (K_eq_dec key key') | ].
      split.
      * intros Hnd. inversion Hnd as [ | ? ? Hnotin Hnd']; subst.
        split; [exact Hnd' | ].
        destruct (JSMap.has K_eq_dec m key) eqn:Hhas; [ | reflexivity].
        apply map_has_keys in Hhas. contradiction.
      * split; [lia | ]. intros key' Hin. now right.
    + destruct (JSMap.delete K_eq_dec m key) as [found rest] eqn:Hdel. cbn [fst snd] in *.
      split; [exact IH1 | ].
      split.
      { intros key' Hne. cbn [JSMap.get].
        destruct (K_eq_dec k key'); [reflexivity | now apply IH2]. }
      split.
      { intros Hnd. inversion Hnd as [ | ? ? Hnotin Hnd']; subst.
        destruct (IH3 Hnd') as [Hnd'' Hgone]. cbn [map fst JSMap.has].
        split.
        - constructor; [ | exact Hnd'']. intros Hin. apply Hnotin.
          now apply IH5.
        - destruct (K_eq_dec k key); [contradiction | exact Hgone]. }
      split.
      { cbn [List.length]. rewrite IH4.
        destruct (JSMap.has K_eq_dec m key) eqn:Hhas; [ | lia].
        apply map_has_keys in Hhas. unfold JSMap.keys in Hhas.
        destruct m; [contradiction | cbn [List.length]; lia]. }
      intros key' Hin. cbn [map fst In] in *.
      destruct Hin as [H | H]; [now left | right; now apply IH5].
Qed.

End MapFacts.


(** *** The named caches *)

Section ModuleFacts.

Variables K V : Type.
Variable K_eq_dec : forall a b : K, {a = b} + {a <> b}.

(** What a cache holds; a cache that was never named holds nothing. *)
Definition contents (caches : CacheModule.t K V) (cacheName : string)
  : JSMap.t K V :=
  match JSMap.get string_dec caches cacheName with
  | Some cache => cache
  | None => JSMap.empty
  end.

Lemma getCache_contents (caches : CacheModule.t K V) (cacheName : string) :
  fst (CacheModule.getCache caches cacheName) = contents caches cacheName
  /\ forall name,
       contents (snd (CacheModule.getCache caches cacheName)) name
       = contents caches name.
Proof.
  unfold CacheModule.getCache, contents.
  destruct (JSMap.get string_dec caches cacheName) as [cache | ] eqn:Hget;
    cbn [fst snd]; split; try reflexivity.
  intros name. destruct (string_dec cacheName name) as [<- | Hne].
  - now rewrite map_get_set_same, Hget.
  - now rewrite map_get_set_other.
Qed.

Lemma put_contents (caches : CacheModule.t K V) (cacheName : string)
    (cache : JSMap.t K V) (name : string) :
  contents (CacheModule.put caches cacheName cache) name
  = if string_dec cacheName name then cache else contents caches name.
Proof.
  unfold CacheModule.put, contents.
  destruct (string_dec cacheName name) as [<- | Hne].
  - now rewrite map_get_set_same.
  - now rewrite map_get_set_other.
Qed.

Lemma get_contents (caches : CacheModule.t K V) (cacheName : string)
    (key : K) :
  fst (CacheModule.get K_eq_dec caches cacheName key)
  = JSMap.get K_eq_dec (contents caches cacheName) key
  /\ forall name,
       contents (snd (CacheModule.get K_eq_dec caches cacheName key)) name
       = contents caches name.
Proof.
  unfold CacheModule.get.
  destruct (getCache_contents caches cacheName) as [H1 H2].
  destruct (CacheModule.getCache caches cacheName) as [cache caches1].
  cbn [fst snd] in *. now subst cache.
Qed.

Lemma has_contents (caches : CacheModule.t K V) (cacheName : string)
    (key : K) :
  fst (CacheModule.has K_eq_dec caches cacheName key)
  = JSMap.has K_eq_dec (contents caches cacheName) key
  /\ forall name,
       contents (snd (CacheModule.has K_eq_dec caches cacheName key)) name
       = contents caches name.
Proof.
  unfold CacheModule.has.
  destruct (getCache_contents caches cacheName) as [H1 H2].
  destruct (CacheModule.getCache caches cacheName) as [cache caches1].
  cbn [fst snd] in *. now subst cache.
Qed.

Lemma keys_contents (caches : CacheModule.t K V) (cacheName : string) :
  fst (CacheModule.keys caches cacheName) = JSMap.keys (contents caches cacheName)
  /\ forall name,
       contents (snd (CacheModule.keys caches cacheName)) name
       = contents caches name.
Proof.
  unfold CacheModule.keys.
  destruct (getCache_contents caches cacheName) as [H1 H2].
  destruct (CacheModule.getCache caches cacheName) as [cache caches1].
  cbn [fst snd] in *. now subst cache.
Qed.

Lemma size_contents (caches : CacheModule.t K V) (cacheName : string) :
  fst (CacheModule.size caches cacheName) = JSMap.size (contents caches cacheName)
  /\ forall name,
       contents (snd (CacheModule.size caches cacheName)) name
       = contents caches name.
Proof.
  unfold CacheModule.size.
  destruct (getCache_contents caches cacheName) as [H1 H2].
  destruct (CacheModule.getCache caches cacheName) as [cache caches1].
  cbn [fst snd] in *. now subst cache.
Qed.

Lemma set_contents (caches : CacheModule.t K V) (cacheName : string)
    (key : K) (value : V) :
  fst (CacheModule.set K_eq_dec caches cacheName key value) = value
  /\ forall name,
       contents (snd (CacheModule.set K_eq_dec caches cacheName key value)) name
       = if string_dec cacheName name
         then JSMap.set K_eq_dec (contents caches cacheName) key value
         else contents caches name.
Proof.
  unfold CacheModule.set.
  destruct (getCache_contents caches cacheName) as [H1 H2].
  destruct (CacheModule.getCache caches cacheName) as [cache caches1].
  cbn [fst snd] in *. subst cache. split; [reflexivity | ].
  intros name. rewrite put_contents, H2. reflexivity.
Qed.

Lemma clear_contents (caches : CacheModule.t K V) (cacheName name : string) :
  contents (CacheModule.clear caches cacheName) name
  = if string_dec cacheName name then JSMap.empty else contents caches name.
Proof.
  unfold CacheModule.clear.
  destruct (getCache_contents caches cacheName) as [H1 H2].
  destruct (CacheModule.getCache caches cacheName) as [cache caches1].
  cbn [fst snd] in *. now rewrite put_contents, H2.
Qed.

Lemma clearAll_contents (caches : CacheModule.t K V) (name : string) :
  contents (CacheModule.clearAll caches) name = JSMap.empty.
Proof.
  unfold contents, CacheModule.clearAll.
  induction caches as [ | [n cache] caches IH]; [reflexivity | ].
  cbn [map fst snd JSMap.get]. now destruct (string_dec n name).
Qed.

Lemma remove_contents (caches : CacheModule.t K V) (cacheName : string)
    (key : K) :
  fst (CacheModule.remove K_eq_dec caches cacheName key)
  = fst (JSMap.delete K_eq_dec (contents caches cacheName) key)
  /\ forall name,
       contents (snd (CacheModule.remove K_eq_dec caches cacheName key)) name
       = if string_dec cacheName name
         then snd (JSMap.delete K_eq_dec (contents caches cacheName) key)
         else contents caches name.
Proof.
  unfold CacheModule.remove.
  destruct (getCache_contents caches cacheName) as [H1 H2].
  destruct (CacheModule.getCache caches cacheName) as [cache caches1].
  cbn [fst snd] in *. subst cache.
  destruct (JSMap.delete K_eq_dec (contents caches cacheName) key)
    as [found cache']. cbn [fst snd]. split; [reflexivity | ].
  intros name. now rewrite put_contents, H2.
Qed.


(** X28: in the cache module, [set] returns the value stored; a [get] of
    the key from the cache then returns that value and [has] is true; a
    [get] of another key, or from another cache, returns what it returned
    before; [get] and [has] themselves change no answer; [has] is true
    exactly where [get] finds a value; a fresh module has nothing.  The
    keys of a cache stay in the order in which they first came in: a [set]
    of a key that is there leaves them as they are, a [set] of a new key
    puts it last; and [size] is their number. *)
Theorem X28_cache_set_then_get (caches : CacheModule.t K V)
    (cacheName : string) (key : K) (value : V) :
  let caches' := snd (CacheModule.set K_eq_dec caches cacheName key value) in
  fst (CacheModule.set K_eq_dec caches cacheName key value) = value
  /\ fst (CacheModule.get K_eq_dec caches' cacheName key) = Some value
  /\ fst (CacheModule.has K_eq_dec caches' cacheName key) = true
  /\ (forall name key',
        name <> cacheName \/ key' <> key ->
        fst (CacheModule.get K_eq_dec caches' name key')
        = fst (CacheModule.get K_eq_dec caches name key'))
  /\ (forall name key' name'' key'',
        fst (CacheModule.get K_eq_dec
               (snd (CacheModule.get K_eq_dec caches name key')) name'' key'')
        = fst (CacheModule.get K_eq_dec caches name'' key''))
  /\ (forall name key',
        fst (CacheModule.has K_eq_dec caches name key')
        = match fst (CacheModule.get K_eq_dec caches name key') with
          | Some _ => true
          | None => false
          end)
  /\ fst (CacheModule.get K_eq_dec (@CacheModule.empty K V) cacheName key) = None
  /\ fst (CacheModule.keys caches' cacheName)
     = (if fst (CacheModule.has K_eq_dec caches cacheName key)
        then fst (CacheModule.keys caches cacheName)
        else fst (CacheModule.keys caches cacheName) ++ [key])%list
  /\ fst (CacheModule.size caches' cacheName)
     = List.length (fst (CacheModule.keys caches' cacheName)).
Proof.
  intros caches'.
  destruct (set_contents caches cacheName key value) as [Hv Hc].
  fold caches' in Hc.
  assert (Hhere : contents caches' cacheName
                  = JSMap.set K_eq_dec (contents caches cacheName) key value).
  { rewrite Hc. now destruct (string_dec cacheName cacheName). }
  split; [exact Hv | ].
  split.
  { rewrite (proj1 (get_contents caches' cacheName key)), Hhere.
    apply map_get_set_same. }
  split.
  { rewrite (proj1 (has_contents caches' cacheName key)), Hhere.
    rewrite map_has_get. now rewrite map_get_set_same. }
  split.
  { intros name key' Hne.
    rewrite (proj1 (get_contents caches' name key')),
            (proj1 (get_contents caches name key')), Hc.
    destruct (string_dec cacheName name) as [<- | Hn]; [ | reflexivity].
    apply map_get_set_other. destruct Hne as [H | H]; congruence. }
  split.
  { intros name key' name'' key''.
    rewrite (proj1 (get_contents _ name'' key'')).
    rewrite (proj2 (get_contents caches name key')).
    now rewrite (proj1 (get_contents caches name'' key'')). }
  split.
  { intros name key'.
    rewrite (proj1 (has_contents caches name key')),
            (proj1 (get_contents caches name key')).
    apply map_has_get. }
  split; [reflexivity | ].
  split.
  { rewrite (proj1 (keys_contents caches' cacheName)), Hhere.
    rewrite (proj1 (has_contents caches cacheName key)),
            (proj1 (keys_contents caches cacheName)).
    apply map_keys_set. }
  rewrite (proj1 (size_contents caches' cacheName)),
          (proj1 (keys_contents caches' cacheName)).
  unfold JSMap.size, JSMap.keys. now rewrite length_map.
Qed.

(** Every cache holds each of its keys once. *)
Definition distinct (caches : CacheModule.t K V) : Prop :=
  forall name, NoDup (JSMap.keys (contents caches name)).

Lemma distinct_empty : distinct (@CacheModule.empty K V).
Proof. intros name. constructor. Qed.

Lemma distinct_set (caches : CacheModule.t K V) (cacheName : string)
    (key : K) (value : V) :
  distinct caches ->
  distinct (snd (CacheModule.set K_eq_dec caches cacheName key value)).
Proof.
  intros Hd name. rewrite (proj2 (set_contents caches cacheName key value)).
  destruct (string_dec cacheName name); [ | apply Hd].
  apply map_set_NoDup, Hd.
Qed.

Lemma distinct_remove (caches : CacheModule.t K V) (cacheName : string)
    (key : K) :
  distinct caches ->
  distinct (snd (CacheModule.remove K_eq_dec caches cacheName key)).
Proof.
  intros Hd name. rewrite (proj2 (remove_contents caches cacheName key)).
  destruct (string_dec cacheName name); [ | apply Hd].
  destruct (map_delete_spec K_eq_dec (contents caches cacheName) key)
    as (_ & _ & H & _).
  now apply H.
Qed.

Lemma distinct_clear (caches : CacheModule.t K V) (cacheName : string) :
  distinct caches -> distinct (CacheModule.clear caches cacheName).
Proof.
  intros Hd name. rewrite clear_contents.
  destruct (string_dec cacheName name); [constructor | apply Hd].
Qed.

Lemma distinct_clearAll (caches : CacheModule.t K V) :
  distinct (CacheModule.clearAll caches).
Proof. intros name. rewrite clearAll_contents. constructor. Qed.

Lemma distinct_read (caches caches' : CacheModule.t K V) :
  (forall name, contents caches' name = contents caches name) ->
  distinct caches -> distinct caches'.
Proof. intros Hsame Hd name. rewrite Hsame. apply Hd. Qed.

(** X29: in a cache module whose caches hold each key once (as every module
    built from a fresh one by its own operations does: [set], [remove],
    [clear] and [clearAll] keep it so), [remove] returns whether the key
    was there, after it the key is not there, every other key and every
    other cache answers as before, and the size goes down by one exactly
    when it returns [true].  [clear] empties the cache it names and no
    other; [clearAll] empties every cache. *)
Theorem X29_cache_clear_and_remove (caches : CacheModule.t K V)
    (cacheName : string) (key : K) :
  distinct caches ->
  let removed := CacheModule.remove K_eq_dec caches cacheName key in
  (fst removed = fst (CacheModule.has K_eq_dec caches cacheName key)
   /\ fst (CacheModule.has K_eq_dec (snd removed) cacheName key) = false
   /\ (forall name key',
         name <> cacheName \/ key' <> key ->
         fst (CacheModule.get K_eq_dec (snd removed) name key')
         = fst (CacheModule.get K_eq_dec caches name key'))
   /\ fst (CacheModule.size (snd removed) cacheName)
      = (fst (CacheModule.size caches cacheName)
         - if fst removed then 1 else 0)%nat
   /\ distinct (snd removed))
  /\ (forall key',
        fst (CacheModule.get K_eq_dec (CacheModule.clear caches cacheName)
                             cacheName key') = None)
  /\ fst (CacheModule.size (CacheModule.clear caches cacheName) cacheName) = O
  /\ (forall name key',
        name <> cacheName ->
        fst (CacheModule.get K_eq_dec (CacheModule.clear caches cacheName)
                             name key')
        = fst (CacheModule.get K_eq_dec caches name key'))
  /\ (forall name key',
        fst (CacheModule.get K_eq_dec (CacheModule.clearAll caches) name key')
        = None)
  /\ (forall name, fst (CacheModule.size (CacheModule.clearAll caches) name) = O)
  /\ (forall value,
        distinct (snd (CacheModule.set K_eq_dec caches cacheName key value)))
  /\ distinct (CacheModule.clear caches cacheName)
  /\ distinct (CacheModule.clearAll caches).
Proof.
  intros Hd removed.
  destruct (remove_contents caches cacheName key) as [Hfound Hrest].
  fold removed in Hfound, Hrest.
  destruct (map_delete_spec K_eq_dec (contents caches cacheName) key)
    as (D1 & D2 & D3 & D4 & _).
  destruct (D3 (Hd cacheName)) as [_ Hgone].
  assert (Hhere : contents (snd removed) cacheName
                  = snd (JSMap.delete K_eq_dec (contents caches cacheName) key)).
  { rewrite Hrest. now destruct (string_dec cacheName cacheName). }
  split.
  { split.
    { rewrite Hfound, D1. now rewrite (proj1 (has_contents caches cacheName key)). }
    split.
    { now rewrite (proj1 (has_contents (snd removed) cacheName key)), Hhere. }
    split.
    { intros name key' Hne.
      rewrite (proj1 (get_contents (snd removed) name key')),
              (proj1 (get_contents caches name key')), Hrest.
      destruct (string_dec cacheName name) as [<- | Hn]; [ | reflexivity].
      apply D2. destruct Hne as [H | H]; congruence. }
    split.
    { rewrite (proj1 (size_contents (snd removed) cacheName)), Hhere, D4.
      now rewrite (proj1 (size_contents caches cacheName)), Hfound, D1. }
    now apply distinct_remove. }
  split.
  { intros key'.
    rewrite (proj1 (get_contents _ cacheName key')), clear_contents.
    now destruct (string_dec cacheName cacheName). }
  split.
  { rewrite (proj1 (size_contents _ cacheName)), clear_contents.
    now destruct (string_dec cacheName cacheName). }
  split.
  { intros name key' Hne.
    rewrite (proj1 (get_contents _ name key')), clear_contents.
    rewrite (proj1 (get_contents caches name key')).
    destruct (string_dec cacheName name); [congruence | reflexivity]. }
  split.
  { intros name key'.
    now rewrite (proj1 (get_contents _ name key')), clearAll_contents. }
  split.
  { intros name.
    now rewrite (proj1 (size_contents _ name)), clearAll_contents. }
  split; [intros value; now apply distinct_set | ].
  split; [now apply distinct_clear | apply distinct_clearAll].
Qed.

(** *** The caches as the engine keeps them *)

(** The engine's list of bindings and a [Map] answer every lookup alike. *)
Definition agree (c : Cache.t K V) (m : JSMap.t K V) : Prop :=
  forall key, Cache.get K_eq_dec c key = JSMap.get K_eq_dec m key.

Lemma agree_set (c : Cache.t K V) (m : JSMap.t K V) (key : K) (value : V) :
  agree c m -> agree (Cache.set c key value) (JSMap.set K_eq_dec m key value).
Proof.
  intros H key'. unfold Cache.set. cbn [Cache.get].
  destruct (K_eq_dec key key') as [<- | Hne].
  - now rewrite map_get_set_same.
  - rewrite map_get_set_other by exact Hne. apply H.
Qed.

(** X30: the list of bindings by which the engine keeps a named cache
    (the newest binding first) and the [Map] of the cache module answer
    alike: if they agree on every [get], then [get] and [has] give the same
    answers on both, and they still agree after a [set] or a [clear] of
    that cache on both sides, and after any [set], [clear], [get] or [has]
    of another cache of the module. *)
Theorem X30_engine_cache_refines (c : Cache.t K V) (caches : CacheModule.t K V)
    (cacheName : string) :
  agree c (contents caches cacheName) ->
  (forall key,
     Cache.get K_eq_dec c key
     = fst (CacheModule.get K_eq_dec caches cacheName key)
     /\ Cache.has K_eq_dec c key
        = fst (CacheModule.has K_eq_dec caches cacheName key))
  /\ (forall key value,
        agree (Cache.set c key value)
              (contents (snd (CacheModule.set K_eq_dec caches cacheName key value))
                        cacheName))
  /\ agree (Cache.clear c) (contents (CacheModule.clear caches cacheName) cacheName)
  /\ (forall name key value,
        name <> cacheName ->
        agree c (contents (snd (CacheModule.set K_eq_dec caches name key value))
                          cacheName)
        /\ agree c (contents (CacheModule.clear caches name) cacheName))
  /\ (forall name key,
        agree c (contents (snd (CacheModule.get K_eq_dec caches name key))
                          cacheName)
        /\ agree c (contents (snd (CacheModule.has K_eq_dec caches name key))
                             cacheName)).
Proof.
  intros Hag.
  split.
  { intros key. split.
    - rewrite (proj1 (get_contents caches cacheName key)). apply Hag.
    - rewrite (proj1 (has_contents caches cacheName key)), map_has_get.
      unfold Cache.has. now rewrite Hag. }
  split.
  { intros key value. rewrite (proj2 (set_contents caches cacheName key value)).
    destruct (string_dec cacheName cacheName); [ | contradiction].
    now apply agree_set. }
  split.
  { rewrite clear_contents.
    destruct (string_dec cacheName cacheName); [ | contradiction].
    intros key. reflexivity. }
  split.
  { intros name key value Hne. split.
    - rewrite (proj2 (set_contents caches name key value)).
      destruct (string_dec name cacheName); [contradiction | exact Hag].
    - rewrite clear_contents.
      destruct (string_dec name cacheName); [contradiction | exact Hag]. }
  intros name key. split.
  - now rewrite (proj2 (get_contents caches name key)).
  - now rewrite (proj2 (has_contents caches name key)).
Qed.

End ModuleFacts.

Lemma X29_cache_clear_and_remove_witness :
  fst (CacheModule.remove string_dec (@CacheModule.empty string nat)
                          "gridCellCache" "800-600-20-0")
  = fst (CacheModule.has string_dec (@CacheModule.empty string nat)
                         "gridCellCache" "800-600-20-0").
Proof.
  refine (proj1 (proj1 (@X29_cache_clear_and_remove string nat string_dec
                          CacheModule.empty "gridCellCache" "800-600-20-0" _))).
  apply distinct_empty.
Defined.

Lemma X30_engine_cache_refines_witness :
  Cache.get string_dec (@Cache.empty string nat) "1,2"
  = fst (CacheModule.get string_dec (@CacheModule.empty string nat)
                         "transformationCache" "1,2").
Proof.
  refine (proj1 (proj1 (@X30_engine_cache_refines string nat string_dec
                          Cache.empty CacheModule.empty
                          "transformationCache" _) "1,2")).
  intros k. reflexivity.
Defined.

End CacheFacts.
